(** * The NumPy fully connected network of [01_FCnn_PTvsNP.ipynb]

    A shallow embedding of the class [FullyConnectedNN_np]: its
    constructor, [_forward_prop], [_back_prop], [fit],
    [predict_single_data], [predict] and [__call__]; of the cell that
    trains the network and prints its predictions; and of the function
    [FullyConnectedNN_pt] that builds the PyTorch network.

    Floating point numbers are idealised as real numbers.  NumPy arrays
    carry their shape; every NumPy call that can raise is a function into
    [result].  The interpreter state holds the attributes of [self], the
    module level global [X], the Python list objects (so that aliasing of
    a list is visible) and the state of [np.random]. *)

From Stdlib Require Import Reals ZArith List Lia Lra.
From stdpp Require Import base list.
Import ListNotations.

Open Scope R_scope.

(** ** NumPy *)

Module np.

(** The two exceptions the code can meet: NumPy reports every shape
    problem (and a bad argument of [np.random]) as [ValueError]; indexing
    out of range is [IndexError]. *)
Inductive exn : Set := ValueError | IndexError.

Inductive result (A : Type) : Type :=
| Ok (a : A)
| Raise (e : exn).
Arguments Ok {A} a.
Arguments Raise {A} e.

(** A 1-D array of shape [(length v,)]. *)
Abbreviation vec := (list R).

(** A 2-D array of shape [(nrows, ncols)].  The shape is stored, as NumPy
    stores it: an array with no row still has a column count. *)
Record matrix : Type := Mat { nrows : nat; ncols : nat; rows : list vec }.

Definition wf (m : matrix) : Prop :=
  length (rows m) = nrows m /\ Forall (fun r => length r = ncols m) (rows m).

Definition shape (m : matrix) : nat * nat := (nrows m, ncols m).

(** What [labels[sample]] is: a 0-d value when [labels] is 1-D, a 1-D
    array when [labels] is 2-D. *)
Inductive operand : Type :=
| Scalar (x : R)
| Arr (v : vec).

Inductive labels : Type :=
| Labels1 (v : vec)
| Labels2 (m : matrix).

Definition ones (n : nat) : vec := repeat 1 n.

(** [np.ones((r, c))] *)
Definition ones2 (r c : nat) : matrix := Mat r c (repeat (repeat 1 c) r).

(** [np.concatenate((a, b))] of two 1-D arrays. *)
Definition concatenate (a b : vec) : vec := a ++ b.

(** [np.concatenate((a, b), axis=1)] of two 2-D arrays. *)
Definition concatenate1 (a b : matrix) : result matrix :=
  if (nrows a =? nrows b)%nat
  then Ok (Mat (nrows a) (ncols a + ncols b) (zip_with app (rows a) (rows b)))
  else Raise ValueError.

(** [np.vstack((a, b))] of two 2-D arrays. *)
Definition vstack (a b : matrix) : result matrix :=
  if (ncols a =? ncols b)%nat
  then Ok (Mat (nrows a + nrows b) (ncols a) (rows a ++ rows b))
  else Raise ValueError.

Definition tanh (v : vec) : vec := map Rtrigo_def.tanh v.

Definition sum (v : vec) : R := fold_right Rplus 0 v.

Definition inner (a b : vec) : R := sum (zip_with Rmult a b).

Definition column (m : matrix) (j : nat) : vec :=
  map (fun r => nth j r 0) (rows m).

Definition entry (m : matrix) (i j : nat) : R := nth j (nth i (rows m) []) 0.

(** The sum product of [v] with every column of [m]. *)
Definition vecmat (v : vec) (m : matrix) : vec :=
  map (fun j => inner v (column m j)) (seq 0 (ncols m)).

(** [np.dot(v, m)], [v.dot(m)]: a 1-D array times a 2-D array. *)
Definition dot (v : vec) (m : matrix) : result vec :=
  if (length v =? nrows m)%nat then Ok (vecmat v m) else Raise ValueError.

(** [a.dot(b)] of two 2-D arrays. *)
Definition matmul (a b : matrix) : result matrix :=
  if (ncols a =? nrows b)%nat
  then Ok (Mat (nrows a) (ncols b) (map (fun r => vecmat r b) (rows a)))
  else Raise ValueError.

(** Elementwise binary operation of two 1-D arrays, with broadcasting:
    equal lengths, or one of the two of length 1. *)
Definition broadcast (op : R -> R -> R) (a b : vec) : result vec :=
  if (length a =? length b)%nat then Ok (zip_with op a b)
  else match a, b with
       | [x], _ => Ok (map (op x) b)
       | _, [y] => Ok (map (fun x => op x y) a)
       | _, _ => Raise ValueError
       end.

(** [t - y] *)
Definition subtract (t : operand) (y : vec) : result vec :=
  match t with
  | Scalar x => Ok (map (fun v => x - v) y)
  | Arr a => broadcast Rminus a y
  end.

(** [a * b] *)
Definition multiply (a b : vec) : result vec := broadcast Rmult a b.

(** [v[1:]] *)
Definition slice1 (v : vec) : vec := tail v.

(** [m[1:]] *)
Definition slice1_rows (m : matrix) : matrix :=
  Mat (pred (nrows m)) (ncols m) (tail (rows m)).

(** [m.T] *)
Definition T (m : matrix) : matrix :=
  Mat (ncols m) (nrows m) (map (column m) (seq 0 (ncols m))).

(** [v.reshape(1, d)]: [d] is [-1] (inferred) or the size of [v]. *)
Definition reshape_row (v : vec) (d : Z) : result matrix :=
  if ((d =? -1) || (d =? Z.of_nat (length v)))%Z
  then Ok (Mat 1 (length v) [v])
  else Raise ValueError.

(** [np.array([]).reshape(0, d)] *)
Definition empty_reshape (d : Z) : result matrix :=
  if (0 <=? d)%Z then Ok (Mat 0 (Z.to_nat d) []) else Raise ValueError.

(** [c * m] for a number [c]. *)
Definition scale (c : R) (m : matrix) : matrix :=
  Mat (nrows m) (ncols m) (map (map (Rmult c)) (rows m)).

(** [w += m] on the array [w]: [m] is broadcast to the shape of [w],
    which never changes. *)
Definition iadd (w m : matrix) : result matrix :=
  if (((nrows m =? nrows w) || (nrows m =? 1))
      && ((ncols m =? ncols w) || (ncols m =? 1)))%nat
  then Ok (Mat (nrows w) (ncols w)
             (imap (fun i r =>
                      imap (fun j x =>
                              x + entry m (if (nrows m =? nrows w)%nat then i else 0%nat)
                                          (if (ncols m =? ncols w)%nat then j else 0%nat))
                           r)
                   (rows w)))
  else Raise ValueError.

(** [m[i]] *)
Definition getrow (m : matrix) (i : nat) : result vec :=
  match rows m !! i with
  | Some r => Ok r
  | None => Raise IndexError
  end.

(** [v[i]] *)
Definition item (v : vec) (i : nat) : result R :=
  match v !! i with
  | Some x => Ok x
  | None => Raise IndexError
  end.

(** [labels[i]] *)
Definition label_at (l : labels) (i : nat) : result operand :=
  match l with
  | Labels1 v => match v !! i with Some x => Ok (Scalar x) | None => Raise IndexError end
  | Labels2 m => match rows m !! i with Some r => Ok (Arr r) | None => Raise IndexError end
  end.

(** The state of [np.random], as an oracle: request number [k] is
    answered by [uniform k] when it asks for a sample of [[0, 1)] and by
    [integer k n] when it asks for an integer below [n]. *)
Record generator : Type :=
  Gen { uniform : nat -> R; integer : nat -> nat -> nat; cursor : nat }.

Definition advance (k : nat) (g : generator) : generator :=
  Gen (uniform g) (integer g) (cursor g + k).

(** NumPy's contract for the two requests. *)
Definition valid_generator (g : generator) : Prop :=
  (forall k, 0 <= uniform g k < 1) /\
  (forall k n, (0 < n)%nat -> (integer g k n < n)%nat).

(** [np.random.rand(d0, d1)]: negative dimensions are refused. *)
Definition rand (d0 d1 : Z) (g : generator) : result matrix * generator :=
  if ((d0 <? 0) || (d1 <? 0))%Z then (Raise ValueError, g)
  else
    let r := Z.to_nat d0 in
    let c := Z.to_nat d1 in
    (Ok (Mat r c
           (map (fun i => map (fun j => uniform g (cursor g + i * c + j)) (seq 0 c))
                (seq 0 r))),
     advance (r * c) g).

(** [np.random.randint(n)] *)
Definition randint (n : nat) (g : generator) : result nat * generator :=
  if (n =? 0)%nat then (Raise ValueError, g)
  else (Ok (integer g (cursor g) n), advance 1 g).

(** [2*m - 1] *)
Definition affine (m : matrix) : matrix :=
  Mat (nrows m) (ncols m) (map (map (fun u => 2 * u - 1)) (rows m)).

End np.

Import np.

(** ** The interpreter state *)

(** A reference to a Python list of 1-D arrays. *)
Definition loc : Type := nat.

(** The calls [fit] makes on [self], recorded when they return. *)
Inductive call : Set := Forward | Backward.

Record pystate : Type := State {
  layers : nat;              (* self.layers *)
  arch : list Z;             (* self.arch *)
  weights : list matrix;     (* self.weights *)
  X : matrix;                (* the global X of the notebook *)
  lists : loc -> list vec;   (* the list objects *)
  next_loc : loc;            (* the next fresh reference *)
  rng : generator;           (* np.random *)
  calls : list call          (* ghost: calls that returned *)
}.

Definition set_layers (n : nat) (s : pystate) : pystate :=
  State n (arch s) (weights s) (X s) (lists s) (next_loc s) (rng s) (calls s).
Definition set_arch (a : list Z) (s : pystate) : pystate :=
  State (layers s) a (weights s) (X s) (lists s) (next_loc s) (rng s) (calls s).
Definition set_weights (w : list matrix) (s : pystate) : pystate :=
  State (layers s) (arch s) w (X s) (lists s) (next_loc s) (rng s) (calls s).
Definition set_list (l : loc) (v : list vec) (s : pystate) : pystate :=
  State (layers s) (arch s) (weights s) (X s)
        (fun l' => if (l' =? l)%nat then v else lists s l') (next_loc s) (rng s) (calls s).
Definition set_next_loc (n : loc) (s : pystate) : pystate :=
  State (layers s) (arch s) (weights s) (X s) (lists s) n (rng s) (calls s).
Definition set_rng (g : generator) (s : pystate) : pystate :=
  State (layers s) (arch s) (weights s) (X s) (lists s) (next_loc s) g (calls s).
Definition set_calls (c : list call) (s : pystate) : pystate :=
  State (layers s) (arch s) (weights s) (X s) (lists s) (next_loc s) (rng s) c.

(** A computation: it returns or raises, and the state it leaves stays
    in both cases. *)
Definition M (A : Type) : Type := pystate -> result A * pystate.

Definition ret {A} (a : A) : M A := fun s => (Ok a, s).

Definition raise {A} (e : exn) : M A := fun s => (Raise e, s).

Definition bind {A B} (m : M A) (k : A -> M B) : M B :=
  fun s => match m s with
           | (Ok a, s') => k a s'
           | (Raise e, s') => (Raise e, s')
           end.

Notation "x <- m ;; k" := (bind m (fun x => k))
  (at level 100, m at next level, right associativity).
Notation "m ;;; k" := (bind m (fun _ => k))
  (at level 100, right associativity).

Definition get : M pystate := fun s => (Ok s, s).

Definition modify (f : pystate -> pystate) : M unit := fun s => (Ok tt, f s).

Definition lift {A} (r : result A) : M A := fun s => (r, s).

(** [for x in l: b = f(b, x)], [b] the local variables the body assigns. *)
Fixpoint foldM {A B} (f : B -> A -> M B) (l : list A) (b : B) : M B :=
  match l with
  | [] => ret b
  | x :: l' => b' <- f b x ;; foldM f l' b'
  end.

Definition for_each {A} (l : list A) (body : A -> M unit) : M unit :=
  foldM (fun _ x => body x) l tt.

(** [range(n)] and [range(hi, 0, -1)] *)
Definition range (n : nat) : list nat := seq 0 n.
Definition range_down (hi : nat) : list nat := reverse (seq 1 hi).

(** *** Attributes of [self] and list objects *)

(** [len(self.weights)] *)
Definition len_weights : M nat := s <- get ;; ret (length (weights s)).

(** [self.weights[i]] *)
Definition weights_get (i : nat) : M matrix :=
  s <- get ;;
  match weights s !! i with
  | Some w => ret w
  | None => raise IndexError
  end.

(** [self.weights[-1]] *)
Definition weights_last : M matrix :=
  s <- get ;;
  match last (weights s) with
  | Some w => ret w
  | None => raise IndexError
  end.

(** [self.weights.append(w)] *)
Definition weights_append (w : matrix) : M unit :=
  modify (fun s => set_weights (weights s ++ [w]) s).

(** The in-place [+=] on the array stored at [self.weights[i]]. *)
Definition weights_iadd (i : nat) (m : matrix) : M unit :=
  s <- get ;;
  match weights s !! i with
  | Some w =>
      w' <- lift (iadd w m) ;;
      modify (set_weights (<[i := w']> (weights s)))
  | None => raise IndexError
  end.

(** [self.arch[i]] *)
Definition arch_get (i : nat) : M Z :=
  s <- get ;;
  match arch s !! i with
  | Some a => ret a
  | None => raise IndexError
  end.

(** [self.arch[-1]] *)
Definition arch_last : M Z :=
  s <- get ;;
  match last (arch s) with
  | Some a => ret a
  | None => raise IndexError
  end.

(** [[v]]: a new list object. *)
Definition list_new (v : list vec) : M loc :=
  s <- get ;;
  let l := next_loc s in
  modify (fun s => set_next_loc (S l) (set_list l v s)) ;;;
  ret l.

(** [y[i]] *)
Definition list_get (y : loc) (i : nat) : M vec :=
  s <- get ;;
  match lists s y !! i with
  | Some v => ret v
  | None => raise IndexError
  end.

(** [y[-1]] *)
Definition list_last (y : loc) : M vec :=
  s <- get ;;
  match last (lists s y) with
  | Some v => ret v
  | None => raise IndexError
  end.

(** [y.append(v)] *)
Definition list_append (y : loc) (v : vec) : M unit :=
  modify (fun s => set_list y (lists s y ++ [v]) s).

(** [np.random.rand(d0, d1)] and [np.random.randint(n)] on the global
    generator. *)
Definition random_rand (d0 d1 : Z) : M matrix :=
  fun s => let (r, g) := rand d0 d1 (rng s) in (r, set_rng g s).

Definition random_randint (n : nat) : M nat :=
  fun s => let (r, g) := randint n (rng s) in (r, set_rng g s).

(** Ghost: record that a call on [self] returned (the call counter a test
    would wrap around the method). *)
Definition counted {A} (c : call) (m : M A) : M A :=
  a <- m ;;
  modify (fun s => set_calls (calls s ++ [c]) s) ;;;
  ret a.

(** ** The program *)

(** [def tanh_derivative(x): return 1 / np.cosh(x) ** 2] *)
Definition tanh_derivative (x : R) : R := 1 / (cosh x) ^ 2.

(** [self.activity_derivative] on a 1-D array. *)
Definition activity_derivative (v : vec) : vec := map tanh_derivative v.

(** [self.activity] *)
Definition activity (v : vec) : vec := np.tanh v.

(** [FullyConnectedNN_np.__init__(self, net_arch)].  The attributes
    [activity] and [activity_derivative] are the two functions above;
    [steps_per_epoch] is never read. *)
Definition __init__ (net_arch : list Z) : M unit :=
  modify (set_layers (length net_arch)) ;;;
  modify (set_arch net_arch) ;;;
  modify (set_weights []) ;;;
  s <- get ;;
  for_each (range (layers s - 1)) (fun layer =>
    a0 <- lift (match net_arch !! layer with Some a => Ok a | None => Raise IndexError end) ;;
    a1 <- lift (match net_arch !! (layer + 1)%nat with Some a => Ok a | None => Raise IndexError end) ;;
    u <- random_rand (a0 + 1) a1 ;;
    let w := affine u in
    weights_append w).

(** [FullyConnectedNN_np._forward_prop(self, x)].  [y = x] makes [y] the
    list object the caller passed. *)
Definition _forward_prop (x : loc) : M loc :=
  let y := x in
  n <- len_weights ;;
  for_each (range (n - 1)) (fun i =>
    yi <- list_get y i ;;
    w <- weights_get i ;;
    activation <- lift (dot yi w) ;;
    let activity1 := activity activation in
    let activity2 := concatenate (ones 1) activity1 in
    list_append y activity2) ;;;
  yl <- list_last y ;;
  w <- weights_last ;;
  activation <- lift (dot yl w) ;;
  let activity1 := activity activation in
  list_append y activity1 ;;;
  ret y.

(** [FullyConnectedNN_np._back_prop(self, y, target, learning_rate)].
    [delta_vec] is a list local to the call.  The statement
    [self.weights[i] += ...] loads the array, evaluates the right-hand
    side, then adds in place. *)
Definition _back_prop (y : loc) (target : operand) (learning_rate : R) : M unit :=
  out <- list_last y ;;
  error <- lift (subtract target out) ;;
  out' <- list_last y ;;
  d0 <- lift (multiply error (activity_derivative out')) ;;
  s <- get ;;
  delta_vec <- foldM (fun delta_vec i =>
      w <- weights_get i ;;
      error <- lift (match last delta_vec with
                     | Some d => dot d (T (slice1_rows w))
                     | None => Raise IndexError
                     end) ;;
      yi <- list_get y i ;;
      error <- lift (multiply error (activity_derivative (slice1 yi))) ;;
      ret (delta_vec ++ [error]))
    (range_down (layers s - 2)) [d0] ;;
  let delta_vec := reverse delta_vec in
  n <- len_weights ;;
  for_each (range n) (fun i =>
    yi <- list_get y i ;;
    a <- arch_get i ;;
    layer <- lift (reshape_row yi (a + 1)) ;;
    d <- lift (match delta_vec !! i with Some d => Ok d | None => Raise IndexError end) ;;
    a' <- arch_get (i + 1) ;;
    delta <- lift (reshape_row d a') ;;
    _ <- weights_get i ;;
    upd <- lift (matmul (T layer) delta) ;;
    weights_iadd i (scale learning_rate upd)).

(** [FullyConnectedNN_np.fit(self, data, labels, learning_rate, epochs)].
    The progress line printed every 10000 iterations is left out.  The
    bound of [np.random.randint] is [X.shape[0]], [X] the global. *)
Definition fit (data : matrix) (labels : labels) (learning_rate : R) (epochs : nat)
  : M unit :=
  let ones := ones2 1 (nrows data) in
  Z <- lift (concatenate1 (T ones) data) ;;
  for_each (range epochs) (fun k =>
    s <- get ;;
    sample <- random_randint (nrows (X s)) ;;
    z <- lift (getrow Z sample) ;;
    x <- list_new [z] ;;
    y <- counted Forward (_forward_prop x) ;;
    target <- lift (label_at labels sample) ;;
    counted Backward (_back_prop y target learning_rate)).

(** [FullyConnectedNN_np.predict_single_data(self, x)] *)
Definition predict_single_data (x : vec) : M R :=
  let val := concatenate (ones 1) x in
  n <- len_weights ;;
  val <- foldM (fun val i =>
      w <- weights_get i ;;
      a <- lift (dot val w) ;;
      let val := activity a in
      ret (concatenate (ones 1) val))
    (range n) val ;;
  lift (item val 1).

(** [FullyConnectedNN_np.predict(self, X)]; the parameter, here [Xs],
    hides the global. *)
Definition predict (Xs : list vec) : M matrix :=
  a <- arch_last ;;
  Y <- lift (empty_reshape a) ;;
  foldM (fun Y x =>
      v <- predict_single_data x ;;
      let y := Mat 1 1 [[v]] in
      lift (vstack Y y))
    Xs Y.

(** [FullyConnectedNN_np.__call__(self, X)] *)
Definition __call__ (Xs : list vec) : M matrix := predict Xs.

(** ** PyTorch *)

Module torch.

(** What can stop [FullyConnectedNN_pt]: an index out of the range of the
    list of layer sizes, or [nn.Linear] refusing its sizes. *)
Inductive exn : Set := IndexError | LinearError.

Inductive result (A : Type) : Type :=
| Ok (a : A)
| Raise (e : exn).
Arguments Ok {A} a.
Arguments Raise {A} e.

Definition bind {A B} (r : result A) (k : A -> result B) : result B :=
  match r with
  | Ok a => k a
  | Raise e => Raise e
  end.

(** [l[i]] on a Python list: a negative index counts from the end. *)
Definition getitem {A} (l : list A) (i : Z) : result A :=
  let j := if (i <? 0)%Z then (i + Z.of_nat (length l))%Z else i in
  if (j <? 0)%Z then Raise IndexError
  else match l !! Z.to_nat j with
       | Some a => Ok a
       | None => Raise IndexError
       end.

Section nn.

(** [torch.nn] as far as the function uses it.  The modules are opaque.
    [nn.Linear(i, o)] takes the sizes [accepts] says and raises on the
    others; the module it builds also depends on how many were built
    before it (its parameters come from the generator of PyTorch). *)
Variable nn_Module : Type.
Variable accepts : Z -> Z -> bool.
Variable Linear : nat -> Z -> Z -> nn_Module.
Variables Tanh Sigmoid : nn_Module.

Definition nn_Linear (built : nat) (i o : Z) : result nn_Module :=
  if accepts i o then Ok (Linear built i o) else Raise LinearError.

(** The loop [for i in range(len(net_arch) - 2)], [layers] the list it
    appends to. *)
Fixpoint hidden (net_arch : list Z) (indices : list nat)
    (layers : list nn_Module) : result (list nn_Module) :=
  match indices with
  | [] => Ok layers
  | i :: rest =>
      bind (getitem net_arch (Z.of_nat i)) (fun a0 =>
      bind (getitem net_arch (Z.of_nat i + 1)) (fun a1 =>
      bind (nn_Linear i a0 a1) (fun linear =>
      hidden net_arch rest (layers ++ [linear] ++ [Tanh]))))
  end.

(** [def FullyConnectedNN_pt(net_arch)]; the [nn.Sequential] it returns is
    the list of its modules. *)
Definition FullyConnectedNN_pt (net_arch : list Z) : result (list nn_Module) :=
  bind (hidden net_arch (seq 0 (length net_arch - 2)) []) (fun layers =>
  bind (getitem net_arch (-2)) (fun a0 =>
  bind (getitem net_arch (-1)) (fun a1 =>
  bind (nn_Linear (length net_arch - 2) a0 a1) (fun linear =>
  Ok (layers ++ [linear] ++ [Sigmoid]))))).

End nn.

End torch.

(** ** Properties of states and of computations *)

(** The matrix [w] at layer boundary [i] has one row more than layer [i]
    has neurons and as many columns as layer [i+1] has neurons. *)
Definition boundary_ok (a : list Z) (i : nat) (w : matrix) : Prop :=
  exists a0 a1, a !! i = Some a0 /\ a !! S i = Some a1 /\
    wf w /\ Z.of_nat (nrows w) = (1 + a0)%Z /\ Z.of_nat (ncols w) = a1.

(** The invariant of the data model: one matrix per layer boundary, each
    of the shape its boundary asks for. *)
Definition shape_invariant (s : pystate) : Prop :=
  length (weights s) = (length (arch s) - 1)%nat /\
  forall i w, weights s !! i = Some w -> boundary_ok (arch s) i w.

(** A network of layer sizes [sizes]: the attributes agree and the shape
    invariant holds. *)
Definition net_ok (sizes : list nat) (s : pystate) : Prop :=
  layers s = length sizes /\ arch s = map Z.of_nat sizes /\ shape_invariant s.

(** Every entry of [w] satisfies [P]. *)
Definition entries_in (P : R -> Prop) (w : matrix) : Prop :=
  Forall (Forall P) (rows w).

(** Some layer boundary of [net_arch] hands [np.random.rand] a negative
    dimension: [net_arch[i] + 1 < 0] or [net_arch[i+1] < 0]. *)
Definition negative_dimension (net_arch : list Z) : Prop :=
  exists i a0 a1, net_arch !! i = Some a0 /\ net_arch !! S i = Some a1 /\
    ((a0 < -1)%Z \/ (a1 < 0)%Z).

(** What the constructor leaves when it returns. *)
Definition constructed (net_arch : list Z) (s0 s : pystate) : Prop :=
  layers s = length net_arch /\ arch s = net_arch /\
  shape_invariant s /\
  ((forall k, 0 <= uniform (rng s0) k < 1) ->
   Forall (entries_in (fun e => -1 <= e < 1)) (weights s)).

(** An activation trace for layer sizes [sizes]: one 1-D array per layer,
    with the bias in front for all layers but the last. *)
Definition trace_ok (sizes : list nat) (ys : list vec) : Prop :=
  length ys = length sizes /\
  forall i y, ys !! i = Some y ->
    exists n, sizes !! i = Some n /\
      length y = if (S i =? length sizes)%nat then n else S n.

(** The arrays the loop and the last step of [_forward_prop] compute from
    the matrices [ws] and the layer-0 activation [v], shape checks apart. *)
Fixpoint activations (ws : list matrix) (v : vec) : list vec :=
  match ws with
  | [] => []
  | w :: ws' =>
      match ws' with
      | [] => [activity (vecmat v w)]
      | _ :: _ =>
          let v' := concatenate (ones 1) (activity (vecmat v w)) in
          v' :: activations ws' v'
      end
  end.

(** A target [_back_prop] can subtract the output of [lc] neurons from
    without a shape error: a number, an array of [lc] values, or an array
    of one value (which NumPy broadcasts). *)
Definition target_ok (target : operand) (lc : nat) : Prop :=
  match target with
  | Scalar _ => True
  | Arr t => length t = lc \/ length t = 1%nat
  end.

(** The first [n] labels exist and broadcast to an output of [lc]
    neurons. *)
Definition labels_ok (l : labels) (n lc : nat) : Prop :=
  forall i, (i < n)%nat -> exists target, label_at l i = Ok target /\ target_ok target lc.

(** [w'] is [w] after [w += learning_rate * layer.T.dot(delta)], [layer]
    and [delta] the arrays [yi] and [d] reshaped to one row. *)
Definition updated (learning_rate : R) (yi d : vec) (w w' : matrix) : Prop :=
  exists upd,
    matmul (T (Mat 1 (length yi) [yi])) (Mat 1 (length d) [d]) = Ok upd /\
    iadd w (scale learning_rate upd) = Ok w'.

(** The calls [k] iterations of [fit] make. *)
Definition call_pairs (k : nat) : list call := concat (repeat [Forward; Backward] k).

(** The number of weight updates among the recorded calls: the calls of
    [_back_prop] that returned. *)
Definition updates (cs : list call) : nat :=
  length (List.filter (fun c => match c with Backward => true | Forward => false end) cs).

(** *** Relations between the state before and the state after *)

(** [s'] has the architecture of [s] and matrices of the same shapes. *)
Definition same_shapes (s s' : pystate) : Prop :=
  layers s' = layers s /\ arch s' = arch s /\
  map shape (weights s') = map shape (weights s) /\
  (Forall wf (weights s) -> Forall wf (weights s')).

(** Everything but the list object [x] is as it was. *)
Definition only_list (x : loc) (s s' : pystate) : Prop :=
  layers s' = layers s /\ arch s' = arch s /\ weights s' = weights s /\
  X s' = X s /\ next_loc s' = next_loc s /\ rng s' = rng s /\ calls s' = calls s /\
  forall l, l <> x -> lists s' l = lists s l.

(** Nothing but the weight matrices differs. *)
Definition only_weights (s s' : pystate) : Prop :=
  layers s' = layers s /\ arch s' = arch s /\ X s' = X s /\
  lists s' = lists s /\ next_loc s' = next_loc s /\ rng s' = rng s /\
  calls s' = calls s.

(** The recorded calls are as they were. *)
Definition same_calls (s s' : pystate) : Prop := calls s' = calls s.

(** Two states agree on what [_forward_prop x] reads. *)
Definition same_input (x : loc) (s1 s2 : pystate) : Prop :=
  weights s1 = weights s2 /\ lists s1 x = lists s2 x.

(** A computation keeps a relation between the state it starts from and
    the state it leaves, whether it returns or raises. *)
Definition preserves {A} (R : pystate -> pystate -> Prop) (m : M A) : Prop :=
  forall s, R s (m s).2.

(** A computation whose outcome and whose effect on what [R] relates are
    determined by what [R] relates. *)
Definition respects {A} (R : pystate -> pystate -> Prop) (m : M A) : Prop :=
  forall s1 s2, R s1 s2 -> (m s1).1 = (m s2).1 /\ R (m s1).2 (m s2).2.

(** The whole state is as it was. *)
Definition unchanged (s s' : pystate) : Prop := s' = s.

(** The weight matrices are as they were. *)
Definition same_weights (s s' : pystate) : Prop := weights s' = weights s.

(** The global [X] is as it was. *)
Definition same_X (s s' : pystate) : Prop := X s' = X s.

(** The generator keeps NumPy's contract if it kept it. *)
Definition still_valid (s s' : pystate) : Prop :=
  valid_generator (rng s) -> valid_generator (rng s').

(** An array of zeros. *)
Definition zeros (v : vec) : Prop := Forall (fun e => e = 0) v.

(** The number of entries of the weight matrices. *)
Definition parameters (s : pystate) : nat :=
  list_sum (map (fun w => nrows w * ncols w)%nat (weights s)).

(** The number of weights an architecture asks for: one per neuron of a
    layer, and one for its bias, for every neuron of the next layer. *)
Fixpoint weight_count (net_arch : list Z) : nat :=
  match net_arch with
  | a0 :: rest =>
      match rest with
      | a1 :: _ => (Z.to_nat (a0 + 1) * Z.to_nat a1 + weight_count rest)%nat
      | [] => 0%nat
      end
  | [] => 0%nat
  end.

(** [v.reshape(-1, 1)]: a 1-D array as a column. *)
Definition as_column (v : vec) : matrix := Mat (length v) 1 (map (fun x => [x]) v).

(** ** The notebook's data and some concrete states *)

(** [X = np.array([[0, 0], [0, 1], [1, 0], [1, 1]])] *)
Definition notebook_X : matrix := Mat 4 2 [[0; 0]; [0; 1]; [1; 0]; [1; 1]].

(** [y = np.array([0, 1, 1, 0])] *)
Definition notebook_y : labels := Labels1 [0; 1; 1; 0].

(** The first two rows of the notebook's data, and their labels. *)
Definition short_data : matrix := Mat 2 2 [[0; 0]; [0; 1]].
Definition short_labels : labels := Labels1 [0; 1].

(** A generator whose every sample is [u] and whose every integer is the
    largest one allowed. *)
Definition constant_generator (u : R) : generator :=
  Gen (fun _ => u) (fun _ n => (n - 1)%nat) 0%nat.

(** The notebook before the network is built. *)
Definition fresh (g : generator) : pystate :=
  State 0%nat [] [] notebook_X (fun _ => []) 0%nat g [].

(** A network of architecture [sizes] with the given matrices. *)
Definition network (sizes : list Z) (ws : list matrix) : pystate :=
  State (length sizes) sizes ws notebook_X (fun _ => []) 0%nat (constant_generator (1 / 2)) [].

(** The notebook's network, [FullyConnectedNN_np([2, 2, 1])], built from a
    generator whose samples are all one half. *)
Definition xor_network : pystate :=
  (__init__ [2; 2; 1]%Z (fresh (constant_generator (1 / 2)))).2.

(** The network [[1, 1]] with both weights 0, and a caller's list
    [[np.array([1, 0])]] at reference 0. *)
Definition tiny_network : pystate :=
  set_list 0%nat [[1; 0]] (network [1; 1]%Z [Mat 2 1 [[0]; [0]]]).

(** The network [[1, 1]] whose output neuron has bias weight 1 and input
    weight 0: its output is [tanh 1] whatever the input. *)
Definition biased_network : pystate :=
  network [1; 1]%Z [Mat 2 1 [[1]; [0]]].

(** The network [[1, 2]]: two output neurons, the second one fed by the
    input. *)
Definition two_outputs : pystate :=
  network [1; 2]%Z [Mat 2 2 [[0; 0]; [0; 1]]].

(** A network after [_forward_prop] on a new list for the input [x], as in
    an iteration of [fit]: the list at the reference that was fresh holds
    the trace. *)
Definition traced (x : vec) (s : pystate) : pystate :=
  ((y <- list_new [concatenate (ones 1) x] ;; _forward_prop y) s).2.

(** [biased_network] with the trace of the input [[0]] at reference 0. *)
Definition biased_trace : pystate := traced [0] biased_network.

(** [tiny_network] with a second list, [[np.array([1])]], at reference 1;
    the list at reference 2 is empty. *)
Definition three_lists : pystate := set_list 1%nat [[1]] tiny_network.

(** The network [[1, 0]]: no output neuron. *)
Definition no_output : pystate := network [1; 0]%Z [Mat 2 0 [[]; []]].

(** [xor_network] in a notebook whose global [X] has no row. *)
Definition without_rows : pystate :=
  State (layers xor_network) (arch xor_network) (weights xor_network) (Mat 0 2 [])
        (lists xor_network) (next_loc xor_network) (rng xor_network) (calls xor_network).

(** [FullyConnectedNN_np([1, 0, 1])], which the constructor accepts: a
    hidden layer without neurons. *)
Definition cut_network : pystate :=
  (__init__ [1; 0; 1]%Z (fresh (constant_generator (1 / 2)))).2.

(** Four samples of one value each. *)
Definition narrow_data : matrix := Mat 4 1 [[0]; [1]; [0]; [1]].

(** The cell of the notebook that builds the network, trains it and prints
    its predictions:
    [net = FullyConnectedNN_np([2, 2, 1]); net.fit(X, y, epochs=4000);
     for s in X: print(s, net.predict_single_data(s))],
    with [y] the labels of the notebook and [learning_rate] at its default.
    What it returns here is the list of the numbers it prints.  The cell
    starts with [np.random.seed(41)]: the state of [np.random] it runs from
    is left open. *)
Definition train_and_print : M (list R) :=
  __init__ [2; 2; 1]%Z ;;;
  s <- get ;;
  fit (X s) notebook_y (1 / 10) 4000 ;;;
  s <- get ;;
  foldM (fun printed x => v <- predict_single_data x ;; ret (printed ++ [v]))
    (rows (X s)) [].

(** The modules of PyTorch as [print] shows them. *)
Inductive module_repr : Set :=
| ReprLinear (in_features out_features : Z)
| ReprTanh
| ReprSigmoid.

(** Sizes that every version of [nn.Linear] takes: positive ones. *)
Definition positive_sizes (i o : Z) : bool := ((0 <? i) && (0 <? o))%Z.

(** ** The monad *)

Lemma bind_Ok {A B} (m : M A) (k : A -> M B) s a s' :
  m s = (Ok a, s') -> bind m k s = k a s'.
Proof. intros H. unfold bind. now rewrite H. Qed.

Lemma bind_Raise {A B} (m : M A) (k : A -> M B) s e s' :
  m s = (Raise e, s') -> bind m k s = (Raise e, s').
Proof. intros H. unfold bind. now rewrite H. Qed.

Section Preserves.
Context (R : pystate -> pystate -> Prop) `{!PreOrder R}.

Local Lemma R_refl s : R s s.
Proof. reflexivity. Qed.

Local Lemma R_trans s1 s2 s3 : R s1 s2 -> R s2 s3 -> R s1 s3.
Proof. intros H1 H2. now transitivity s2. Qed.

Lemma preserves_ret {A} (a : A) : preserves R (ret a).
Proof. intros s. apply R_refl. Qed.

Lemma preserves_raise {A} e : preserves R (@raise A e).
Proof. intros s. apply R_refl. Qed.

Lemma preserves_lift {A} (r : result A) : preserves R (lift r).
Proof. intros s. apply R_refl. Qed.

Lemma preserves_get : preserves R get.
Proof. intros s. apply R_refl. Qed.

Lemma preserves_modify f : (forall s, R s (f s)) -> preserves R (modify f).
Proof. intros H s. apply H. Qed.

Lemma preserves_bind {A B} (m : M A) (k : A -> M B) :
  preserves R m -> (forall a, preserves R (k a)) -> preserves R (bind m k).
Proof.
  intros Hm Hk s. unfold bind. specialize (Hm s).
  destruct (m s) as [[a|e] s1]; simpl in *.
  - eapply R_trans; [exact Hm|]. apply Hk.
  - exact Hm.
Qed.

Lemma preserves_foldM {A B} (f : B -> A -> M B) l b :
  (forall b x, preserves R (f b x)) -> preserves R (foldM f l b).
Proof.
  intros Hf. revert b. induction l as [|x l IH]; intros b; simpl.
  - apply preserves_ret.
  - apply preserves_bind; [apply Hf|]. intros b'. apply IH.
Qed.

Lemma preserves_for_each {A} (l : list A) body :
  (forall x, preserves R (body x)) -> preserves R (for_each l body).
Proof. intros H. apply preserves_foldM. intros _ x. apply H. Qed.

Lemma preserves_len_weights : preserves R len_weights.
Proof. intros s. apply R_refl. Qed.

Lemma preserves_weights_get i : preserves R (weights_get i).
Proof. intros s. unfold weights_get, bind, get. destruct (weights s !! i); apply R_refl. Qed.

Lemma preserves_weights_last : preserves R weights_last.
Proof. intros s. unfold weights_last, bind, get. destruct (last (weights s)); apply R_refl. Qed.

Lemma preserves_arch_get i : preserves R (arch_get i).
Proof. intros s. unfold arch_get, bind, get. destruct (arch s !! i); apply R_refl. Qed.

Lemma preserves_arch_last : preserves R arch_last.
Proof. intros s. unfold arch_last, bind, get. destruct (last (arch s)); apply R_refl. Qed.

Lemma preserves_list_get y i : preserves R (list_get y i).
Proof. intros s. unfold list_get, bind, get. destruct (lists s y !! i); apply R_refl. Qed.

Lemma preserves_list_last y : preserves R (list_last y).
Proof. intros s. unfold list_last, bind, get. destruct (last (lists s y)); apply R_refl. Qed.
End Preserves.

(** ** The shapes of the weight matrices *)

#[local] Instance same_shapes_preorder : PreOrder same_shapes.
Proof.
  split.
  - intros s. now repeat split.
  - intros s1 s2 s3 (Hl1 & Ha1 & Hs1 & Hw1) (Hl2 & Ha2 & Hs2 & Hw2).
    repeat split; try congruence. tauto.
Qed.

Lemma iadd_shape w m w' :
  iadd w m = Ok w' -> shape w' = shape w /\ (wf w -> wf w').
Proof.
  unfold iadd. destruct (_ && _); [|discriminate].
  intros [= <-]. split; [reflexivity|].
  intros [Hlen Hrows]. split; simpl.
  - now rewrite length_imap.
  - apply Forall_lookup. intros i r Hi.
    rewrite list_lookup_imap in Hi.
    apply fmap_Some in Hi as (r0 & Er & ->). rewrite length_imap.
    rewrite Forall_lookup in Hrows. eapply Hrows; eauto.
Qed.

Lemma same_shapes_insert s i w w' :
  weights s !! i = Some w -> shape w' = shape w -> (wf w -> wf w') ->
  same_shapes s (set_weights (<[i := w']> (weights s)) s).
Proof.
  intros Hi Hs Hw. repeat split; simpl.
  - change (shape <$> <[i := w']> (weights s) = shape <$> weights s).
    rewrite list_fmap_insert, Hs. apply list_insert_id.
    now rewrite list_lookup_fmap, Hi.
  - intros Hall. apply Forall_insert; [assumption|].
    apply Hw. rewrite Forall_lookup in Hall. eapply Hall; eauto.
Qed.

Lemma weights_iadd_shapes i m : preserves same_shapes (weights_iadd i m).
Proof.
  intros s. unfold weights_iadd, bind, get, lift, modify.
  destruct (weights s !! i) as [w|] eqn:Hi; [|reflexivity].
  destruct (iadd w m) as [w'|e] eqn:Hw; [|reflexivity].
  simpl. apply iadd_shape in Hw as [Hs Hwf].
  eapply same_shapes_insert; eauto.
Qed.

Lemma same_shapes_frame s s' :
  layers s' = layers s -> arch s' = arch s -> weights s' = weights s ->
  same_shapes s s'.
Proof.
  intros Hl Ha Hw. repeat split; try assumption; now rewrite Hw.
Qed.

Lemma list_append_shapes y v : preserves same_shapes (list_append y v).
Proof. intros s. now apply same_shapes_frame. Qed.

Lemma list_new_shapes v : preserves same_shapes (list_new v).
Proof. intros s. now apply same_shapes_frame. Qed.

Lemma random_randint_shapes n : preserves same_shapes (random_randint n).
Proof.
  intros s. unfold random_randint. destruct (randint n (rng s)).
  now apply same_shapes_frame.
Qed.

Lemma counted_shapes {A} c (m : M A) :
  preserves same_shapes m -> preserves same_shapes (counted c m).
Proof.
  intros H. unfold counted. apply preserves_bind; [typeclasses eauto|exact H|].
  intros a. apply preserves_bind; [typeclasses eauto| |intros; apply preserves_ret; typeclasses eauto].
  apply preserves_modify. intros s. now apply same_shapes_frame.
Qed.

(** One step of any of the proofs below that a method keeps a relation. *)
Ltac preserves_step :=
  first
    [ apply preserves_ret; typeclasses eauto
    | apply preserves_lift; typeclasses eauto
    | apply preserves_get; typeclasses eauto
    | apply preserves_len_weights; typeclasses eauto
    | apply preserves_weights_get; typeclasses eauto
    | apply preserves_weights_last; typeclasses eauto
    | apply preserves_arch_get; typeclasses eauto
    | apply preserves_arch_last; typeclasses eauto
    | apply preserves_list_get; typeclasses eauto
    | apply preserves_list_last; typeclasses eauto
    | apply preserves_bind; [typeclasses eauto | | intros ?]
    | apply preserves_foldM; [typeclasses eauto | intros ? ?]
    | apply preserves_for_each; [typeclasses eauto | intros ?] ].

Lemma forward_prop_shapes x : preserves same_shapes (_forward_prop x).
Proof.
  unfold _forward_prop.
  repeat first [apply list_append_shapes | preserves_step].
Qed.

Lemma back_prop_shapes y target lr : preserves same_shapes (_back_prop y target lr).
Proof.
  unfold _back_prop.
  repeat first [apply weights_iadd_shapes | preserves_step].
Qed.

Lemma fit_shapes data labels lr epochs : preserves same_shapes (fit data labels lr epochs).
Proof.
  unfold fit.
  repeat first
    [ apply random_randint_shapes | apply list_new_shapes
    | apply counted_shapes; [apply forward_prop_shapes || apply back_prop_shapes]
    | preserves_step ].
Qed.

Lemma predict_single_data_shapes x : preserves same_shapes (predict_single_data x).
Proof. unfold predict_single_data. repeat preserves_step. Qed.

Lemma predict_shapes Xs : preserves same_shapes (predict Xs).
Proof.
  unfold predict. repeat first [apply predict_single_data_shapes | preserves_step].
Qed.

(** ** Loops *)

(** The rule for a loop: [I k] holds of the local variables and the state
    before iteration [k], [E] of the state an iteration leaves when it
    raises. *)
Lemma foldM_rule {A B} (f : B -> A -> M B) (l : list A)
    (I : nat -> B -> pystate -> Prop) (E : exn -> pystate -> Prop) b s :
  I 0%nat b s ->
  (forall k x b s, l !! k = Some x -> I k b s ->
     match f b x s with
     | (Ok b', s') => I (S k) b' s'
     | (Raise e, s') => E e s'
     end) ->
  match foldM f l b s with
  | (Ok b', s') => I (length l) b' s'
  | (Raise e, s') => E e s'
  end.
Proof.
  revert I b s. induction l as [|x l IH]; intros I b s H0 Hstep; simpl.
  - exact H0.
  - unfold bind. specialize (Hstep 0%nat x b s eq_refl H0) as H1.
    destruct (f b x s) as [[b'|e] s1]; [|exact H1].
    apply (IH (fun k => I (S k))); [exact H1|].
    intros k x' b0 s0 Hk. apply (Hstep (S k)). exact Hk.
Qed.

Lemma range_lookup n k x : range n !! k = Some x -> x = k /\ (k < n)%nat.
Proof. unfold range. intros H. apply lookup_seq in H. lia. Qed.

Lemma range_length n : length (range n) = n.
Proof. apply length_seq. Qed.

(** ** The constructor *)

Lemma rand_spec d0 d1 g :
  match rand d0 d1 g with
  | (Ok u, g') =>
      (0 <= d0)%Z /\ (0 <= d1)%Z /\ wf u /\
      nrows u = Z.to_nat d0 /\ ncols u = Z.to_nat d1 /\
      uniform g' = uniform g /\
      Forall (Forall (fun e => exists k, e = uniform g k)) (rows u)
  | (Raise e, g') => e = ValueError /\ ((d0 < 0)%Z \/ (d1 < 0)%Z) /\ g' = g
  end.
Proof.
  unfold rand. destruct (_ || _)%Z eqn:Hneg.
  - apply orb_true_iff in Hneg. rewrite !Z.ltb_lt in Hneg. auto.
  - apply orb_false_iff in Hneg. rewrite !Z.ltb_ge in Hneg.
    destruct Hneg as [H0 H1]. repeat split; simpl; try assumption.
    + now rewrite length_map, length_seq.
    + apply List.Forall_map, Forall_forall. intros i _.
      now rewrite length_map, length_seq.
    + apply List.Forall_map, Forall_forall. intros i _.
      apply List.Forall_map, Forall_forall. intros j _. eauto.
Qed.

Lemma affine_wf u : wf u -> wf (affine u).
Proof.
  intros [Hl Hr]. split; simpl.
  - now rewrite length_map.
  - apply List.Forall_map. eapply Forall_impl; [exact Hr|].
    intros r Hlen. simpl. now rewrite length_map.
Qed.

Lemma affine_entries (P : R -> Prop) u :
  Forall (Forall (fun e => P (2 * e - 1))) (rows u) -> entries_in P (affine u).
Proof.
  unfold entries_in. simpl. intros H.
  apply List.Forall_map. eapply Forall_impl; [exact H|].
  intros r Hr. simpl. now apply List.Forall_map.
Qed.

(** The constructor checks nothing itself: it returns unless
    [np.random.rand] is handed a negative dimension. *)
Lemma init_spec net_arch s0 :
  match __init__ net_arch s0 with
  | (Ok _, s) => constructed net_arch s0 s
  | (Raise e, s) => e = ValueError /\ negative_dimension net_arch
  end.
Proof.
  unfold __init__, bind, modify, get. simpl.
  set (s1 := set_weights [] (set_arch net_arch (set_layers (length net_arch) s0))).
  unfold for_each.
  pose (I := fun (k : nat) (_ : unit) (s : pystate) =>
    layers s = length net_arch /\ arch s = net_arch /\
    length (weights s) = k /\
    (forall i w, weights s !! i = Some w -> boundary_ok net_arch i w) /\
    uniform (rng s) = uniform (rng s0) /\
    ((forall k, 0 <= uniform (rng s0) k < 1) ->
     Forall (entries_in (fun e => -1 <= e < 1)) (weights s))).
  pose (E := fun (e : exn) (_ : pystate) =>
    e = ValueError /\ negative_dimension net_arch).
  pose proof (foldM_rule
    (fun (_ : unit) layer =>
       a0 <- lift (match net_arch !! layer with Some a => Ok a | None => Raise IndexError end) ;;
       a1 <- lift (match net_arch !! (layer + 1)%nat with Some a => Ok a | None => Raise IndexError end) ;;
       u <- random_rand (a0 + 1) a1 ;;
       weights_append (affine u))
    (range (length net_arch - 1)) I E tt s1) as Hrule.
  match type of Hrule with ?P -> ?Q -> _ => assert (H0 : P); [|assert (Hstep : Q)] end.
  - unfold I. simpl. repeat split; try constructor. intros i w Hi. discriminate.
  - intros k layer [] s Hk (Hl & Ha & Hlen & Hws & Hu & Hent).
    apply range_lookup in Hk as [-> Hk].
    destruct (lookup_lt_is_Some_2 net_arch k) as [a0 Ha0]; [lia|].
    destruct (lookup_lt_is_Some_2 net_arch (k + 1)) as [a1 Ha1]; [lia|].
    unfold bind, lift. rewrite Ha0, Ha1. unfold random_rand.
    pose proof (rand_spec (a0 + 1) a1 (rng s)) as Hr.
    destruct (rand (a0 + 1) a1 (rng s)) as [[u|e] g'].
    + destruct Hr as (Hd0 & Hd1 & Hwf & Hnr & Hnc & Hug & Hue).
      unfold weights_append, modify, I. simpl.
      repeat split; try assumption.
      * rewrite length_app. simpl. lia.
      * intros i w Hi. apply lookup_app_Some in Hi as [Hi|[Hge Hi]].
        { now apply Hws. }
        rewrite Hlen in *. destruct (i - k)%nat eqn:Ei; [|discriminate].
        injection Hi as <-. assert (i = k) as -> by lia.
        exists a0, a1. replace (S k) with (k + 1)%nat by lia.
        repeat split; try assumption.
        { now apply affine_wf. }
        { simpl. now apply affine_wf. }
        { simpl. rewrite Hnr. lia. }
        { simpl. rewrite Hnc. lia. }
      * congruence.
      * intros Hvalid. apply Forall_app. split; [now apply Hent|].
        constructor; [|constructor]. apply affine_entries.
        eapply Forall_impl; [exact Hue|]. intros r Hr. simpl in Hr.
        eapply Forall_impl; [exact Hr|]. intros e [j ->]. simpl.
        rewrite Hu. specialize (Hvalid j). lra.
    + destruct Hr as (-> & Hneg & _). unfold E. split; [reflexivity|].
      exists k, a0, a1. replace (S k) with (k + 1)%nat by lia.
      split; [assumption|]. split; [assumption|]. lia.
  - specialize (Hrule H0 Hstep).
    destruct (foldM _ _ tt s1) as [[[]|e] s]; [|exact Hrule].
    destruct Hrule as (Hl & Ha & Hlen & Hws & Hu & Hent).
    rewrite range_length in Hlen.
    repeat split; try assumption.
    + rewrite Ha. exact Hlen.
    + rewrite Ha. exact Hws.
Qed.

(** A network the constructor returned had no negative dimension. *)
Lemma constructed_dimensions net_arch s0 s :
  constructed net_arch s0 s -> ~ negative_dimension net_arch.
Proof.
  intros (_ & Ha & [Hlen Hws] & _) (i & a0 & a1 & H0 & H1 & Hneg).
  rewrite Ha in *.
  destruct (lookup_lt_is_Some_2 (weights s) i) as [w Hw].
  { apply lookup_lt_Some in H1. lia. }
  destruct (Hws i w Hw) as (b0 & b1 & Hb0 & Hb1 & _ & Hr & Hc).
  assert (b0 = a0) as -> by congruence. assert (b1 = a1) as -> by congruence. lia.
Qed.

Lemma negative_dimension_negative net_arch :
  negative_dimension net_arch ->
  (2 <= length net_arch)%nat /\ Exists (fun a => (a < 0)%Z) net_arch.
Proof.
  intros (i & a0 & a1 & H0 & H1 & Hneg). split.
  - apply lookup_lt_Some in H1. lia.
  - apply Exists_exists. destruct Hneg as [Hneg|Hneg].
    + exists a0. split; [|lia]. apply list_elem_of_lookup. eauto.
    + exists a1. split; [|lia]. apply list_elem_of_lookup. eauto.
Qed.

Lemma shape_invariant_same_shapes s s' :
  shape_invariant s -> same_shapes s s' -> shape_invariant s'.
Proof.
  intros [Hlen Hws] (Hl & Ha & Hsh & Hwf).
  assert (Hlen' : length (weights s') = length (weights s)).
  { rewrite <- (length_map shape (weights s')), Hsh. apply length_map. }
  assert (Hall : Forall wf (weights s)).
  { apply Forall_lookup. intros i w Hi. destruct (Hws i w Hi) as (? & ? & ? & ? & ? & _).
    assumption. }
  specialize (Hwf Hall). split.
  - rewrite Ha. congruence.
  - intros i w' Hi'. rewrite Ha.
    destruct (lookup_lt_is_Some_2 (weights s) i) as [w Hi].
    { rewrite <- Hlen'. eapply lookup_lt_Some; eauto. }
    destruct (Hws i w Hi) as (a0 & a1 & H0 & H1 & _ & Hr & Hc).
    assert (Hs : shape w' = shape w).
    { assert (H : map shape (weights s') !! i = map shape (weights s) !! i) by now rewrite Hsh.
      change (map shape (weights s')) with (shape <$> weights s') in H.
      change (map shape (weights s)) with (shape <$> weights s) in H.
      rewrite !list_lookup_fmap, Hi, Hi' in H. simpl in H. congruence. }
    injection Hs as Hr' Hc'.
    exists a0, a1. repeat split; try assumption; try congruence.
    + rewrite Forall_lookup in Hwf. eapply Hwf; eauto.
    + rewrite Forall_lookup in Hwf. eapply Hwf; eauto.
Qed.

(** C2 (as amended).  The constructor validates nothing and has no
    [InvalidArchitecture] to raise.  It raises, NumPy's [ValueError], exactly
    when some layer boundary hands [np.random.rand] a negative dimension,
    which takes at least two layers and a negative size; otherwise, and so
    for fewer than two layers and for sizes that are zero, it returns, and a
    network with [len - 1] matrices is produced. *)
Theorem init_validates_nothing (net_arch : list Z) (s0 : pystate) :
  (negative_dimension net_arch -> (__init__ net_arch s0).1 = Raise ValueError) /\
  (~ negative_dimension net_arch ->
   (__init__ net_arch s0).1 = Ok tt /\
   length (weights (__init__ net_arch s0).2) = (length net_arch - 1)%nat) /\
  ((length net_arch < 2)%nat \/ Forall (fun a => (0 <= a)%Z) net_arch ->
   ~ negative_dimension net_arch).
Proof.
  pose proof (init_spec net_arch s0) as H.
  split; [|split].
  - intros Hneg. destruct (__init__ net_arch s0) as [[[]|e] s]; simpl.
    + exfalso. now apply (constructed_dimensions _ _ _ H).
    + now destruct H as [-> _].
  - intros Hgood. destruct (__init__ net_arch s0) as [[[]|e] s]; simpl.
    + split; [reflexivity|]. destruct H as (_ & Ha & [Hlen _] & _).
      now rewrite Ha in Hlen.
    + exfalso. now destruct H as [_ Hneg].
  - intros Hgood Hneg.
    apply negative_dimension_negative in Hneg as [Hlen Hneg].
    destruct Hgood as [Hlt|Hpos]; [lia|].
    apply Exists_exists in Hneg as (a & Hin & Ha).
    rewrite Forall_forall in Hpos. specialize (Hpos a Hin). lia.
Qed.

Lemma init_validates_nothing_witness :
  ((__init__ [3; 0; 2]%Z (fresh (constant_generator (1 / 2)))).1 = Ok tt /\
   length (weights (__init__ [3; 0; 2]%Z (fresh (constant_generator (1 / 2)))).2) = 2%nat) /\
  (__init__ [2; -1]%Z (fresh (constant_generator (1 / 2)))).1 = Raise ValueError.
Proof.
  split.
  - destruct (init_validates_nothing [3; 0; 2]%Z (fresh (constant_generator (1 / 2))))
      as (_ & Hok & Hgood).
    apply Hok, Hgood. right. repeat constructor; lia.
  - destruct (init_validates_nothing [2; -1]%Z (fresh (constant_generator (1 / 2))))
      as (Hraise & _).
    apply Hraise. exists 0%nat, 2%Z, (-1)%Z. repeat split; try reflexivity. right. lia.
Defined.

(** C2, the claim as the specification words it, fails: the architectures
    [[5]] and [[3, 0, 2]] raise nothing and a network is produced, with no
    matrix for the first and matrices of shapes (4, 0) and (1, 2) for the
    second. *)
Lemma init_accepts_invalid_architectures :
  (__init__ [5]%Z (fresh (constant_generator (1 / 2)))).1 = Ok tt /\
  weights (__init__ [5]%Z (fresh (constant_generator (1 / 2)))).2 = [] /\
  (__init__ [3; 0; 2]%Z (fresh (constant_generator (1 / 2)))).1 = Ok tt /\
  map shape (weights (__init__ [3; 0; 2]%Z (fresh (constant_generator (1 / 2)))).2)
    = [(4, 0); (1, 2)]%nat.
Proof. repeat split; reflexivity. Qed.

(** C6 (as amended).  For an architecture of at least two layers, all
    sizes positive, and a generator that keeps NumPy's contract, the
    constructor returns, there is one matrix per layer boundary, matrix
    [i] has shape [(a_i + 1, a_(i+1))] and every entry lies in the
    half-open interval [[-1, 1)]. *)
Theorem init_weights (net_arch : list Z) (s0 : pystate) :
  (2 <= length net_arch)%nat ->
  Forall (fun a => (0 < a)%Z) net_arch ->
  (forall k, 0 <= uniform (rng s0) k < 1) ->
  (__init__ net_arch s0).1 = Ok tt /\
  length (weights (__init__ net_arch s0).2) = (length net_arch - 1)%nat /\
  forall i w, weights (__init__ net_arch s0).2 !! i = Some w ->
    exists a0 a1, net_arch !! i = Some a0 /\ net_arch !! S i = Some a1 /\
      wf w /\ Z.of_nat (nrows w) = (a0 + 1)%Z /\ Z.of_nat (ncols w) = a1 /\
      entries_in (fun e => -1 <= e < 1) w.
Proof.
  intros Hlen Hpos Hvalid.
  pose proof (init_spec net_arch s0) as H.
  destruct (__init__ net_arch s0) as [[[]|e] s]; simpl in *.
  2:{ exfalso. destruct H as (_ & Hneg).
      apply negative_dimension_negative in Hneg as [_ Hneg].
      apply Exists_exists in Hneg as (a & Hin & Ha).
      rewrite Forall_forall in Hpos. specialize (Hpos a Hin). lia. }
  destruct H as (_ & Ha & [Hn Hws] & Hent). rewrite Ha in Hn.
  repeat split; try assumption.
  intros i w Hi. destruct (Hws i w Hi) as (a0 & a1 & H0 & H1 & Hwf & Hr & Hc).
  rewrite Ha in H0, H1. exists a0, a1. repeat split; try assumption; try lia.
  - apply Hwf.
  - apply Hwf.
  - specialize (Hent Hvalid). rewrite Forall_lookup in Hent. eapply Hent; eauto.
Qed.

Lemma init_weights_witness :
  (__init__ [2; 2; 1]%Z (fresh (constant_generator (1 / 2)))).1 = Ok tt /\
  length (weights (__init__ [2; 2; 1]%Z (fresh (constant_generator (1 / 2)))).2) = 2%nat /\
  forall i w,
    weights (__init__ [2; 2; 1]%Z (fresh (constant_generator (1 / 2)))).2 !! i = Some w ->
    exists a0 a1, [2; 2; 1]%Z !! i = Some a0 /\ [2; 2; 1]%Z !! S i = Some a1 /\
      wf w /\ Z.of_nat (nrows w) = (a0 + 1)%Z /\ Z.of_nat (ncols w) = a1 /\
      entries_in (fun e => -1 <= e < 1) w.
Proof.
  apply (init_weights [2; 2; 1]%Z (fresh (constant_generator (1 / 2)))).
  - simpl. lia.
  - repeat constructor.
  - intros k. simpl. lra.
Defined.

(** C6, the claim as the specification words it, fails: [np.random.rand]
    samples [[0, 1)], and on the sample 0 the weight [2*0 - 1] is -1, which
    is not strictly inside (-1, 1). *)
Lemma init_weight_on_the_bound :
  valid_generator (constant_generator 0) /\
  exists w,
    weights (__init__ [1; 1]%Z (fresh (constant_generator 0))).2 !! 0%nat = Some w /\
    entry w 0 0 = -1 /\
    ~ entries_in (fun e => -1 < e < 1) w.
Proof.
  split.
  - split.
    + intros k. simpl. lra.
    + intros k n Hn. simpl. lia.
  - eexists. split; [reflexivity|]. split.
    + unfold entry. simpl. lra.
    + unfold entries_in. simpl. intros H.
      apply Forall_cons in H as [H _]. apply Forall_cons in H as [H _]. lra.
Qed.

(** C7.  The constructor establishes the shape invariant for the
    architecture it is given: it returns unless [np.random.rand] is handed
    a negative dimension, and then [self.arch] is [net_arch], there is one
    matrix per layer boundary of [net_arch] and matrix [i] has
    [1 + net_arch[i]] rows and [net_arch[i + 1]] columns.  Every method
    keeps the invariant, whether the method returns or raises, and
    [_back_prop] and [fit] leave [self.arch] as it was; the in-place update
    of [_back_prop] leaves every shape as it was, in any state. *)
Theorem shape_invariant_kept :
  (forall net_arch s0,
     (~ negative_dimension net_arch -> (__init__ net_arch s0).1 = Ok tt) /\
     ((__init__ net_arch s0).1 = Ok tt ->
      layers (__init__ net_arch s0).2 = length net_arch /\
      arch (__init__ net_arch s0).2 = net_arch /\
      length (weights (__init__ net_arch s0).2) = (length net_arch - 1)%nat /\
      (forall i w, weights (__init__ net_arch s0).2 !! i = Some w ->
         exists a0 a1, net_arch !! i = Some a0 /\ net_arch !! S i = Some a1 /\
           wf w /\ Z.of_nat (nrows w) = (1 + a0)%Z /\ Z.of_nat (ncols w) = a1) /\
      shape_invariant (__init__ net_arch s0).2)) /\
  (forall s y target lr,
     map shape (weights (_back_prop y target lr s).2) = map shape (weights s)) /\
  (forall s y target lr,
     shape_invariant s -> shape_invariant (_back_prop y target lr s).2) /\
  (forall s data labels lr epochs,
     shape_invariant s -> shape_invariant (fit data labels lr epochs s).2) /\
  (forall s x, shape_invariant s -> shape_invariant (_forward_prop x s).2) /\
  (forall s x, shape_invariant s -> shape_invariant (predict_single_data x s).2) /\
  (forall s Xs, shape_invariant s -> shape_invariant (predict Xs s).2) /\
  (forall s y target lr, arch (_back_prop y target lr s).2 = arch s) /\
  (forall s data labels lr epochs, arch (fit data labels lr epochs s).2 = arch s).
Proof.
  refine (conj _ (conj _ (conj _ (conj _ (conj _ (conj _ (conj _ (conj _ _)))))))).
  - intros net_arch s0. pose proof (init_spec net_arch s0) as H.
    destruct (__init__ net_arch s0) as [[[]|e] s]; simpl in *.
    + split; [reflexivity|]. intros _.
      destruct H as (Hl & Ha & Hinv & _).
      split; [exact Hl|]. split; [exact Ha|].
      destruct Hinv as [Hlen Hws]. rewrite Ha in Hlen, Hws.
      split; [exact Hlen|]. split; [exact Hws|].
      split; rewrite Ha; assumption.
    + split; [|discriminate]. intros Hneg. destruct H as [_ H]. contradiction.
  - intros s y target lr. apply (back_prop_shapes y target lr s).
  - intros s y target lr H. eapply shape_invariant_same_shapes; [exact H|].
    apply back_prop_shapes.
  - intros s data labels lr epochs H. eapply shape_invariant_same_shapes; [exact H|].
    apply fit_shapes.
  - intros s x H. eapply shape_invariant_same_shapes; [exact H|].
    apply forward_prop_shapes.
  - intros s x H. eapply shape_invariant_same_shapes; [exact H|].
    apply predict_single_data_shapes.
  - intros s Xs H. eapply shape_invariant_same_shapes; [exact H|].
    apply predict_shapes.
  - intros s y target lr. apply (back_prop_shapes y target lr s).
  - intros s data labels lr epochs. apply (fit_shapes data labels lr epochs s).
Qed.

(** The notebook's network: what the constructor leaves for [[2, 2, 1]],
    then three iterations of [fit], then [_back_prop] on the trace the
    first iteration left at reference 0. *)
Lemma shape_invariant_kept_witness :
  (__init__ [2; 2; 1]%Z (fresh (constant_generator (1 / 2)))).1 = Ok tt /\
  arch xor_network = [2; 2; 1]%Z /\
  length (weights xor_network) = 2%nat /\
  (forall i w, weights xor_network !! i = Some w ->
     exists a0 a1, [2; 2; 1]%Z !! i = Some a0 /\ [2; 2; 1]%Z !! S i = Some a1 /\
       wf w /\ Z.of_nat (nrows w) = (1 + a0)%Z /\ Z.of_nat (ncols w) = a1) /\
  shape_invariant xor_network /\
  shape_invariant (fit notebook_X notebook_y (1 / 10) 3 xor_network).2 /\
  shape_invariant
    (_back_prop 0%nat (Scalar 1) (1 / 10)
       (fit notebook_X notebook_y (1 / 10) 3 xor_network).2).2 /\
  arch (fit notebook_X notebook_y (1 / 10) 3 xor_network).2 = [2; 2; 1]%Z.
Proof.
  destruct shape_invariant_kept as (Hinit & _ & Hback & Hfit & _ & _ & _ & _ & Harch).
  destruct (Hinit [2; 2; 1]%Z (fresh (constant_generator (1 / 2)))) as [Hret Hest].
  assert (Hok : (__init__ [2; 2; 1]%Z (fresh (constant_generator (1 / 2)))).1 = Ok tt).
  { apply Hret. intros (i & a0 & a1 & H0 & H1 & Hneg).
    destruct i as [|[|[|i]]]; simpl in H0, H1; try discriminate;
      injection H0 as <-; injection H1 as <-; lia. }
  destruct (Hest Hok) as (_ & Ha & Hlen & Hws & H).
  split; [exact Hok|]. split; [exact Ha|]. split; [exact Hlen|]. split; [exact Hws|].
  split; [exact H|]. split; [apply Hfit; exact H|].
  split; [apply Hback, Hfit; exact H|].
  rewrite Harch. exact Ha.
Defined.

(** ** Forward propagation *)

#[local] Instance only_list_preorder x : PreOrder (only_list x).
Proof.
  split.
  - intros s. unfold only_list. tauto.
  - intros s1 s2 s3 H1 H2. unfold only_list in *.
    destruct H1 as (? & ? & ? & ? & ? & ? & ? & L1).
    destruct H2 as (? & ? & ? & ? & ? & ? & ? & L2).
    repeat split; try congruence.
    intros l Hl. rewrite L2, L1; auto.
Qed.

Lemma list_append_only_list x v : preserves (only_list x) (list_append x v).
Proof.
  intros s. unfold list_append, modify, only_list. simpl.
  repeat split. intros l Hl. apply Nat.eqb_neq in Hl. now rewrite Hl.
Qed.

Lemma forward_prop_only_list x : preserves (only_list x) (_forward_prop x).
Proof.
  unfold _forward_prop.
  repeat first [apply list_append_only_list | preserves_step].
Qed.

Section Respects.
Context (R : pystate -> pystate -> Prop).

Lemma respects_ret {A} (a : A) : respects R (ret a).
Proof. intros s1 s2 H. now split. Qed.

Lemma respects_lift {A} (r : result A) : respects R (lift r).
Proof. intros s1 s2 H. now split. Qed.

Lemma respects_bind {A B} (m : M A) (k : A -> M B) :
  respects R m -> (forall a, respects R (k a)) -> respects R (bind m k).
Proof.
  intros Hm Hk s1 s2 H. unfold bind. specialize (Hm s1 s2 H).
  destruct (m s1) as [[a1|e1] t1], (m s2) as [[a2|e2] t2]; simpl in Hm;
    destruct Hm as [E Ht]; try discriminate.
  - injection E as <-. now apply Hk.
  - injection E as <-. now split.
Qed.

Lemma respects_foldM {A B} (f : B -> A -> M B) l b :
  (forall b x, respects R (f b x)) -> respects R (foldM f l b).
Proof.
  intros Hf. revert b. induction l as [|x l IH]; intros b; simpl.
  - apply respects_ret.
  - apply respects_bind; [apply Hf|]. intros b'. apply IH.
Qed.

(** Reading something on which related states agree. *)
Lemma respects_read {A B} (g : pystate -> A) (k : A -> M B) :
  (forall s1 s2, R s1 s2 -> g s1 = g s2) ->
  (forall a, respects R (k a)) ->
  respects R (s <- get ;; k (g s)).
Proof.
  intros Hg Hk s1 s2 H. unfold bind, get. rewrite (Hg s1 s2 H). now apply Hk.
Qed.
End Respects.

Lemma respects_option {A} R (o : option A) : respects R
  (match o with Some a => ret a | None => raise IndexError end).
Proof. intros s1 s2 H. destruct o; now split. Qed.

Lemma list_append_respects x v : respects (same_input x) (list_append x v).
Proof.
  intros s1 s2 [Hw Hl]. split; [reflexivity|]. split; simpl.
  - exact Hw.
  - rewrite Nat.eqb_refl. now rewrite Hl.
Qed.

(** Determinism: what [_forward_prop x] returns and what it leaves in the
    list [x] depend on the weights and on the contents of [x] only. *)
Lemma forward_prop_respects x : respects (same_input x) (_forward_prop x).
Proof.
  unfold _forward_prop, len_weights, weights_get, weights_last, list_get, list_last.
  repeat first
    [ apply list_append_respects
    | apply respects_ret
    | apply respects_lift
    | apply respects_option
    | apply (respects_read _ (fun s => length (weights s)) (fun n => ret n));
        [intros s1 s2 [-> _]; reflexivity | intros ?]
    | apply (respects_read _ (fun s => weights s !! _)
               (fun o => match o with Some a => ret a | None => raise IndexError end));
        [intros s1 s2 [-> _]; reflexivity | intros ?]
    | apply (respects_read _ (fun s => last (weights s))
               (fun o => match o with Some a => ret a | None => raise IndexError end));
        [intros s1 s2 [-> _]; reflexivity | intros ?]
    | apply (respects_read _ (fun s => lists s x !! _)
               (fun o => match o with Some a => ret a | None => raise IndexError end));
        [intros s1 s2 [_ ->]; reflexivity | intros ?]
    | apply (respects_read _ (fun s => last (lists s x))
               (fun o => match o with Some a => ret a | None => raise IndexError end));
        [intros s1 s2 [_ ->]; reflexivity | intros ?]
    | apply respects_bind; [|intros ?]
    | apply respects_foldM; intros ? ? ].
Qed.

Lemma run_weights_get i s w :
  weights s !! i = Some w -> weights_get i s = (Ok w, s).
Proof. intros H. unfold weights_get, bind, get. now rewrite H. Qed.

Lemma run_weights_last s w :
  last (weights s) = Some w -> weights_last s = (Ok w, s).
Proof. intros H. unfold weights_last, bind, get. now rewrite H. Qed.

Lemma run_arch_get i s a :
  arch s !! i = Some a -> arch_get i s = (Ok a, s).
Proof. intros H. unfold arch_get, bind, get. now rewrite H. Qed.

Lemma run_list_get y i s v :
  lists s y !! i = Some v -> list_get y i s = (Ok v, s).
Proof. intros H. unfold list_get, bind, get. now rewrite H. Qed.

Lemma run_list_last y s v :
  last (lists s y) = Some v -> list_last y s = (Ok v, s).
Proof. intros H. unfold list_last, bind, get. now rewrite H. Qed.

Lemma run_lift {A} (r : result A) a s : r = Ok a -> lift r s = (Ok a, s).
Proof. now intros ->. Qed.

(** Run the program in the goal, leaving the real numbers as they are. *)
Ltac run :=
  cbv -[Rplus Rminus Rmult Rdiv Rinv Ropp IZR pow
        Rtrigo_def.tanh Rtrigo_def.cosh Rtrigo_def.sinh].

Ltac run_in H :=
  cbv -[Rplus Rminus Rmult Rdiv Rinv Ropp IZR pow
        Rtrigo_def.tanh Rtrigo_def.cosh Rtrigo_def.sinh] in H.

(** Unfold the operations of the monad in the goal. *)
Ltac munfold :=
  unfold for_each, counted, len_weights, weights_get, weights_last, weights_append,
    weights_iadd, arch_get, arch_last, list_new, list_get, list_last, list_append,
    random_rand, random_randint;
  unfold bind, get, lift, modify, ret, raise;
  cbn beta iota.

(** [_forward_prop] appends to the list it is given: one array per weight
    matrix when it returns, and it returns that very list. *)
Lemma forward_prop_appends x s :
  match _forward_prop x s with
  | (Ok y, s') =>
      y = x /\ weights s <> [] /\
      exists new, lists s' x = lists s x ++ new /\ length new = length (weights s)
  | (Raise e, s') => exists new, lists s' x = lists s x ++ new
  end.
Proof.
  unfold _forward_prop. rewrite (bind_Ok len_weights _ s (length (weights s)) s eq_refl).
  unfold bind at 1.
  pose proof (foldM_rule
    (fun (_ : unit) i =>
       yi <- list_get x i ;; w <- weights_get i ;; activation <- lift (dot yi w) ;;
       list_append x (concatenate (ones 1) (activity activation)))
    (range (length (weights s) - 1))
    (fun k _ s' => weights s' = weights s /\
       exists new, lists s' x = lists s x ++ new /\ length new = k)
    (fun _ s' => exists new, lists s' x = lists s x ++ new) tt s) as Hloop.
  unfold for_each.
  match type of Hloop with ?P -> ?Q -> _ => assert (H0 : P); [|assert (Hstep : Q)] end.
  - split; [reflexivity|]. exists []. now rewrite app_nil_r.
  - intros k i [] s1 _ (Hw & new & Hnew & Hlen).
    munfold.
    destruct (lists s1 x !! i); [|eauto].
    destruct (weights s1 !! i); [|eauto].
    match goal with |- context [dot ?a ?b] => destruct (dot a b) end; [|eauto].
    simpl. rewrite Nat.eqb_refl. split; [assumption|].
    eexists. split; [rewrite Hnew, <- app_assoc; reflexivity|].
    rewrite length_app. simpl. lia.
  - specialize (Hloop H0 Hstep).
    destruct (foldM _ _ tt s) as [[[]|e] s1]; [|exact Hloop].
    destruct Hloop as (Hw & new & Hnew & Hlen). rewrite range_length in Hlen.
    munfold.
    destruct (last (lists s1 x)); [|eauto].
    destruct (last (weights s1)) eqn:Hlast; [|eauto].
    match goal with |- context [dot ?a ?b] => destruct (dot a b) end; [|eauto].
    simpl. rewrite Nat.eqb_refl. split; [reflexivity|]. split.
    + intros Hnil. rewrite Hw, Hnil in Hlast. discriminate.
    + eexists. split; [rewrite Hnew, <- app_assoc; reflexivity|].
      rewrite length_app. simpl. rewrite Hlen.
      assert (length (weights s) <> 0)%nat; [|lia].
      intros H. apply length_zero_iff_nil in H. rewrite Hw, H in Hlast. discriminate.
Qed.

(** C8 (as amended).  [_forward_prop] writes no attribute of [self], no
    global and no list but the one it is given, and what it returns and
    leaves in that list is a function of the weights and of the list's
    contents.  The list it is given is not left as it was: the arrays are
    appended to it in place, one per weight matrix by the time the call
    returns, and the value returned is that same list. *)
Theorem forward_prop_effects (x : loc) (s : pystate) :
  only_list x s (_forward_prop x s).2 /\
  (exists new, lists (_forward_prop x s).2 x = lists s x ++ new /\
     (forall y, (_forward_prop x s).1 = Ok y ->
        y = x /\ new <> [] /\ length new = length (weights s))) /\
  (forall s2, same_input x s s2 ->
     (_forward_prop x s).1 = (_forward_prop x s2).1 /\
     lists (_forward_prop x s).2 x = lists (_forward_prop x s2).2 x).
Proof.
  split; [apply forward_prop_only_list|]. split.
  - pose proof (forward_prop_appends x s) as H.
    destruct (_forward_prop x s) as [[y|e] s']; simpl.
    + destruct H as (-> & Hne & new & Hnew & Hlen). exists new. split; [assumption|].
      intros y [= <-]. repeat split; [|assumption].
      intros ->. simpl in Hlen. symmetry in Hlen.
      apply length_zero_iff_nil in Hlen. contradiction.
    + destruct H as (new & Hnew). exists new. split; [assumption|]. intros y [=].
  - intros s2 Hs. destruct (forward_prop_respects x s s2 Hs) as [E [_ L]]. now split.
Qed.

Lemma forward_prop_effects_witness :
  (_forward_prop 0%nat tiny_network).1
    = (_forward_prop 0%nat (set_calls [Forward] tiny_network)).1 /\
  lists (_forward_prop 0%nat tiny_network).2 0%nat
    = lists (_forward_prop 0%nat (set_calls [Forward] tiny_network)).2 0%nat.
Proof.
  apply (forward_prop_effects 0%nat tiny_network). split; reflexivity.
Defined.

(** C8, the claim as the specification words it, fails: [y = x] makes the
    trace the caller's own list, and after the call that list holds the
    activation of the output layer too. *)
Lemma forward_prop_changes_its_argument :
  (_forward_prop 0%nat tiny_network).1 = Ok 0%nat /\
  lists tiny_network 0%nat = [[1; 0]] /\
  length (lists (_forward_prop 0%nat tiny_network).2 0%nat) = 2%nat /\
  lists (_forward_prop 0%nat tiny_network).2 0%nat <> lists tiny_network 0%nat.
Proof.
  repeat split; try reflexivity.
  intros H. apply (f_equal (@length vec)) in H. discriminate H.
Qed.

(** *** The trace of a well-shaped network *)

Lemma net_ok_length sizes s :
  net_ok sizes s -> length (weights s) = (length sizes - 1)%nat.
Proof. intros (_ & Ha & [Hlen _]). now rewrite Hlen, Ha, length_map. Qed.

Lemma net_ok_weight sizes s i w :
  net_ok sizes s -> weights s !! i = Some w ->
  exists n0 n1, sizes !! i = Some n0 /\ sizes !! S i = Some n1 /\
    wf w /\ nrows w = S n0 /\ ncols w = n1.
Proof.
  intros (_ & Ha & [_ Hws]) Hi.
  destruct (Hws i w Hi) as (a0 & a1 & H0 & H1 & Hwf & Hr & Hc).
  rewrite Ha in H0, H1.
  change (map Z.of_nat sizes) with (Z.of_nat <$> sizes) in H0, H1.
  rewrite list_lookup_fmap in H0, H1.
  apply fmap_Some in H0 as (n0 & H0 & ->). apply fmap_Some in H1 as (n1 & H1 & ->).
  exists n0, n1. repeat split; try assumption; try apply Hwf; lia.
Qed.

Lemma net_ok_same_shapes sizes s s' :
  net_ok sizes s -> same_shapes s s' -> net_ok sizes s'.
Proof.
  intros (Hl & Ha & Hinv) Hs. pose proof Hs as (Hl' & Ha' & _).
  repeat split; try congruence; eapply shape_invariant_same_shapes; eauto.
Qed.

Lemma vecmat_length v m : length (vecmat v m) = ncols m.
Proof. unfold vecmat. now rewrite length_map, length_seq. Qed.

Lemma activations_length ws v : length (activations ws v) = length ws.
Proof.
  revert v. induction ws as [|w ws IH]; intros v; [reflexivity|].
  destruct ws as [|w' ws]; [reflexivity|].
  change (length (concatenate (ones 1) (activity (vecmat v w))
                    :: activations (w' :: ws) (concatenate (ones 1) (activity (vecmat v w))))
          = S (length (w' :: ws))).
  rewrite length_cons. now rewrite IH.
Qed.

Lemma activations_hidden ws v k w u :
  ws !! k = Some w -> (S k < length ws)%nat ->
  (v :: activations ws v) !! k = Some u ->
  activations ws v !! k = Some (concatenate (ones 1) (activity (vecmat u w))).
Proof.
  revert v k u. induction ws as [|w0 ws IH]; intros v k u Hw Hk Hu; [discriminate|].
  destruct ws as [|w1 ws]; [simpl in Hk; lia|].
  change (activations (w0 :: w1 :: ws) v)
    with (concatenate (ones 1) (activity (vecmat v w0))
            :: activations (w1 :: ws) (concatenate (ones 1) (activity (vecmat v w0)))) in *.
  destruct k as [|k].
  - simpl in *. congruence.
  - simpl in Hw, Hk. change ((v :: ?l) !! S k) with (l !! k) in Hu.
    change ((?a :: ?l) !! S k) with (l !! k).
    apply IH; [assumption | simpl; lia | assumption].
Qed.

Lemma activations_output ws v k w u :
  ws !! k = Some w -> S k = length ws ->
  (v :: activations ws v) !! k = Some u ->
  activations ws v !! k = Some (activity (vecmat u w)).
Proof.
  revert v k u. induction ws as [|w0 ws IH]; intros v k u Hw Hk Hu; [discriminate|].
  destruct ws as [|w1 ws].
  - destruct k; [|simpl in Hk; lia]. simpl in *. congruence.
  - change (activations (w0 :: w1 :: ws) v)
      with (concatenate (ones 1) (activity (vecmat v w0))
              :: activations (w1 :: ws) (concatenate (ones 1) (activity (vecmat v w0)))) in *.
    destruct k as [|k]; [simpl in Hk; lia|].
    simpl in Hw, Hk. change ((v :: ?l) !! S k) with (l !! k) in Hu.
    change ((?a :: ?l) !! S k) with (l !! k).
    apply IH; [assumption | simpl; lia | assumption].
Qed.

Lemma activity_length v : length (activity v) = length v.
Proof. unfold activity, np.tanh. apply length_map. Qed.

Lemma activations_trace_ok sizes s y0 n0 :
  net_ok sizes s -> (2 <= length sizes)%nat ->
  sizes !! 0%nat = Some n0 -> length y0 = S n0 ->
  trace_ok sizes (y0 :: activations (weights s) y0).
Proof.
  intros Hnet Hlen H0 Hy0. pose proof (net_ok_length _ _ Hnet) as Hn. split.
  - rewrite length_cons, activations_length. lia.
  - intros [|i] y Hy.
    + injection Hy as <-. exists n0. split; [assumption|].
      destruct (Nat.eqb_spec 1 (length sizes)); [lia|assumption].
    + change (activations (weights s) y0 !! i = Some y) in Hy.
      assert (Hi : (i < length (weights s))%nat).
      { rewrite <- (activations_length _ y0). eapply lookup_lt_Some; eauto. }
      destruct (lookup_lt_is_Some_2 (weights s) i Hi) as [w Hw].
      destruct (lookup_lt_is_Some_2 (y0 :: activations (weights s) y0) i) as [u Hu].
      { rewrite length_cons, activations_length. lia. }
      destruct (net_ok_weight _ _ _ _ Hnet Hw) as (m0 & m1 & _ & Hm1 & _ & _ & Hc).
      exists m1. split; [assumption|].
      destruct (Nat.eqb_spec (S (S i)) (length sizes)) as [He|Hne].
      * pose proof (eq_trans (eq_sym Hy)
            (activations_output _ _ _ _ _ Hw ltac:(lia) Hu)) as Hy'.
        injection Hy' as ->. now rewrite activity_length, vecmat_length.
      * pose proof (eq_trans (eq_sym Hy)
            (activations_hidden _ _ _ _ _ Hw ltac:(lia) Hu)) as Hy'.
        injection Hy' as ->. unfold concatenate. simpl.
        rewrite activity_length, vecmat_length. congruence.
Qed.

Lemma run_dot v m : length v = nrows m -> dot v m = Ok (vecmat v m).
Proof. intros H. unfold dot. now rewrite H, Nat.eqb_refl. Qed.

Lemma only_list_append x s0 s v :
  only_list x s0 s -> only_list x s0 (set_list x v s).
Proof.
  unfold only_list. simpl. intros (? & ? & ? & ? & ? & ? & ? & L).
  repeat split; try assumption.
  intros l Hl. rewrite <- L by assumption. apply Nat.eqb_neq in Hl. now rewrite Hl.
Qed.

Lemma net_ok_only_list x sizes s s' :
  net_ok sizes s -> only_list x s s' -> net_ok sizes s'.
Proof.
  intros (Hl & Ha & [Hlen Hws]) (Hl' & Ha' & Hw' & _).
  unfold net_ok, shape_invariant. rewrite Hl', Ha', Hw'. now repeat split.
Qed.

Lemma lists_set_list x v s : lists (set_list x v s) x = v.
Proof. simpl. now rewrite Nat.eqb_refl. Qed.

(** On a well-shaped network and a list that holds the bias-prefixed input
    alone, [_forward_prop] returns and leaves the whole trace in the
    list. *)
Lemma forward_prop_total sizes s x y0 n0 :
  net_ok sizes s -> (2 <= length sizes)%nat ->
  sizes !! 0%nat = Some n0 -> length y0 = S n0 -> lists s x = [y0] ->
  exists s', _forward_prop x s = (Ok x, s') /\ only_list x s s' /\
    lists s' x = y0 :: activations (weights s) y0 /\
    trace_ok sizes (lists s' x).
Proof.
  intros Hnet Hlen H0 Hy0 Hx.
  pose proof (activations_trace_ok _ _ _ _ Hnet Hlen H0 Hy0) as Htr.
  pose proof (net_ok_length _ _ Hnet) as Hn.
  set (tr := y0 :: activations (weights s) y0) in *.
  assert (Htrlen : length tr = S (length (weights s))).
  { unfold tr. now rewrite length_cons, activations_length. }
  unfold _forward_prop.
  rewrite (bind_Ok len_weights _ s (length (weights s)) s eq_refl).
  pose proof (foldM_rule
    (fun (_ : unit) i =>
       yi <- list_get x i ;; w <- weights_get i ;; activation <- lift (dot yi w) ;;
       list_append x (concatenate (ones 1) (activity activation)))
    (range (length (weights s) - 1))
    (fun k _ s' => only_list x s s' /\ lists s' x = take (S k) tr)
    (fun _ _ => False) tt s) as Hloop.
  match type of Hloop with ?P -> ?Q -> _ => assert (I0 : P); [|assert (Hstep : Q)] end.
  - split; [reflexivity|]. now rewrite Hx.
  - intros k i [] s1 Hk [Hframe Hl]. apply range_lookup in Hk as [-> Hk].
    destruct (lookup_lt_is_Some_2 tr k) as [u Hu]; [lia|].
    destruct (lookup_lt_is_Some_2 (weights s) k) as [w Hw]; [lia|].
    assert (Hu1 : lists s1 x !! k = Some u).
    { rewrite Hl, lookup_take_lt by lia. exact Hu. }
    assert (Hw1 : weights s1 !! k = Some w).
    { destruct Hframe as (_ & _ & -> & _). exact Hw. }
    destruct (net_ok_weight _ _ _ _ Hnet Hw) as (m0 & m1 & Hm0 & _ & _ & Hr & _).
    destruct Htr as [_ Htr]. destruct (Htr k u Hu) as (m & Hm & Hlu).
    destruct (Nat.eqb_spec (S k) (length sizes)); [lia|].
    rewrite (bind_Ok _ _ _ _ _ (run_list_get _ _ _ _ Hu1)).
    rewrite (bind_Ok _ _ _ _ _ (run_weights_get _ _ _ Hw1)).
    rewrite (bind_Ok _ _ _ _ _ (run_lift _ _ _ (run_dot u w ltac:(congruence)))).
    unfold list_append, modify. split.
    + now apply only_list_append.
    + rewrite lists_set_list, Hl.
      symmetry. apply take_S_r.
      change (tr !! S k) with (activations (weights s) y0 !! k).
      apply activations_hidden; [assumption | lia | assumption].
  - specialize (Hloop I0 Hstep). unfold for_each, bind at 1.
    destruct (foldM _ _ tt s) as [[[]|e] s1]; [|contradiction].
    destruct Hloop as [Hframe Hl]. rewrite range_length in Hl.
    assert (Hpos : (0 < length (weights s))%nat) by lia.
    replace (S (length (weights s) - 1)) with (length (weights s)) in Hl by lia.
    destruct (lookup_lt_is_Some_2 tr (length (weights s) - 1)) as [u Hu]; [lia|].
    destruct (lookup_lt_is_Some_2 (weights s) (length (weights s) - 1)) as [w Hw]; [lia|].
    assert (Hu1 : last (lists s1 x) = Some u).
    { rewrite last_lookup, Hl, length_take. rewrite Htrlen.
      replace (Init.Nat.pred (length (weights s) `min` S (length (weights s))))
        with (length (weights s) - 1)%nat by lia.
      rewrite lookup_take_lt by lia. exact Hu. }
    assert (Hw1 : last (weights s1) = Some w).
    { destruct Hframe as (_ & _ & -> & _). rewrite last_lookup.
      replace (Init.Nat.pred (length (weights s))) with (length (weights s) - 1)%nat by lia.
      exact Hw. }
    destruct (net_ok_weight _ _ _ _ Hnet Hw) as (m0 & m1 & Hm0 & _ & _ & Hr & _).
    destruct Htr as [Htr1 Htr]. destruct (Htr _ u Hu) as (m & Hm & Hlu).
    destruct (Nat.eqb_spec (S (length (weights s) - 1)) (length sizes)); [lia|].
    rewrite (bind_Ok _ _ _ _ _ (run_list_last _ _ _ Hu1)).
    rewrite (bind_Ok _ _ _ _ _ (run_weights_last _ _ Hw1)).
    rewrite (bind_Ok _ _ _ _ _ (run_lift _ _ _ (run_dot u w ltac:(congruence)))).
    unfold bind, list_append, modify, ret.
    assert (Hfinal : lists s1 x ++ [activity (vecmat u w)] = tr).
    { rewrite Hl. rewrite <- (firstn_all tr) at 2. rewrite Htrlen.
      symmetry. apply take_S_r.
      replace (length (weights s)) with (S (length (weights s) - 1)) at 1 by lia.
      change (tr !! S (length (weights s) - 1))
        with (activations (weights s) y0 !! (length (weights s) - 1)%nat).
      apply activations_output; [assumption | lia | assumption]. }
    eexists. split; [reflexivity|]. split; [now apply only_list_append|].
    rewrite lists_set_list, Hfinal. split; [reflexivity|]. now split.
Qed.

(** ** Prediction *)

Lemma run_item_1 (out : vec) :
  item (concatenate (ones 1) out) 1 = match out with o :: _ => Ok o | [] => Raise IndexError end.
Proof. now destruct out. Qed.

(** [predict_single_data] walks the same layers as [_forward_prop], puts
    the bias in front of the output layer too, and returns the entry at
    index 1: the first output. *)
Lemma predict_single_data_total sizes s x n0 out :
  net_ok sizes s -> (2 <= length sizes)%nat ->
  sizes !! 0%nat = Some n0 -> length x = n0 ->
  last (concatenate (ones 1) x :: activations (weights s) (concatenate (ones 1) x)) = Some out ->
  predict_single_data x s
    = (match out with o :: _ => Ok o | [] => Raise IndexError end, s).
Proof.
  intros Hnet Hlen H0 Hx Hout.
  set (y0 := concatenate (ones 1) x) in *.
  assert (Hy0 : length y0 = S n0) by (unfold y0, concatenate; simpl; congruence).
  pose proof (activations_trace_ok _ _ _ _ Hnet Hlen H0 Hy0) as [Htr1 Htr].
  pose proof (net_ok_length _ _ Hnet) as Hn.
  set (tr := y0 :: activations (weights s) y0) in *.
  assert (Htrlen : length tr = S (length (weights s))).
  { unfold tr. now rewrite length_cons, activations_length. }
  unfold predict_single_data.
  rewrite (bind_Ok len_weights _ s (length (weights s)) s eq_refl).
  fold y0.
  pose proof (foldM_rule
    (fun val i =>
       w <- weights_get i ;; a <- lift (dot val w) ;;
       ret (concatenate (ones 1) (activity a)))
    (range (length (weights s)))
    (fun k val s' => s' = s /\ exists u, tr !! k = Some u /\
       val = if (k =? length (weights s))%nat then concatenate (ones 1) u else u)
    (fun _ _ => False) y0 s) as Hloop.
  match type of Hloop with ?P -> ?Q -> _ => assert (I0 : P); [|assert (Hstep : Q)] end.
  - split; [reflexivity|]. exists y0. split; [reflexivity|].
    destruct (Nat.eqb_spec 0 (length (weights s))); [lia|reflexivity].
  - intros k i val s1 Hk (-> & u & Hu & Hval). apply range_lookup in Hk as [-> Hk].
    destruct (Nat.eqb_spec k (length (weights s))); [lia|]. subst val.
    destruct (lookup_lt_is_Some_2 (weights s) k Hk) as [w Hw].
    destruct (net_ok_weight _ _ _ _ Hnet Hw) as (m0 & m1 & Hm0 & _ & _ & Hr & _).
    destruct (Htr k u Hu) as (m & Hm & Hlu).
    destruct (Nat.eqb_spec (S k) (length sizes)); [lia|].
    rewrite (bind_Ok _ _ _ _ _ (run_weights_get _ _ _ Hw)).
    rewrite (bind_Ok _ _ _ _ _ (run_lift _ _ _ (run_dot u w ltac:(congruence)))).
    unfold ret. split; [reflexivity|].
    destruct (Nat.eqb_spec (S k) (length (weights s))) as [He|Hne].
    + exists (activity (vecmat u w)). split; [|reflexivity].
      change (tr !! S k) with (activations (weights s) y0 !! k).
      apply activations_output; [assumption | lia | assumption].
    + exists (concatenate (ones 1) (activity (vecmat u w))). split; [|reflexivity].
      change (tr !! S k) with (activations (weights s) y0 !! k).
      apply activations_hidden; [assumption | lia | assumption].
  - specialize (Hloop I0 Hstep). unfold bind.
    destruct (foldM _ _ y0 s) as [[val|e] s1]; [|contradiction].
    destruct Hloop as (-> & u & Hu & ->).
    rewrite range_length in Hu. rewrite range_length, Nat.eqb_refl.
    rewrite last_lookup in Hout. rewrite Htrlen in Hout.
    simpl in Hout. rewrite Hu in Hout. injection Hout as ->.
    unfold lift. now rewrite run_item_1.
Qed.

Lemma net_ok_frame sizes s s' :
  layers s' = layers s -> arch s' = arch s -> weights s' = weights s ->
  net_ok sizes s -> net_ok sizes s'.
Proof.
  intros Hl Ha Hw (Hl0 & Ha0 & [Hlen Hws]).
  unfold net_ok, shape_invariant. rewrite Hl, Ha, Hw. now repeat split.
Qed.

Lemma trace_ok_last sizes ys lc :
  trace_ok sizes ys -> last sizes = Some lc ->
  exists out, last ys = Some out /\ length out = lc.
Proof.
  intros [Hlen Hys] Hlast. rewrite last_lookup in Hlast.
  assert (Hpos : (0 < length sizes)%nat).
  { apply lookup_lt_Some in Hlast. destruct sizes; simpl in *; lia. }
  destruct (lookup_lt_is_Some_2 ys (Init.Nat.pred (length ys))) as [out Hout]; [lia|].
  exists out. rewrite last_lookup. split; [assumption|].
  destruct (Hys _ _ Hout) as (n & Hn & Hl).
  rewrite Hlen in Hn, Hl. rewrite Hlast in Hn. injection Hn as <-.
  destruct (Nat.eqb_spec (S (Init.Nat.pred (length sizes))) (length sizes)); [assumption|lia].
Qed.

(** What [_forward_prop] leaves for the input [x] in a new list, and what
    [predict_single_data] returns for [x]. *)
Lemma forward_and_predict sizes s x n0 lc :
  net_ok sizes s -> (2 <= length sizes)%nat ->
  sizes !! 0%nat = Some n0 -> length x = n0 ->
  last sizes = Some lc ->
  exists s2 out,
    (y <- list_new [concatenate (ones 1) x] ;; _forward_prop y) s
      = (Ok (next_loc s), s2) /\
    last (lists s2 (next_loc s)) = Some out /\ length out = lc /\
    predict_single_data x s
      = (match out with o :: _ => Ok o | [] => Raise IndexError end, s).
Proof.
  intros Hnet Hlen H0 Hx Hlast.
  set (y0 := concatenate (ones 1) x).
  set (s1 := set_next_loc (S (next_loc s)) (set_list (next_loc s) [y0] s)).
  assert (Hnet1 : net_ok sizes s1) by (now apply (net_ok_frame sizes s)).
  assert (Hy0 : length y0 = S n0) by (unfold y0, concatenate; simpl; congruence).
  destruct (forward_prop_total sizes s1 (next_loc s) y0 n0 Hnet1 Hlen H0 Hy0)
    as (s2 & Hrun & _ & Hl & Htr).
  { unfold s1. simpl. now rewrite Nat.eqb_refl. }
  destruct (trace_ok_last _ _ _ Htr Hlast) as (out & Hout & Hlout).
  exists s2, out. repeat split; try assumption.
  apply (predict_single_data_total sizes s x n0 out Hnet Hlen H0 Hx).
  fold y0. rewrite Hl in Hout. exact Hout.
Qed.

(** C5 (as amended).  For a well-shaped network whose output layer is not
    empty and an input of the size of the first layer,
    [predict_single_data] changes nothing and returns one number: the first
    value of the last entry of the trace that [_forward_prop] leaves for
    the bias-prefixed input.  The other values of that entry are not
    returned. *)
Theorem predict_single_data_first_output sizes s x n0 lc :
  net_ok sizes s -> (2 <= length sizes)%nat ->
  sizes !! 0%nat = Some n0 -> length x = n0 ->
  last sizes = Some lc -> (0 < lc)%nat ->
  exists s2 out o,
    (y <- list_new [concatenate (ones 1) x] ;; _forward_prop y) s
      = (Ok (next_loc s), s2) /\
    last (lists s2 (next_loc s)) = Some out /\ length out = lc /\
    out !! 0%nat = Some o /\
    predict_single_data x s = (Ok o, s).
Proof.
  intros Hnet Hlen H0 Hx Hlast Hlc.
  destruct (forward_and_predict sizes s x n0 lc Hnet Hlen H0 Hx Hlast)
    as (s2 & out & Hrun & Hout & Hl & Hp).
  destruct out as [|o out]; [simpl in Hl; lia|].
  exists s2, (o :: out), o. now repeat split.
Qed.

Lemma network_one_matrix_ok n0 n1 w :
  wf w -> nrows w = S n0 -> ncols w = n1 ->
  net_ok [n0; n1] (network [Z.of_nat n0; Z.of_nat n1] [w]).
Proof.
  intros Hwf Hr Hc. split; [reflexivity|]. split; [reflexivity|]. split; [reflexivity|].
  intros [|i] w' Hi; [|discriminate]. injection Hi as <-.
  exists (Z.of_nat n0), (Z.of_nat n1). repeat split; try apply Hwf; simpl; lia.
Qed.

Lemma two_outputs_ok : net_ok [1; 2]%nat two_outputs.
Proof.
  apply (network_one_matrix_ok 1 2); [|reflexivity|reflexivity].
  split; [reflexivity|]. repeat constructor.
Qed.

Lemma predict_single_data_first_output_witness :
  exists s2 out o,
    (y <- list_new [concatenate (ones 1) [1]] ;; _forward_prop y) two_outputs
      = (Ok (next_loc two_outputs), s2) /\
    last (lists s2 (next_loc two_outputs)) = Some out /\ length out = 2%nat /\
    out !! 0%nat = Some o /\
    predict_single_data [1] two_outputs = (Ok o, two_outputs).
Proof.
  apply (predict_single_data_first_output [1; 2]%nat two_outputs [1] 1 2).
  - exact two_outputs_ok.
  - simpl. lia.
  - reflexivity.
  - reflexivity.
  - reflexivity.
  - lia.
Defined.

(** C5, the claim as the specification words it, fails: on the network
    [[1, 2]] the last entry of the trace has two values and
    [predict_single_data] returns one. *)
Lemma predict_single_data_drops_outputs :
  exists s2 out o,
    (y <- list_new [concatenate (ones 1) [1]] ;; _forward_prop y) two_outputs
      = (Ok 0%nat, s2) /\
    last (lists s2 0%nat) = Some out /\
    length out = 2%nat /\
    predict_single_data [1] two_outputs = (Ok o, two_outputs) /\
    [o] <> out.
Proof.
  run. do 3 eexists. split; [reflexivity|]. split; [reflexivity|].
  split; [reflexivity|]. split; [reflexivity|].
  intros H. discriminate H.
Qed.

(** On a well-shaped network with a single output neuron, [predict] stacks
    the number [predict_single_data] returns for each sample. *)
Lemma predict_total sizes s Xs n0 :
  net_ok sizes s -> (2 <= length sizes)%nat ->
  sizes !! 0%nat = Some n0 -> last sizes = Some 1%nat ->
  Forall (fun x => length x = n0) Xs ->
  exists Y, predict Xs s = (Ok Y, s) /\ shape Y = (length Xs, 1%nat) /\ wf Y /\
    forall i x, Xs !! i = Some x ->
      exists o, predict_single_data x s = (Ok o, s) /\ rows Y !! i = Some [o].
Proof.
  intros Hnet Hlen H0 Hlast HXs.
  assert (Ha : last (arch s) = Some 1%Z).
  { destruct Hnet as (_ & -> & _). change (map Z.of_nat sizes) with (Z.of_nat <$> sizes).
    now rewrite fmap_last, Hlast. }
  unfold predict.
  rewrite (bind_Ok arch_last _ s 1%Z s) by (unfold arch_last, bind, get; now rewrite Ha).
  rewrite (bind_Ok (lift (empty_reshape 1)) _ s (Mat 0 1 []) s eq_refl).
  pose proof (foldM_rule
    (fun Y x => v <- predict_single_data x ;; lift (vstack Y (Mat 1 1 [[v]])))
    Xs
    (fun k Y s' => s' = s /\ shape Y = (k, 1%nat) /\ wf Y /\
       forall i x, (i < k)%nat -> Xs !! i = Some x ->
         exists o, predict_single_data x s = (Ok o, s) /\ rows Y !! i = Some [o])
    (fun _ _ => False) (Mat 0 1 []) s) as Hloop.
  match type of Hloop with ?P -> ?Q -> _ => assert (I0 : P); [|assert (Hstep : Q)] end.
  - split; [reflexivity|]. split; [reflexivity|]. split; [now split|]. intros; lia.
  - intros k x Y s1 Hk (-> & HY & HwfY & Hrows).
    rewrite Forall_lookup in HXs. specialize (HXs k x Hk).
    destruct (forward_and_predict sizes s x n0 1 Hnet Hlen H0 HXs Hlast)
      as (_ & out & _ & _ & Hlout & Hp).
    destruct out as [|o out]; [discriminate|].
    rewrite (bind_Ok _ _ _ _ _ Hp). injection HY as Hr Hc.
    unfold lift, vstack. rewrite Hc. simpl. split; [reflexivity|].
    split; [unfold shape; simpl; f_equal; lia|]. destruct HwfY as [Hl1 Hl2]. split.
    + split; simpl.
      * rewrite length_app. simpl. lia.
      * apply Forall_app. split; [now rewrite Hc in Hl2|]. now repeat constructor.
    + intros i x' Hi Hx'. destruct (decide (i = k)) as [->|Hne].
      * pose proof (eq_trans (eq_sym Hx') Hk) as E. injection E as ->. exists o. split; [assumption|].
        rewrite lookup_app_r by lia.
        now replace (k - length (rows Y))%nat with 0%nat by lia.
      * destruct (Hrows i x') as (o' & Hp' & Hr'); [lia|assumption|].
        exists o'. split; [assumption|]. rewrite lookup_app_l; [assumption|].
        eapply lookup_lt_Some; eauto.
  - specialize (Hloop I0 Hstep).
    destruct (foldM _ Xs (Mat 0 1 []) s) as [[Y|e] s1]; [|contradiction].
    destruct Hloop as (-> & HY & HwfY & Hrows).
    exists Y. repeat split; try assumption; try apply HwfY.
    intros i x Hi. apply Hrows; [|assumption]. eapply lookup_lt_Some; eauto.
Qed.

(** ** Backpropagation *)

#[local] Instance only_weights_preorder : PreOrder only_weights.
Proof.
  split.
  - intros s. unfold only_weights. tauto.
  - intros s1 s2 s3 H1 H2. unfold only_weights in *.
    destruct H1 as (? & ? & ? & ? & ? & ? & ?), H2 as (? & ? & ? & ? & ? & ? & ?).
    repeat split; congruence.
Qed.

Lemma weights_iadd_only_weights i m : preserves only_weights (weights_iadd i m).
Proof.
  intros s. unfold weights_iadd, bind, get, lift, modify.
  destruct (weights s !! i); [|reflexivity].
  destruct (iadd _ m); [|reflexivity].
  simpl. unfold only_weights. simpl. tauto.
Qed.

Lemma back_prop_only_weights y target lr :
  preserves only_weights (_back_prop y target lr).
Proof.
  unfold _back_prop.
  repeat first [apply weights_iadd_only_weights | preserves_step].
Qed.

Lemma range_down_lookup hi k x :
  range_down hi !! k = Some x -> x = (hi - k)%nat /\ (k < hi)%nat.
Proof.
  unfold range_down. intros H.
  apply reverse_lookup_Some in H as [H Hk]. rewrite length_seq in *.
  apply lookup_seq in H. lia.
Qed.

Lemma range_down_length hi : length (range_down hi) = hi.
Proof. unfold range_down. now rewrite length_reverse, length_seq. Qed.

Lemma run_multiply a b :
  length a = length b -> multiply a b = Ok (zip_with Rmult a b).
Proof. intros H. unfold multiply, broadcast. now rewrite H, Nat.eqb_refl. Qed.

Lemma subtract_target_ok target out :
  target_ok target (length out) ->
  exists err, subtract target out = Ok err /\ length err = length out.
Proof.
  destruct target as [c|t]; simpl.
  - intros _. eexists. split; [reflexivity|]. apply length_map.
  - intros Ht. unfold broadcast.
    destruct (Nat.eqb_spec (length t) (length out)) as [He|Hne].
    + eexists. split; [reflexivity|]. rewrite length_zip_with. lia.
    + destruct Ht as [Ht|Ht]; [contradiction|].
      destruct t as [|c [|c' t]]; try discriminate.
      eexists. split; [reflexivity|]. apply length_map.
Qed.

Lemma run_reshape_row v d :
  d = Z.of_nat (length v) -> reshape_row v d = Ok (Mat 1 (length v) [v]).
Proof.
  intros ->. unfold reshape_row. rewrite Z.eqb_refl. now rewrite orb_true_r.
Qed.

Lemma tail_length {A} (l : list A) : length (tail l) = Init.Nat.pred (length l).
Proof. now destruct l. Qed.

Lemma trace_ok_hidden sizes ys i :
  trace_ok sizes ys -> (S i < length sizes)%nat ->
  exists yi m, ys !! i = Some yi /\ sizes !! i = Some m /\ length yi = S m.
Proof.
  intros [Hlen Hys] Hi.
  destruct (lookup_lt_is_Some_2 ys i) as [yi Hyi]; [lia|].
  destruct (Hys i yi Hyi) as (m & Hm & Hl).
  destruct (Nat.eqb_spec (S i) (length sizes)); [lia|]. eauto.
Qed.

(** The first loop of [_back_prop] on a well-shaped network and trace: it
    leaves the state as it is and returns one delta per layer after the
    first, from the output layer back. *)
Lemma back_prop_deltas sizes s y d0 lc :
  net_ok sizes s -> (2 <= length sizes)%nat ->
  trace_ok sizes (lists s y) -> last sizes = Some lc -> length d0 = lc ->
  exists dv,
    foldM (fun delta_vec i =>
        w <- weights_get i ;;
        error <- lift (match last delta_vec with
                       | Some d => dot d (T (slice1_rows w))
                       | None => Raise IndexError
                       end) ;;
        yi <- list_get y i ;;
        error <- lift (multiply error (activity_derivative (slice1 yi))) ;;
        ret (delta_vec ++ [error]))
      (range_down (layers s - 2)) [d0] s = (Ok dv, s) /\
    length dv = (length sizes - 1)%nat /\ dv !! 0%nat = Some d0 /\
    forall j d, dv !! j = Some d ->
      exists m, sizes !! (length sizes - 1 - j)%nat = Some m /\ length d = m.
Proof.
  intros Hnet Hlen Htr Hlast Hd0.
  pose proof (net_ok_length _ _ Hnet) as Hn.
  pose proof Hnet as (Hlay & _).
  rewrite last_lookup in Hlast.
  pose proof (foldM_rule
    (fun delta_vec i =>
        w <- weights_get i ;;
        error <- lift (match last delta_vec with
                       | Some d => dot d (T (slice1_rows w))
                       | None => Raise IndexError
                       end) ;;
        yi <- list_get y i ;;
        error <- lift (multiply error (activity_derivative (slice1 yi))) ;;
        ret (delta_vec ++ [error]))
    (range_down (layers s - 2))
    (fun k dv s' => s' = s /\ length dv = S k /\ dv !! 0%nat = Some d0 /\
       forall j d, dv !! j = Some d ->
         exists m, sizes !! (length sizes - 1 - j)%nat = Some m /\ length d = m)
    (fun _ _ => False) [d0] s) as Hloop.
  match type of Hloop with ?P -> ?Q -> _ => assert (I0 : P); [|assert (Hstep : Q)] end.
  - repeat split. intros [|j] d Hj; [|discriminate]. injection Hj as <-.
    exists lc. split; [|assumption]. rewrite <- Hlast. f_equal. lia.
  - intros k i dv s1 Hk (-> & Hdv & Hfirst & Hall).
    apply range_down_lookup in Hk as [-> Hk]. rewrite Hlay in *.
    set (i := (length sizes - 2 - k)%nat).
    destruct (lookup_lt_is_Some_2 (weights s) i) as [w Hw]; [lia|].
    destruct (net_ok_weight _ _ _ _ Hnet Hw) as (m0 & m1 & Hm0 & Hm1 & _ & Hr & Hc).
    destruct (lookup_lt_is_Some_2 dv k) as [d Hd]; [lia|].
    destruct (Hall k d Hd) as (m & Hm & Hld).
    replace (length sizes - 1 - k)%nat with (S i) in Hm by lia.
    assert (m = m1) as -> by congruence.
    destruct (trace_ok_hidden sizes (lists s y) i Htr) as (yi & m' & Hyi & Hm' & Hlyi); [lia|].
    assert (m' = m0) as -> by congruence.
    rewrite (bind_Ok _ _ _ _ _ (run_weights_get _ _ _ Hw)).
    assert (Hlastdv : last dv = Some d).
    { rewrite last_lookup, Hdv. exact Hd. }
    rewrite Hlastdv.
    rewrite (bind_Ok _ _ _ _ _ (run_lift _ _ _ (run_dot d (T (slice1_rows w)) ltac:(simpl; congruence)))).
    rewrite (bind_Ok _ _ _ _ _ (run_list_get _ _ _ _ Hyi)).
    assert (Hlens : length (vecmat d (T (slice1_rows w)))
                    = length (activity_derivative (slice1 yi))).
    { rewrite vecmat_length. unfold activity_derivative, slice1. simpl.
      rewrite length_map, tail_length. now rewrite Hr, Hlyi. }
    rewrite (bind_Ok _ _ _ _ _ (run_lift _ _ _ (run_multiply _ _ Hlens))).
    unfold ret. split; [reflexivity|]. split; [rewrite length_app; simpl; lia|].
    split; [rewrite lookup_app_l by lia; assumption|].
    intros j d' Hj. apply lookup_app_Some in Hj as [Hj|[Hge Hj]].
    + now apply Hall.
    + rewrite Hdv in *. destruct (j - S k)%nat eqn:Ej; [|discriminate].
      injection Hj as <-. exists m0. split.
      * rewrite <- Hm0. f_equal. lia.
      * rewrite length_zip_with, <- Hlens, Nat.min_id, vecmat_length. simpl.
        now rewrite Hr.
  - specialize (Hloop I0 Hstep).
    destruct (foldM _ _ [d0] s) as [[dv|e] s1]; [|contradiction].
    destruct Hloop as (-> & Hdv & Hfirst & Hall). rewrite range_down_length in Hdv.
    exists dv. repeat split; try assumption. lia.
Qed.

Lemma run_weights_iadd i m s w w' :
  weights s !! i = Some w -> iadd w m = Ok w' ->
  weights_iadd i m s = (Ok tt, set_weights (<[i := w']> (weights s)) s).
Proof.
  intros Hw Hi. unfold weights_iadd, bind, get, lift, modify. now rewrite Hw, Hi.
Qed.

Lemma run_outer yi d :
  exists upd, matmul (T (Mat 1 (length yi) [yi])) (Mat 1 (length d) [d]) = Ok upd /\
    nrows upd = length yi /\ ncols upd = length d.
Proof. eexists. split; [reflexivity|]. now split. Qed.

Lemma run_iadd w m :
  nrows m = nrows w -> ncols m = ncols w -> exists w', iadd w m = Ok w'.
Proof.
  intros Hr Hc. unfold iadd. rewrite Hr, Hc, !Nat.eqb_refl. simpl. eauto.
Qed.

Lemma net_ok_arch sizes s i m :
  net_ok sizes s -> sizes !! i = Some m -> arch s !! i = Some (Z.of_nat m).
Proof.
  intros (_ & -> & _) Hm. change (map Z.of_nat sizes) with (Z.of_nat <$> sizes).
  now rewrite list_lookup_fmap, Hm.
Qed.

(** The second loop of [_back_prop] on a well-shaped network and trace,
    with one delta per layer boundary: every matrix gets its update. *)
Lemma back_prop_updates sizes s y dv lr :
  net_ok sizes s -> (2 <= length sizes)%nat ->
  trace_ok sizes (lists s y) ->
  length dv = (length sizes - 1)%nat ->
  (forall j d, dv !! j = Some d ->
     exists m, sizes !! (length sizes - 1 - j)%nat = Some m /\ length d = m) ->
  exists s',
    for_each (range (length (weights s))) (fun i =>
      yi <- list_get y i ;;
      a <- arch_get i ;;
      layer <- lift (reshape_row yi (a + 1)) ;;
      d <- lift (match reverse dv !! i with Some d => Ok d | None => Raise IndexError end) ;;
      a' <- arch_get (i + 1) ;;
      delta <- lift (reshape_row d a') ;;
      _ <- weights_get i ;;
      upd <- lift (matmul (T layer) delta) ;;
      weights_iadd i (scale lr upd)) s = (Ok tt, s') /\
    forall i w, weights s !! i = Some w ->
      exists w' yi d, weights s' !! i = Some w' /\ lists s y !! i = Some yi /\
        reverse dv !! i = Some d /\ updated lr yi d w w'.
Proof.
  intros Hnet Hlen Htr Hdv Hall.
  pose proof (net_ok_length _ _ Hnet) as Hn.
  pose proof (foldM_rule
    (fun (_ : unit) i =>
      yi <- list_get y i ;;
      a <- arch_get i ;;
      layer <- lift (reshape_row yi (a + 1)) ;;
      d <- lift (match reverse dv !! i with Some d => Ok d | None => Raise IndexError end) ;;
      a' <- arch_get (i + 1) ;;
      delta <- lift (reshape_row d a') ;;
      _ <- weights_get i ;;
      upd <- lift (matmul (T layer) delta) ;;
      weights_iadd i (scale lr upd))
    (range (length (weights s)))
    (fun k _ s' => net_ok sizes s' /\ lists s' = lists s /\
       (forall i, (k <= i)%nat -> weights s' !! i = weights s !! i) /\
       (forall i w, (i < k)%nat -> weights s !! i = Some w ->
          exists w' yi d, weights s' !! i = Some w' /\ lists s y !! i = Some yi /\
            reverse dv !! i = Some d /\ updated lr yi d w w'))
    (fun _ _ => False) tt s) as Hloop.
  match type of Hloop with ?P -> ?Q -> _ => assert (I0 : P); [|assert (Hstep : Q)] end.
  - repeat split; try assumption; try apply Hnet. intros; lia.
  - intros k i [] s1 Hk (Hnet1 & Hlists & Hrest & Hdone).
    apply range_lookup in Hk as [-> Hk].
    destruct (trace_ok_hidden sizes (lists s y) k Htr) as (yi & m0 & Hyi & Hm0 & Hlyi); [lia|].
    destruct (lookup_lt_is_Some_2 (weights s) k Hk) as [w Hw].
    destruct (net_ok_weight _ _ _ _ Hnet Hw) as (m0' & m1 & Hm0' & Hm1 & _ & Hr & Hc).
    assert (m0' = m0) as -> by congruence.
    destruct (lookup_lt_is_Some_2 (reverse dv) k) as [d Hd].
    { rewrite length_reverse. lia. }
    assert (Hld : length d = m1).
    { apply reverse_lookup_Some in Hd as [Hd _].
      destruct (Hall _ _ Hd) as (m & Hm & Hld).
      replace (length sizes - 1 - (length dv - S k))%nat with (S k) in Hm by lia.
      congruence. }
    assert (Hyi1 : lists s1 y !! k = Some yi) by now rewrite Hlists.
    assert (Hw1 : weights s1 !! k = Some w) by (rewrite Hrest by lia; exact Hw).
    rewrite (bind_Ok _ _ _ _ _ (run_list_get _ _ _ _ Hyi1)).
    rewrite (bind_Ok _ _ _ _ _ (run_arch_get _ _ _ (net_ok_arch _ _ _ _ Hnet1 Hm0))).
    rewrite (bind_Ok _ _ _ _ _ (run_lift _ _ _ (run_reshape_row yi (Z.of_nat m0 + 1) ltac:(lia)))).
    rewrite Hd.
    rewrite (bind_Ok (lift (Ok d)) _ s1 d s1 eq_refl).
    rewrite Nat.add_1_r.
    rewrite (bind_Ok _ _ _ _ _ (run_arch_get _ _ _ (net_ok_arch _ _ _ _ Hnet1 Hm1))).
    rewrite (bind_Ok _ _ _ _ _ (run_lift _ _ _ (run_reshape_row d (Z.of_nat m1) ltac:(lia)))).
    rewrite (bind_Ok _ _ _ _ _ (run_weights_get _ _ _ Hw1)).
    destruct (run_outer yi d) as (upd & Hupd & Hur & Huc).
    rewrite (bind_Ok _ _ _ _ _ (run_lift _ _ _ Hupd)).
    destruct (run_iadd w (scale lr upd)) as [w' Hw']; [simpl; congruence|simpl; congruence|].
    rewrite (run_weights_iadd _ _ _ _ _ Hw1 Hw').
    pose proof (iadd_shape _ _ _ Hw') as [Hsh Hwf].
    split; [|split; [|split]].
    + eapply net_ok_same_shapes; [exact Hnet1|].
      now apply (same_shapes_insert s1 k w w').
    + exact Hlists.
    + intros i Hi. simpl. rewrite list_lookup_insert_ne by lia. apply Hrest. lia.
    + intros i w0 Hi Hw0. destruct (decide (i = k)) as [->|Hne].
      * assert (w0 = w) as -> by congruence.
        exists w', yi, d. simpl.
        rewrite list_lookup_insert_eq by (eapply lookup_lt_Some; eauto).
        repeat split; try assumption. exists upd. now split.
      * destruct (Hdone i w0 ltac:(lia) Hw0) as (w0' & yi0 & d0 & H1 & H2 & H3 & H4).
        exists w0', yi0, d0. simpl. rewrite list_lookup_insert_ne by lia. now repeat split.
  - specialize (Hloop I0 Hstep). unfold for_each.
    destruct (foldM _ _ tt s) as [[[]|e] s1]; [|contradiction].
    destruct Hloop as (_ & _ & _ & Hdone). rewrite range_length in Hdone.
    exists s1. split; [reflexivity|].
    intros i w Hw. apply Hdone; [|assumption]. eapply lookup_lt_Some; eauto.
Qed.

(** On a well-shaped network and trace, with a target that broadcasts to
    the output, [_back_prop] returns; the last matrix gets the update made
    of the activation before the output layer and of the output delta. *)
Lemma back_prop_total sizes s y target lr lc out :
  net_ok sizes s -> (2 <= length sizes)%nat ->
  trace_ok sizes (lists s y) -> last sizes = Some lc ->
  last (lists s y) = Some out -> target_ok target lc ->
  exists s' err d0,
    subtract target out = Ok err /\
    multiply err (activity_derivative out) = Ok d0 /\
    _back_prop y target lr s = (Ok tt, s') /\
    net_ok sizes s' /\ only_weights s s' /\
    forall w yp, last (weights s) = Some w ->
      lists s y !! (length sizes - 2)%nat = Some yp ->
      exists w', last (weights s') = Some w' /\ updated lr yp d0 w w'.
Proof.
  intros Hnet Hlen Htr Hlast Hout Htarget.
  destruct (trace_ok_last _ _ _ Htr Hlast) as (out' & Hout' & Hlout).
  assert (out' = out) as -> by congruence.
  rewrite <- Hlout in Htarget.
  destruct (subtract_target_ok _ _ Htarget) as (err & Herr & Hlerr).
  assert (Hlens : length err = length (activity_derivative out)).
  { unfold activity_derivative. now rewrite length_map. }
  pose proof (run_multiply _ _ Hlens) as Hd0.
  set (d0 := zip_with Rmult err (activity_derivative out)) in *.
  assert (Hld0 : length d0 = lc).
  { unfold d0. rewrite length_zip_with, <- Hlens, Nat.min_id. congruence. }
  destruct (back_prop_deltas sizes s y d0 lc Hnet Hlen Htr Hlast Hld0)
    as (dv & Hdv & Hdvlen & Hdv0 & Hdvall).
  destruct (back_prop_updates sizes s y dv lr Hnet Hlen Htr Hdvlen Hdvall)
    as (s' & Hrun & Hupd).
  assert (Hfinal : _back_prop y target lr s = (Ok tt, s')).
  { unfold _back_prop.
    rewrite (bind_Ok _ _ _ _ _ (run_list_last _ _ _ Hout)).
    rewrite (bind_Ok _ _ _ _ _ (run_lift _ _ _ Herr)).
    rewrite (bind_Ok _ _ _ _ _ (run_list_last _ _ _ Hout)).
    rewrite (bind_Ok _ _ _ _ _ (run_lift _ _ _ Hd0)).
    rewrite (bind_Ok get _ s s s eq_refl).
    rewrite (bind_Ok _ _ _ _ _ Hdv).
    rewrite (bind_Ok len_weights _ s (length (weights s)) s eq_refl).
    exact Hrun. }
  exists s', err, d0. split; [assumption|]. split; [assumption|]. split; [assumption|].
  split.
  { eapply net_ok_same_shapes; [exact Hnet|].
    pose proof (back_prop_shapes y target lr s) as H. now rewrite Hfinal in H. }
  split.
  { pose proof (back_prop_only_weights y target lr s) as H. now rewrite Hfinal in H. }
  intros w yp Hw Hyp.
  pose proof (net_ok_length _ _ Hnet) as Hn.
  rewrite last_lookup in Hw.
  replace (Init.Nat.pred (length (weights s))) with (length sizes - 2)%nat in Hw by lia.
  destruct (Hupd _ _ Hw) as (w' & yi & d & Hw' & Hyi & Hd & Hu).
  assert (yi = yp) as -> by congruence.
  apply reverse_lookup_Some in Hd as [Hd _].
  replace (length dv - S (length sizes - 2))%nat with 0%nat in Hd by lia.
  assert (d = d0) as -> by congruence.
  exists w'. split; [|assumption].
  assert (Hlen' : length (weights s') = length (weights s)).
  { pose proof (back_prop_shapes y target lr s) as (_ & _ & Hsh & _).
    rewrite Hfinal in Hsh. simpl in Hsh.
    rewrite <- (length_map shape (weights s')), Hsh. apply length_map. }
  rewrite last_lookup, Hlen'.
  replace (Init.Nat.pred (length (weights s))) with (length sizes - 2)%nat by lia.
  exact Hw'.
Qed.

(** *** The update, entry by entry *)

Lemma lookup_map {A B} (f : A -> B) (l : list A) (i : nat) :
  map f l !! i = f <$> (l !! i).
Proof. apply (list_lookup_fmap f l i). Qed.

Lemma outer_entry lr yi d upd i j :
  matmul (T (Mat 1 (length yi) [yi])) (Mat 1 (length d) [d]) = Ok upd ->
  (i < length yi)%nat -> (j < length d)%nat ->
  entry (scale lr upd) i j = lr * (nth i yi 0 * nth j d 0).
Proof.
  intros [= <-] Hi Hj. unfold entry. simpl.
  erewrite (nth_lookup_Some _ i []).
  2:{ rewrite !lookup_map, lookup_seq_lt by assumption. reflexivity. }
  erewrite (nth_lookup_Some _ j 0).
  2:{ unfold vecmat. simpl. rewrite !lookup_map, lookup_seq_lt by assumption. reflexivity. }
  unfold inner, column. simpl. ring.
Qed.

Lemma updated_entry lr yp d w w' i j :
  updated lr yp d w w' -> wf w ->
  nrows w = length yp -> ncols w = length d ->
  (i < nrows w)%nat -> (j < ncols w)%nat ->
  shape w' = shape w /\
  entry w' i j = entry w i j + lr * (nth i yp 0 * nth j d 0).
Proof.
  intros (upd & Hupd & Hadd) [Hlen Hrows] Hr Hc Hi Hj.
  pose proof (iadd_shape _ _ _ Hadd) as [Hsh _]. split; [assumption|].
  rewrite <- (outer_entry lr yp d upd i j Hupd) by lia.
  assert (Hur : nrows (scale lr upd) = nrows w).
  { injection Hupd as <-. simpl. congruence. }
  assert (Huc : ncols (scale lr upd) = ncols w).
  { injection Hupd as <-. simpl. congruence. }
  unfold iadd in Hadd. rewrite Hur, Huc, !Nat.eqb_refl in Hadd. simpl in Hadd.
  injection Hadd as <-.
  destruct (lookup_lt_is_Some_2 (rows w) i) as [r Hri]; [lia|].
  rewrite Forall_lookup in Hrows. pose proof (Hrows _ _ Hri) as Hlr.
  destruct (lookup_lt_is_Some_2 r j) as [x Hx]; [lia|].
  assert (Hwx : entry w i j = x).
  { unfold entry. rewrite (nth_lookup_Some _ i [] r Hri). now apply nth_lookup_Some. }
  rewrite Hwx. unfold entry at 1. simpl.
  erewrite (nth_lookup_Some _ i []).
  2:{ rewrite list_lookup_imap, Hri. reflexivity. }
  erewrite (nth_lookup_Some _ j 0).
  2:{ rewrite list_lookup_imap, Hx. reflexivity. }
  reflexivity.
Qed.

(** [tanh_derivative] is the derivative of [tanh] at its argument. *)
Lemma cosh_pos x : 0 < cosh x.
Proof.
  unfold cosh. pose proof (exp_pos x). pose proof (exp_pos (- x)). lra.
Qed.

Lemma cosh2_sinh2 x : (cosh x) ^ 2 - (sinh x) ^ 2 = 1.
Proof.
  unfold cosh, sinh.
  assert (H : exp x * exp (- x) = 1).
  { rewrite <- exp_plus. replace (x + - x) with 0 by ring. apply exp_0. }
  field_simplify. nra.
Qed.

Lemma tanh_derivative_tanh x :
  tanh_derivative x = 1 - (Rtrigo_def.tanh x) ^ 2.
Proof.
  unfold tanh_derivative, Rtrigo_def.tanh.
  pose proof (cosh_pos x) as Hc. pose proof (cosh2_sinh2 x) as H.
  field_simplify; [|lra|lra].
  rewrite <- H. field. lra.
Qed.

Lemma sinh_pos x : 0 < x -> 0 < sinh x.
Proof. intros H. rewrite <- sinh_0. now apply sinh_lt. Qed.

Lemma tanh_bounds x : 0 < x -> 0 < Rtrigo_def.tanh x < 1.
Proof.
  intros H. unfold Rtrigo_def.tanh.
  pose proof (cosh_pos x) as Hc. pose proof (sinh_pos x H) as Hs.
  assert (Hlt : sinh x < cosh x).
  { unfold sinh, cosh. pose proof (exp_pos (- x)). lra. }
  split.
  - now apply Rdiv_lt_0_compat.
  - apply Rmult_lt_reg_r with (cosh x); [assumption|].
    unfold Rdiv. rewrite Rmult_assoc, Rinv_l by lra. lra.
Qed.

(** Away from zero the derivative of [tanh] strictly decreases. *)
Lemma tanh_derivative_decreases u v :
  0 <= u < v -> tanh_derivative v < tanh_derivative u.
Proof.
  intros [Hu Huv]. unfold tanh_derivative.
  pose proof (cosh_pos u) as Hcu. pose proof (cosh_pos v) as Hcv.
  pose proof (cosh2_sinh2 u) as Eu. pose proof (cosh2_sinh2 v) as Ev.
  assert (Hs : 0 <= sinh u < sinh v).
  { split; [|now apply sinh_lt].
    destruct Hu as [Hu|<-]; [left; now apply sinh_pos | rewrite sinh_0; lra]. }
  assert (Hsq : (sinh u) ^ 2 < (sinh v) ^ 2) by nra.
  assert (Hc2 : 0 < (cosh u) ^ 2 < (cosh v) ^ 2) by nra.
  unfold Rdiv. rewrite !Rmult_1_l.
  apply Rinv_lt_contravar; [nra|lra].
Qed.

(** The derivative routine at the activation [tanh 1] is strictly above
    [1 - (tanh 1)^2]. *)
Lemma tanh_derivative_at_activation :
  1 - (Rtrigo_def.tanh 1) ^ 2 < tanh_derivative (Rtrigo_def.tanh 1).
Proof.
  rewrite <- tanh_derivative_tanh.
  apply tanh_derivative_decreases.
  pose proof (tanh_bounds 1 ltac:(lra)). lra.
Qed.

(** C1 (as amended).  For a well-shaped network, a trace of it and a target
    as long as the output, [_back_prop] takes [error = target - output],
    takes as output delta [error * (1 / cosh(output)^2)], elementwise, and
    adds [learning_rate * outer(activation, delta)] to the last matrix.
    The factor is the derivative of [tanh] at the value of the output,
    [1 - tanh(output)^2], which is not [1 - output^2]. *)
Theorem back_prop_output_delta sizes s y t lr out w yp :
  net_ok sizes s -> (2 <= length sizes)%nat ->
  trace_ok sizes (lists s y) ->
  last (lists s y) = Some out -> length t = length out ->
  last (weights s) = Some w -> lists s y !! (length sizes - 2)%nat = Some yp ->
  let error := zip_with Rminus t out in
  let delta := zip_with Rmult error (map (fun o => 1 / (cosh o) ^ 2) out) in
  subtract (Arr t) out = Ok error /\
  multiply error (activity_derivative out) = Ok delta /\
  (forall o, tanh_derivative o = 1 - (Rtrigo_def.tanh o) ^ 2) /\
  exists s' w',
    _back_prop y (Arr t) lr s = (Ok tt, s') /\
    last (weights s') = Some w' /\ shape w' = shape w /\
    forall i j, (i < nrows w)%nat -> (j < ncols w)%nat ->
      entry w' i j = entry w i j + lr * (nth i yp 0 * nth j delta 0).
Proof.
  intros Hnet Hlen Htr Hout Ht Hw Hyp error delta.
  assert (Hlast : exists lc, last sizes = Some lc).
  { destruct (last sizes) eqn:E; [eauto|]. apply last_None in E. subst. simpl in Hlen. lia. }
  destruct Hlast as [lc Hlast].
  destruct (trace_ok_last _ _ _ Htr Hlast) as (out' & Hout' & Hlout).
  assert (out' = out) as -> by congruence.
  assert (Herr : subtract (Arr t) out = Ok error).
  { simpl. unfold broadcast. now rewrite Ht, Nat.eqb_refl. }
  assert (Hdelta : multiply error (activity_derivative out) = Ok delta).
  { apply run_multiply. unfold error, activity_derivative.
    rewrite length_zip_with, length_map. lia. }
  split; [assumption|]. split; [assumption|]. split; [apply tanh_derivative_tanh|].
  destruct (back_prop_total sizes s y (Arr t) lr lc out Hnet Hlen Htr Hlast Hout)
    as (s' & err & d0 & Herr' & Hd0 & Hrun & _ & _ & Hupd).
  { left. congruence. }
  assert (err = error) as -> by congruence.
  assert (d0 = delta) as -> by congruence.
  destruct (Hupd w yp Hw Hyp) as (w' & Hw' & Hu).
  exists s', w'. split; [assumption|]. split; [assumption|].
  pose proof (net_ok_length _ _ Hnet) as Hn.
  rewrite last_lookup in Hw.
  replace (Init.Nat.pred (length (weights s))) with (length sizes - 2)%nat in Hw by lia.
  destruct (net_ok_weight _ _ _ _ Hnet Hw) as (m0 & m1 & Hm0 & Hm1 & Hwf & Hr & Hc).
  destruct (trace_ok_hidden sizes (lists s y) (length sizes - 2) Htr)
    as (yp' & m0' & Hyp' & Hm0' & Hlyp); [lia|].
  assert (yp' = yp) as -> by congruence. assert (m0' = m0) as -> by congruence.
  assert (Hld : length delta = m1).
  { unfold delta, error. rewrite !length_zip_with, length_map.
    rewrite last_lookup in Hlast.
    replace (Init.Nat.pred (length sizes)) with (S (length sizes - 2)) in Hlast by lia.
    assert (m1 = lc) by congruence. lia. }
  split.
  - assert (Hi : (0 < nrows w)%nat) by lia.
    destruct (Nat.eq_dec (ncols w) 0%nat) as [Hz|Hnz].
    + pose proof Hu as (upd & _ & Hadd). now apply iadd_shape in Hadd as [? _].
    + apply (updated_entry lr yp delta w w' 0%nat 0%nat Hu Hwf); lia.
  - intros i j Hi Hj.
    apply (updated_entry lr yp delta w w' i j Hu Hwf); lia.
Qed.

Lemma biased_trace_ok :
  net_ok [1; 1]%nat biased_trace /\ trace_ok [1; 1]%nat (lists biased_trace 0%nat).
Proof.
  split.
  - apply (net_ok_frame _ biased_network); try reflexivity.
    apply (network_one_matrix_ok 1 1); [|reflexivity|reflexivity].
    split; [reflexivity|]. repeat constructor.
  - split; [reflexivity|].
    intros [|[|i]] y Hy; run_in Hy; try discriminate; injection Hy as <-.
    + exists 1%nat. now split.
    + exists 1%nat. now split.
Qed.

Lemma back_prop_output_delta_witness :
  exists s' w',
    _back_prop 0%nat (Arr [0]) 1 biased_trace = (Ok tt, s') /\
    last (weights s') = Some w' /\ shape w' = (2, 1)%nat /\
    entry w' 0 0 =
      1 + 1 * (1 * ((0 - Rtrigo_def.tanh (1 * 1 + (0 * 0 + 0)))
                    * (1 / cosh (Rtrigo_def.tanh (1 * 1 + (0 * 0 + 0))) ^ 2))).
Proof.
  destruct (back_prop_output_delta [1; 1]%nat biased_trace 0%nat [0] 1
              [Rtrigo_def.tanh (1 * 1 + (0 * 0 + 0))] (Mat 2 1 [[1]; [0]]) [1; 0])
    as (_ & _ & _ & s' & w' & Hrun & Hw' & Hsh & Hent).
  - apply biased_trace_ok.
  - simpl. lia.
  - apply biased_trace_ok.
  - reflexivity.
  - reflexivity.
  - reflexivity.
  - reflexivity.
  - exists s', w'. split; [assumption|]. split; [assumption|]. split; [assumption|].
    apply (Hent 0%nat 0%nat); simpl; lia.
Defined.

Lemma biased_back_prop :
  exists s' w',
    _back_prop 0%nat (Arr [0]) 1 biased_trace = (Ok tt, s') /\
    last (weights s') = Some w' /\
    entry w' 0 0 =
      1 + 1 * (1 * ((0 - Rtrigo_def.tanh (1 * 1 + (0 * 0 + 0)))
                    * (1 / cosh (Rtrigo_def.tanh (1 * 1 + (0 * 0 + 0))) ^ 2))).
Proof.
  run. do 2 eexists. split; [reflexivity|]. split; [reflexivity|]. simpl. ring.
Qed.

(** C1, the claim as the specification words it, fails.  On the network
    whose output is [tanh 1], with target 0 and learning rate 1, the factor
    [_back_prop] multiplies the error by is not [1 - output^2], and the
    bias weight it leaves is not the one that [error * (1 - output^2)]
    gives. *)
Lemma back_prop_factor_is_not_one_minus_square :
  exists out s' w',
    last (lists biased_trace 0%nat) = Some [out] /\
    _back_prop 0%nat (Arr [0]) 1 biased_trace = (Ok tt, s') /\
    last (weights s') = Some w' /\
    tanh_derivative out <> 1 - out ^ 2 /\
    entry w' 0 0 <> 1 + 1 * (1 * ((0 - out) * (1 - out ^ 2))).
Proof.
  destruct biased_back_prop as (s' & w' & Hrun & Hw' & Hent).
  exists (Rtrigo_def.tanh (1 * 1 + (0 * 0 + 0))), s', w'.
  split; [reflexivity|]. split; [assumption|]. split; [assumption|].
  replace (1 * 1 + (0 * 0 + 0)) with 1 in * by ring.
  pose proof tanh_derivative_at_activation as Hlt.
  pose proof (tanh_bounds 1 ltac:(lra)) as Hb.
  unfold tanh_derivative in *. split; [lra|].
  rewrite Hent. nra.
Qed.

(** *** A target of another length than the output *)

Lemma broadcast_fails op a b :
  length a <> length b -> length a <> 1%nat -> length b <> 1%nat ->
  broadcast op a b = Raise ValueError.
Proof.
  intros Hab Ha Hb. unfold broadcast.
  destruct (Nat.eqb_spec (length a) (length b)); [contradiction|].
  destruct a as [|x [|x' a]], b as [|z [|z' b]]; simpl in *; try reflexivity; lia.
Qed.

Lemma broadcast_one_r op a z :
  length a <> 1%nat -> broadcast op a [z] = Ok (map (fun x => op x z) a).
Proof.
  intros Ha. unfold broadcast.
  destruct (Nat.eqb_spec (length a) (length [z])) as [E|_]; [simpl in E; lia|].
  destruct a as [|x [|x' a]]; simpl in *; try reflexivity; lia.
Qed.

Lemma range_down_S h : range_down (S h) = S h :: range_down h.
Proof.
  unfold range_down. rewrite seq_S, reverse_app. reflexivity.
Qed.

Lemma dot_fails v m : length v <> nrows m -> dot v m = Raise ValueError.
Proof.
  intros H. unfold dot. destruct (Nat.eqb_spec (length v) (nrows m)); [contradiction|].
  reflexivity.
Qed.

Lemma reshape_row_fails v d :
  (0 <= d)%Z -> d <> Z.of_nat (length v) -> reshape_row v d = Raise ValueError.
Proof.
  intros H0 Hne. unfold reshape_row.
  destruct (Z.eqb_spec d (-1)); [lia|].
  destruct (Z.eqb_spec d (Z.of_nat (length v))); [contradiction|]. reflexivity.
Qed.

(** A target that is neither as long as the output nor of length 1 makes
    [_back_prop] raise [ValueError] before it has written any weight. *)
Lemma back_prop_mismatch_raises sizes s y t lr lc :
  net_ok sizes s -> (2 <= length sizes)%nat ->
  trace_ok sizes (lists s y) -> last sizes = Some lc ->
  length t <> lc -> length t <> 1%nat ->
  _back_prop y (Arr t) lr s = (Raise ValueError, s).
Proof.
  intros Hnet Hlen Htr Hlast Hne Hne1.
  destruct (trace_ok_last _ _ _ Htr Hlast) as (out & Hout & Hlout).
  pose proof (net_ok_length _ _ Hnet) as Hn. pose proof Hnet as (Hlay & _).
  unfold _back_prop.
  rewrite (bind_Ok _ _ _ _ _ (run_list_last _ _ _ Hout)).
  destruct (Nat.eq_dec lc 1%nat) as [->|Hlc].
  - (* one output neuron: the subtraction broadcasts, a later step fails *)
    destruct out as [|o [|o' out]]; try discriminate.
    assert (Herr : subtract (Arr t) [o] = Ok (map (fun x => x - o) t)).
    { simpl. now apply broadcast_one_r. }
    rewrite (bind_Ok _ _ _ _ _ (run_lift _ _ _ Herr)).
    rewrite (bind_Ok _ _ _ _ _ (run_list_last _ _ _ Hout)).
    assert (Hd0 : multiply (map (fun x => x - o) t) (activity_derivative [o])
                  = Ok (map (fun x => x * tanh_derivative o) (map (fun x => x - o) t))).
    { unfold multiply. simpl. apply broadcast_one_r. now rewrite length_map. }
    rewrite (bind_Ok _ _ _ _ _ (run_lift _ _ _ Hd0)).
    set (d0 := map (fun x => x * tanh_derivative o) (map (fun x => x - o) t)).
    assert (Hld0 : length d0 <> 1%nat) by (unfold d0; now rewrite !length_map).
    rewrite (bind_Ok get _ s s s eq_refl). rewrite Hlay.
    rewrite last_lookup in Hlast.
    destruct (length sizes - 2)%nat as [|h] eqn:Eh.
    + (* no hidden layer: reshaping the delta fails *)
      rewrite (bind_Ok (foldM _ (range_down 0) [d0]) _ s [d0] s eq_refl).
      rewrite (bind_Ok len_weights _ s (length (weights s)) s eq_refl).
      replace (length (weights s)) with 1%nat by lia.
      destruct (trace_ok_hidden sizes (lists s y) 0%nat Htr) as (yi & m0 & Hyi & Hm0 & Hlyi); [lia|].
      unfold for_each, range. simpl seq. unfold foldM. apply bind_Raise.
      rewrite (bind_Ok _ _ _ _ _ (run_list_get _ _ _ _ Hyi)).
      rewrite (bind_Ok _ _ _ _ _ (run_arch_get _ _ _ (net_ok_arch _ _ _ _ Hnet Hm0))).
      rewrite (bind_Ok _ _ _ _ _
                 (run_lift _ _ _ (run_reshape_row yi (Z.of_nat m0 + 1) ltac:(lia)))).
      rewrite (bind_Ok (lift (Ok d0)) _ s d0 s eq_refl).
      replace (Init.Nat.pred (length sizes)) with 1%nat in Hlast by lia.
      rewrite (bind_Ok _ _ _ _ _ (run_arch_get _ _ _ (net_ok_arch _ _ _ _ Hnet Hlast))).
      apply bind_Raise. unfold lift. f_equal.
      apply reshape_row_fails; lia.
    + (* a hidden layer: the product with the transposed matrix fails *)
      rewrite range_down_S.
      destruct (lookup_lt_is_Some_2 (weights s) (S h)) as [w Hw]; [lia|].
      destruct (net_ok_weight _ _ _ _ Hnet Hw) as (m0 & m1 & Hm0 & Hm1 & _ & Hr & Hc).
      replace (Init.Nat.pred (length sizes)) with (S (S h)) in Hlast by lia.
      assert (m1 = 1%nat) as -> by congruence.
      apply bind_Raise. simpl foldM. apply bind_Raise.
      rewrite (bind_Ok _ _ _ _ _ (run_weights_get _ _ _ Hw)).
      apply bind_Raise. unfold lift. f_equal. simpl last.
      apply dot_fails. simpl. congruence.
  - (* several output neurons: the subtraction itself fails *)
    apply bind_Raise. unfold lift. f_equal. simpl.
    apply broadcast_fails; congruence.
Qed.

Lemma init_net_ok sizes s0 :
  (__init__ (map Z.of_nat sizes) s0).1 = Ok tt ->
  net_ok sizes (__init__ (map Z.of_nat sizes) s0).2.
Proof.
  intros Hok. pose proof (init_spec (map Z.of_nat sizes) s0) as H.
  destruct (__init__ (map Z.of_nat sizes) s0) as [[[]|e] s]; [|discriminate].
  destruct H as (Hl & Ha & Hinv & _). simpl.
  repeat split; try assumption; try apply Hinv. now rewrite Hl, length_map.
Qed.

Lemma traced_ok sizes s x n0 :
  net_ok sizes s -> (2 <= length sizes)%nat ->
  sizes !! 0%nat = Some n0 -> length x = n0 ->
  net_ok sizes (traced x s) /\ trace_ok sizes (lists (traced x s) (next_loc s)).
Proof.
  intros Hnet Hlen H0 Hx.
  set (y0 := concatenate (ones 1) x).
  set (s1 := set_next_loc (S (next_loc s)) (set_list (next_loc s) [y0] s)).
  assert (Hnet1 : net_ok sizes s1) by (now apply (net_ok_frame sizes s)).
  assert (Hy0 : length y0 = S n0) by (unfold y0, concatenate; simpl; congruence).
  destruct (forward_prop_total sizes s1 (next_loc s) y0 n0 Hnet1 Hlen H0 Hy0)
    as (s2 & Hrun & Hframe & _ & Htr).
  { unfold s1. simpl. now rewrite Nat.eqb_refl. }
  assert (E : traced x s = s2).
  { unfold traced. change ((_forward_prop (next_loc s) s1).2 = s2). now rewrite Hrun. }
  rewrite E. split; [|assumption].
  eapply net_ok_only_list; eauto.
Qed.

Lemma xor_network_ok : net_ok [2; 2; 1]%nat xor_network.
Proof. apply (init_net_ok [2; 2; 1]%nat). reflexivity. Qed.

(** ** Training *)

#[local] Instance same_calls_preorder : PreOrder same_calls.
Proof.
  split.
  - intros s. reflexivity.
  - intros s1 s2 s3 H1 H2. unfold same_calls in *. congruence.
Qed.

Lemma call_pairs_S k : call_pairs (S k) = call_pairs k ++ [Forward; Backward].
Proof.
  unfold call_pairs. replace (S k) with (k + 1)%nat by lia.
  rewrite repeat_app, concat_app. reflexivity.
Qed.

Lemma forward_prop_calls x : preserves same_calls (_forward_prop x).
Proof. intros s. apply (forward_prop_only_list x s). Qed.

Lemma back_prop_calls y target lr : preserves same_calls (_back_prop y target lr).
Proof. intros s. apply (back_prop_only_weights y target lr s). Qed.

Lemma random_randint_calls n : preserves same_calls (random_randint n).
Proof. intros s. unfold random_randint. now destruct (randint n (rng s)). Qed.

Lemma counted_calls {A} c (m : M A) s :
  preserves same_calls m ->
  match counted c m s with
  | (Ok _, s') => calls s' = calls s ++ [c]
  | (Raise _, s') => calls s' = calls s
  end.
Proof.
  intros Hm. specialize (Hm s). unfold counted, bind, modify, ret.
  destruct (m s) as [[a|e] s1]; simpl in *; [|exact Hm].
  now rewrite Hm.
Qed.

(** One iteration of [fit]: a call of [_forward_prop], then a call of
    [_back_prop], unless something raises. *)
Lemma fit_iteration_calls Z labels lr s :
  match (s0 <- get ;;
         sample <- random_randint (nrows (X s0)) ;;
         z <- lift (getrow Z sample) ;;
         x <- list_new [z] ;;
         y <- counted Forward (_forward_prop x) ;;
         target <- lift (label_at labels sample) ;;
         counted Backward (_back_prop y target lr)) s with
  | (Ok _, s') => calls s' = calls s ++ [Forward; Backward]
  | (Raise _, s') => calls s' = calls s \/ calls s' = calls s ++ [Forward]
  end.
Proof.
  unfold bind at 1. unfold get. unfold bind at 1.
  pose proof (random_randint_calls (nrows (X s)) s) as H1.
  destruct (random_randint (nrows (X s)) s) as [[sample|e] s1]; simpl in H1; [|now left].
  unfold bind at 1. unfold lift at 1.
  destruct (getrow Z sample) as [z|e]; [|now left].
  rewrite (bind_Ok (list_new [z]) _ s1 _ _ eq_refl).
  assert (H2 : same_calls s1 (set_next_loc (S (next_loc s1)) (set_list (next_loc s1) [z] s1)))
    by reflexivity.
  remember (set_next_loc (S (next_loc s1)) (set_list (next_loc s1) [z] s1)) as s2 eqn:Es2.
  remember (next_loc s1) as x eqn:Ex. clear Es2 Ex.
  unfold bind at 1.
  pose proof (counted_calls Forward (_forward_prop x) s2 (forward_prop_calls x)) as H3.
  destruct (counted Forward (_forward_prop x) s2) as [[y|e] s3].
  2:{ cbn beta iota. left. unfold same_calls in *. simpl in *. congruence. }
  unfold bind at 1. unfold lift at 1.
  destruct (label_at labels sample) as [target|e].
  2:{ cbn beta iota. right. unfold same_calls in *. simpl in *. congruence. }
  cbn beta iota.
  pose proof (counted_calls Backward (_back_prop y target lr) s3
                (back_prop_calls y target lr)) as H4.
  destruct (counted Backward (_back_prop y target lr) s3) as [[[]|e] s4].
  - cbn beta iota. unfold same_calls in *. simpl in *.
    rewrite H4, H3, H2, H1, <- app_assoc. reflexivity.
  - cbn beta iota. right. unfold same_calls in *. simpl in *. congruence.
Qed.

(** [fit] has no convergence check and no early stop: when it returns it
    has made exactly [epochs] pairs of calls, and it makes fewer only when
    a call raises. *)
Lemma fit_calls data labels lr epochs s :
  match fit data labels lr epochs s with
  | (Ok _, s') => calls s' = calls s ++ call_pairs epochs
  | (Raise _, s') =>
      exists k, (k < epochs \/ epochs = 0)%nat /\
        (calls s' = calls s ++ call_pairs k \/
         calls s' = calls s ++ call_pairs k ++ [Forward])
  end.
Proof.
  unfold fit. unfold bind at 1. unfold lift at 1.
  destruct (concatenate1 _ data) as [Z|e].
  2:{ exists 0%nat. split; [destruct epochs; lia|]. left. simpl. now rewrite app_nil_r. }
  unfold for_each.
  pose proof (foldM_rule
    (fun (_ : unit) (k : nat) =>
       s0 <- get ;;
       sample <- random_randint (nrows (X s0)) ;;
       z <- lift (getrow Z sample) ;;
       x <- list_new [z] ;;
       y <- counted Forward (_forward_prop x) ;;
       target <- lift (label_at labels sample) ;;
       counted Backward (_back_prop y target lr))
    (range epochs)
    (fun k _ s' => calls s' = calls s ++ call_pairs k)
    (fun _ s' => exists k, (k < epochs \/ epochs = 0)%nat /\
        (calls s' = calls s ++ call_pairs k \/
         calls s' = calls s ++ call_pairs k ++ [Forward])) tt s) as Hloop.
  rewrite range_length in Hloop. apply Hloop.
  - simpl. now rewrite app_nil_r.
  - intros k i [] s1 Hk Hinv. apply range_lookup in Hk as [-> Hk].
    pose proof (fit_iteration_calls Z labels lr s1) as H.
    cbn beta.
    match type of H with match ?m with _ => _ end => destruct m as [[[]|e] s2] end.
    + rewrite H, Hinv, call_pairs_S, <- app_assoc. reflexivity.
    + exists k. split; [lia|]. destruct H as [H|H]; rewrite H, Hinv.
      * now left.
      * right. now rewrite <- app_assoc.
Qed.

Lemma run_random_randint n s :
  (0 < n)%nat ->
  random_randint n s
    = (Ok (integer (rng s) (cursor (rng s)) n), set_rng (advance 1 (rng s)) s).
Proof.
  intros Hn. unfold random_randint, randint.
  destruct (Nat.eqb_spec n 0); [lia|reflexivity].
Qed.

Lemma run_counted {A} c (m : M A) s a s' :
  m s = (Ok a, s') -> counted c m s = (Ok a, set_calls (calls s' ++ [c]) s').
Proof. intros H. unfold counted, bind, modify, ret. now rewrite H. Qed.

(** The array [Z] of [fit]: the rows of [data], each with the bias in
    front. *)
Lemma fit_bias_rows data :
  wf data ->
  exists Z, concatenate1 (T (ones2 1 (nrows data))) data = Ok Z /\
    forall i, (i < nrows data)%nat ->
      exists r, rows data !! i = Some r /\
        rows Z !! i = Some (concatenate (ones 1) r).
Proof.
  intros [Hlen Hrows]. unfold concatenate1. simpl. rewrite Nat.eqb_refl.
  eexists. split; [reflexivity|]. simpl.
  intros i Hi. destruct (lookup_lt_is_Some_2 (rows data) i) as [r Hr]; [lia|].
  exists r. split; [assumption|].
  rewrite lookup_zip_with, lookup_map, lookup_seq_lt, Hr by assumption. simpl.
  unfold column. simpl. now rewrite (nth_repeat_lt 1 0 Hi).
Qed.

(** On a well-shaped network, with data as wide as the first layer, at
    least as many rows and labels as the global [X] has rows, and a
    generator that keeps its contract, [fit] returns. *)
Lemma fit_total sizes s data labels lr epochs n0 lc :
  net_ok sizes s -> (2 <= length sizes)%nat ->
  sizes !! 0%nat = Some n0 -> last sizes = Some lc ->
  wf data -> ncols data = n0 ->
  (0 < nrows (X s) <= nrows data)%nat ->
  labels_ok labels (nrows (X s)) lc ->
  valid_generator (rng s) ->
  exists s', fit data labels lr epochs s = (Ok tt, s') /\ net_ok sizes s'.
Proof.
  intros Hnet Hlen H0 Hlast Hwf Hcols HX Hlabels [_ Hint].
  destruct (fit_bias_rows data Hwf) as (Z & HZ & Hrows).
  unfold fit. rewrite (bind_Ok _ _ _ _ _ (run_lift _ _ _ HZ)).
  unfold for_each.
  pose proof (foldM_rule
    (fun (_ : unit) (k : nat) =>
       s0 <- get ;;
       sample <- random_randint (nrows (X s0)) ;;
       z <- lift (getrow Z sample) ;;
       x <- list_new [z] ;;
       y <- counted Forward (_forward_prop x) ;;
       target <- lift (label_at labels sample) ;;
       counted Backward (_back_prop y target lr))
    (range epochs)
    (fun k _ s' => net_ok sizes s' /\ X s' = X s /\ integer (rng s') = integer (rng s))
    (fun _ _ => False) tt s) as Hloop.
  match type of Hloop with ?P -> ?Q -> _ => assert (I0 : P); [|assert (Hstep : Q)] end.
  - split; [exact Hnet|]. now split.
  - intros k i [] s1 _ (Hnet1 & HX1 & Hint1).
    rewrite (bind_Ok get _ s1 s1 s1 eq_refl). rewrite HX1.
    rewrite (bind_Ok _ _ _ _ _ (run_random_randint (nrows (X s)) s1 ltac:(lia))).
    set (sample := integer (rng s1) (cursor (rng s1)) (nrows (X s))).
    assert (Hsample : (sample < nrows (X s))%nat).
    { unfold sample. rewrite Hint1. apply Hint. lia. }
    destruct (Hrows sample ltac:(lia)) as (r & Hr & Hz).
    assert (Hlr : length r = n0).
    { destruct Hwf as [_ Hall]. rewrite Forall_lookup in Hall.
      rewrite <- Hcols. eapply Hall; eauto. }
    assert (Hget : getrow Z sample = Ok (concatenate (ones 1) r)).
    { unfold getrow. now rewrite Hz. }
    rewrite (bind_Ok _ _ _ _ _ (run_lift _ _ _ Hget)).
    set (s2 := set_rng (advance 1 (rng s1)) s1).
    rewrite (bind_Ok (list_new [concatenate (ones 1) r]) _ s2 _ _ eq_refl).
    set (s3 := set_next_loc (S (next_loc s2))
                 (set_list (next_loc s2) [concatenate (ones 1) r] s2)).
    set (x := next_loc s2).
    assert (Hnet3 : net_ok sizes s3) by (now apply (net_ok_frame sizes s1)).
    destruct (forward_prop_total sizes s3 x (concatenate (ones 1) r) n0 Hnet3 Hlen H0)
      as (s4 & Hrun4 & Hframe4 & _ & Htr4).
    { unfold concatenate. simpl. congruence. }
    { unfold s3, x. simpl. now rewrite Nat.eqb_refl. }
    rewrite (bind_Ok _ _ _ _ _ (run_counted Forward _ _ _ _ Hrun4)).
    destruct (Hlabels sample Hsample) as (target & Htarget & Htok).
    rewrite (bind_Ok _ _ _ _ _ (run_lift _ _ _ Htarget)).
    set (s5 := set_calls (calls s4 ++ [Forward]) s4).
    assert (Hnet4 : net_ok sizes s4) by (eapply net_ok_only_list; eauto).
    assert (Hnet5 : net_ok sizes s5) by (now apply (net_ok_frame sizes s4)).
    destruct (trace_ok_last _ _ _ Htr4 Hlast) as (out & Hout & _).
    destruct (back_prop_total sizes s5 x target lr lc out Hnet5 Hlen Htr4 Hlast Hout Htok)
      as (s6 & _ & _ & _ & _ & Hrun6 & Hnet6 & Hframe6 & _).
    rewrite (run_counted Backward _ _ _ _ Hrun6).
    destruct Hframe4 as (_ & _ & _ & HX4 & _ & Hrng4 & _).
    destruct Hframe6 as (_ & _ & HX6 & _ & _ & Hrng6 & _).
    split; [now apply (net_ok_frame sizes s6)|]. simpl in *. split.
    + now rewrite HX6, HX4.
    + now rewrite Hrng6, Hrng4.
  - specialize (Hloop I0 Hstep).
    destruct (foldM _ _ tt s) as [[[]|e] s1]; [|contradiction].
    exists s1. split; [reflexivity|]. apply Hloop.
Qed.

Lemma updates_app cs1 cs2 : updates (cs1 ++ cs2) = (updates cs1 + updates cs2)%nat.
Proof. unfold updates. now rewrite List.filter_app, length_app. Qed.

Lemma updates_call_pairs k : updates (call_pairs k) = k.
Proof.
  induction k as [|k IH]; [reflexivity|].
  rewrite call_pairs_S, updates_app, IH. unfold updates. simpl. lia.
Qed.


Lemma xor_network_generator : valid_generator (rng xor_network).
Proof.
  split.
  - intros k. run. lra.
  - intros k n Hn. change (n - 1 < n)%nat. lia.
Qed.

Lemma notebook_labels_ok : labels_ok notebook_y 4 1.
Proof.
  intros i Hi. destruct i as [|[|[|[|i]]]]; try lia; eexists; (split; [reflexivity|exact I]).
Qed.



(** C4, the defect.  The index of the sample is drawn below the number of
    rows of the global [X], not of the [data] given to [fit].  With the
    notebook's [X] of four rows, two rows of data and a generator that
    keeps its contract and draws 3, the first iteration indexes the data
    out of range: [fit] raises [IndexError] and no weight is updated. *)
Theorem fit_draws_below_rows_of_global_X :
  nrows (X xor_network) = 4%nat /\ nrows short_data = 2%nat /\
  valid_generator (rng xor_network) /\
  integer (rng xor_network) (cursor (rng xor_network)) (nrows (X xor_network)) = 3%nat /\
  (fit short_data short_labels (1 / 10) 1 xor_network).1 = Raise IndexError /\
  weights (fit short_data short_labels (1 / 10) 1 xor_network).2 = weights xor_network /\
  calls (fit short_data short_labels (1 / 10) 1 xor_network).2 = [].
Proof.
  split; [reflexivity|]. split; [reflexivity|]. split; [exact xor_network_generator|].
  repeat split; reflexivity.
Qed.

(** ** Prediction on a batch *)

(** With more than one output neuron [predict] cannot stack the first
    sample: [np.vstack] refuses a row of one column under an accumulator of
    [lc] columns. *)
Lemma predict_raises_beyond_one_output sizes s x Xs n0 lc :
  net_ok sizes s -> (2 <= length sizes)%nat ->
  sizes !! 0%nat = Some n0 -> last sizes = Some lc -> (2 <= lc)%nat ->
  length x = n0 ->
  predict (x :: Xs) s = (Raise ValueError, s).
Proof.
  intros Hnet Hlen H0 Hlast Hlc Hx.
  assert (Ha : last (arch s) = Some (Z.of_nat lc)).
  { destruct Hnet as (_ & -> & _). change (map Z.of_nat sizes) with (Z.of_nat <$> sizes).
    now rewrite fmap_last, Hlast. }
  destruct (forward_and_predict sizes s x n0 lc Hnet Hlen H0 Hx Hlast)
    as (_ & out & _ & _ & Hlout & Hp).
  destruct out as [|o out]; [simpl in Hlout; lia|].
  unfold predict.
  rewrite (bind_Ok arch_last _ s (Z.of_nat lc) s)
    by (unfold arch_last, bind, get; now rewrite Ha).
  assert (Hy : empty_reshape (Z.of_nat lc) = Ok (Mat 0 lc [])).
  { unfold empty_reshape. destruct (Z.leb_spec 0 (Z.of_nat lc)); [|lia].
    now rewrite Nat2Z.id. }
  rewrite (bind_Ok _ _ _ _ _ (run_lift _ _ _ Hy)).
  simpl foldM. apply bind_Raise. rewrite (bind_Ok _ _ _ _ _ Hp).
  unfold lift, vstack. simpl.
  destruct (Nat.eqb_spec lc 1); [lia|reflexivity].
Qed.

(** C10 (as amended).  On a well-shaped network whose output layer has at
    least two neurons and an input of the size of the first layer,
    [predict_single_data] puts the bias in front of the output layer's
    activation too and returns the entry at index 1 alone: one number, the
    value of the first output neuron; the other output neurons are
    dropped.  On a network with a single output neuron, [predict] stacks
    that number, one row per sample, into an array of shape (n, 1). *)
Theorem predict_first_output_only sizes s n0 lc :
  net_ok sizes s -> (2 <= length sizes)%nat ->
  sizes !! 0%nat = Some n0 -> last sizes = Some lc ->
  ((2 <= lc)%nat -> forall x, length x = n0 ->
     exists s2 o rest,
       (y <- list_new [concatenate (ones 1) x] ;; _forward_prop y) s
         = (Ok (next_loc s), s2) /\
       last (lists s2 (next_loc s)) = Some (o :: rest) /\ rest <> [] /\
       item (concatenate (ones 1) (o :: rest)) 1 = Ok o /\
       predict_single_data x s = (Ok o, s)) /\
  (lc = 1%nat -> forall Xs, Forall (fun x => length x = n0) Xs ->
     exists Y, predict Xs s = (Ok Y, s) /\ shape Y = (length Xs, 1%nat) /\ wf Y /\
       forall i x, Xs !! i = Some x ->
         exists o, predict_single_data x s = (Ok o, s) /\ rows Y !! i = Some [o]).
Proof.
  intros Hnet Hlen H0 Hlast. split.
  - intros Hlc x Hx.
    destruct (forward_and_predict sizes s x n0 lc Hnet Hlen H0 Hx Hlast)
      as (s2 & out & Hrun & Hout & Hl & Hp).
    destruct out as [|o [|o' rest]]; simpl in Hl; try lia.
    exists s2, o, (o' :: rest). repeat split; try assumption. discriminate.
  - intros -> Xs HXs. now apply (predict_total sizes s Xs n0).
Qed.

Lemma biased_network_ok : net_ok [1; 1]%nat biased_network.
Proof.
  apply (network_one_matrix_ok 1 1); [|reflexivity|reflexivity].
  split; [reflexivity|]. repeat constructor.
Qed.

Lemma predict_first_output_only_witness :
  (exists s2 o rest,
     (y <- list_new [concatenate (ones 1) [1]] ;; _forward_prop y) two_outputs
       = (Ok (next_loc two_outputs), s2) /\
     last (lists s2 (next_loc two_outputs)) = Some (o :: rest) /\ rest <> [] /\
     item (concatenate (ones 1) (o :: rest)) 1 = Ok o /\
     predict_single_data [1] two_outputs = (Ok o, two_outputs)) /\
  (exists Y, predict [[0]; [1]] biased_network = (Ok Y, biased_network) /\
     shape Y = (2, 1)%nat /\ wf Y /\
     forall i x, [[0]; [1]] !! i = Some x ->
       exists o, predict_single_data x biased_network = (Ok o, biased_network) /\
         rows Y !! i = Some [o]).
Proof.
  split.
  - apply (predict_first_output_only [1; 2]%nat two_outputs 1 2 two_outputs_ok);
      [simpl; lia | reflexivity | reflexivity | lia | reflexivity].
  - apply (predict_first_output_only [1; 1]%nat biased_network 1 1 biased_network_ok);
      [simpl; lia | reflexivity | reflexivity | reflexivity | repeat constructor].
Defined.

(** C10, the claim as the specification words it, fails on its second
    half: with two output neurons the accumulator of [predict] has shape
    (0, 2), the row made of the number returned for the first sample has
    shape (1, 1), and [np.vstack] raises [ValueError]; no array of shape
    (n, 1) is returned. *)
Lemma predict_raises_with_two_outputs :
  last (arch two_outputs) = Some 2%Z /\
  predict_single_data [1] two_outputs
    = (Ok (Rtrigo_def.tanh (1 * 0 + (1 * 0 + 0))), two_outputs) /\
  predict [[1]] two_outputs = (Raise ValueError, two_outputs).
Proof. repeat split. Qed.

(** ** The derivative routine *)

Lemma cosh_opp x : cosh (- x) = cosh x.
Proof. unfold cosh. rewrite Ropp_involutive. lra. Qed.

Lemma cosh_ge_1 x : 1 <= (cosh x) ^ 2.
Proof.
  pose proof (cosh2_sinh2 x). pose proof (pow2_ge_0 (sinh x)). lra.
Qed.

Lemma tanh_derivative_even x : tanh_derivative (- x) = tanh_derivative x.
Proof. unfold tanh_derivative. now rewrite cosh_opp. Qed.

Lemma cosh_1_lt_2 : cosh 1 < 2.
Proof.
  unfold cosh. pose proof exp_le_3 as H3.
  pose proof (exp_increasing (Ropp 1) 0 ltac:(lra)) as H1. rewrite exp_0 in H1.
  lra.
Qed.

Lemma tanh_lt_1 x : -1 < Rtrigo_def.tanh x < 1.
Proof.
  unfold Rtrigo_def.tanh.
  pose proof (cosh_pos x) as Hc.
  assert (Hs : - cosh x < sinh x < cosh x).
  { unfold cosh, sinh. pose proof (exp_pos x). pose proof (exp_pos (- x)). lra. }
  split.
  - apply Rmult_lt_reg_r with (cosh x); [exact Hc|].
    unfold Rdiv. rewrite Rmult_assoc, Rinv_l by lra. lra.
  - apply Rmult_lt_reg_r with (cosh x); [exact Hc|].
    unfold Rdiv. rewrite Rmult_assoc, Rinv_l by lra. lra.
Qed.

Lemma tanh_increasing x y : x < y -> Rtrigo_def.tanh x < Rtrigo_def.tanh y.
Proof.
  intros Hxy. unfold Rtrigo_def.tanh.
  pose proof (cosh_pos x) as Hcx. pose proof (cosh_pos y) as Hcy.
  assert (H : sinh x * cosh y < sinh y * cosh x).
  { unfold sinh, cosh.
    pose proof (exp_pos x) as Ha. pose proof (exp_pos y) as Hb.
    pose proof (exp_pos (- x)) as Hia. pose proof (exp_pos (- y)) as Hib.
    pose proof (exp_increasing x y Hxy) as Hab.
    assert (Hiab : exp (- y) < exp (- x)) by (apply exp_increasing; lra).
    nra. }
  apply Rmult_lt_reg_r with (cosh x * cosh y).
  { now apply Rmult_lt_0_compat. }
  replace (sinh x / cosh x * (cosh x * cosh y)) with (sinh x * cosh y) by (field; lra).
  replace (sinh y / cosh y * (cosh x * cosh y)) with (sinh y * cosh x) by (field; lra).
  exact H.
Qed.

Lemma tanh_derivative_pos x : 0 < tanh_derivative x.
Proof.
  unfold tanh_derivative. pose proof (cosh_pos x).
  apply Rdiv_lt_0_compat; [lra|]. simpl. nra.
Qed.

(** X1. [tanh_derivative] is what its name says: at every [x], the
    derivative of [tanh] at [x] is [1 / cosh(x) ** 2]. *)
Theorem tanh_derivative_is_the_derivative (x : R) :
  derivable_pt_lim Rtrigo_def.tanh x (tanh_derivative x).
Proof.
  pose proof (cosh_pos x) as Hc.
  assert (Hne : cosh x <> 0) by lra.
  pose proof (derivable_pt_lim_div sinh cosh x (cosh x) (sinh x)
                (derivable_pt_lim_sinh x) (derivable_pt_lim_cosh x) Hne) as H.
  replace (tanh_derivative x)
    with ((cosh x * cosh x - sinh x * sinh x) / (cosh x)²).
  - exact H.
  - unfold tanh_derivative, Rsqr. pose proof (cosh2_sinh2 x) as E.
    replace (cosh x * cosh x - sinh x * sinh x) with 1 by (simpl in E; lra).
    simpl. now rewrite Rmult_1_r.
Qed.

(** X2. The values of [tanh_derivative], in exact arithmetic: positive and
    at most 1, the same at [x] and [-x]; on an activation, which is never
    outside [-1, 1], at least [tanh_derivative(1)], which is above one
    quarter. So the factor by which [_back_prop] multiplies an error, the
    routine applied to an activation, is never below one quarter. *)
Theorem tanh_derivative_range (x : R) :
  0 < tanh_derivative x <= 1 /\
  tanh_derivative (- x) = tanh_derivative x /\
  (-1 <= x <= 1 -> 1 / 4 < tanh_derivative 1 <= tanh_derivative x).
Proof.
  pose proof (cosh_pos x) as Hc. pose proof (cosh_ge_1 x) as H1.
  assert (Hp : 0 < cosh x ^ 2) by lra.
  split; [|split].
  - unfold tanh_derivative. split.
    + apply Rdiv_lt_0_compat; lra.
    + apply Rmult_le_reg_r with (cosh x ^ 2); [exact Hp|].
      unfold Rdiv. rewrite Rmult_assoc, Rinv_l by lra. lra.
  - apply tanh_derivative_even.
  - intros Hx. split.
    + unfold tanh_derivative. pose proof cosh_1_lt_2 as H2. pose proof (cosh_pos 1) as H0.
      assert (H4 : cosh 1 ^ 2 < 4) by (simpl; nra).
      assert (Hq : 0 < cosh 1 ^ 2) by (simpl; nra).
      apply Rmult_lt_reg_r with (cosh 1 ^ 2); [exact Hq|].
      unfold Rdiv at 2. rewrite Rmult_assoc, Rinv_l by lra. lra.
    + assert (Hpos : forall u, 0 <= u <= 1 -> tanh_derivative 1 <= tanh_derivative u).
      { intros u [Hu0 Hu1]. destruct (Req_dec u 1) as [->|Hne]; [lra|].
        apply Rlt_le. apply tanh_derivative_decreases. lra. }
      destruct (Rle_dec 0 x) as [H0|H0].
      * apply Hpos. lra.
      * rewrite <- (tanh_derivative_even x). apply Hpos. lra.
Qed.

Lemma tanh_derivative_range_witness :
  1 / 4 < tanh_derivative 1 <= tanh_derivative (1 / 2).
Proof.
  destruct (tanh_derivative_range (1 / 2)) as (_ & _ & H). apply H. lra.
Defined.

(** ** Reading without writing *)

#[local] Instance unchanged_preorder : PreOrder unchanged.
Proof.
  split; [intros s; reflexivity|].
  intros s1 s2 s3 H1 H2. unfold unchanged in *. congruence.
Qed.

Lemma predict_single_data_unchanged x : preserves unchanged (predict_single_data x).
Proof. unfold predict_single_data. repeat preserves_step. Qed.

Lemma predict_unchanged Xs : preserves unchanged (predict Xs).
Proof.
  unfold predict. repeat preserves_step.
Qed.

(** X3. [predict_single_data], [predict] and [__call__] only read: whatever
    they are given and whether they return or raise, the attributes of
    [self], the global, the lists and [np.random] are left as they were. *)
Theorem predict_changes_nothing (s : pystate) :
  (forall x, (predict_single_data x s).2 = s) /\
  (forall Xs, (predict Xs s).2 = s) /\
  (forall Xs, (__call__ Xs s).2 = s).
Proof.
  split; [|split].
  - intros x. apply (predict_single_data_unchanged x s).
  - intros Xs. apply (predict_unchanged Xs s).
  - intros Xs. apply (predict_unchanged Xs s).
Qed.

(** ** Inputs of the wrong size *)

Lemma activity_range v : Forall (fun e => -1 <= e <= 1) (activity v).
Proof.
  unfold activity, np.tanh. apply List.Forall_map.
  apply Forall_forall. intros a _. pose proof (tanh_lt_1 a). lra.
Qed.

Lemma activations_range ws v :
  Forall (Forall (fun e => -1 <= e <= 1)) (activations ws v).
Proof.
  revert v. induction ws as [|w ws IH]; intros v; [constructor|].
  simpl. destruct ws as [|w' ws'].
  - repeat constructor. apply activity_range.
  - constructor; [|apply IH].
    constructor; [lra|apply activity_range].
Qed.

Lemma activations_bias ws v k u :
  activations ws v !! k = Some u -> (S k < length ws)%nat -> exists r, u = 1 :: r.
Proof.
  revert v k. induction ws as [|w ws IH]; intros v k Hu Hk; [simpl in Hk; lia|].
  simpl in Hu. destruct ws as [|w' ws']; [simpl in Hk; lia|].
  destruct k as [|k].
  - injection Hu as <-. eexists. reflexivity.
  - simpl in Hu. apply (IH _ k Hu). simpl in *. lia.
Qed.

Lemma net_ok_first_weight sizes s n0 :
  net_ok sizes s -> (2 <= length sizes)%nat -> sizes !! 0%nat = Some n0 ->
  exists w ws, weights s = w :: ws /\ nrows w = S n0.
Proof.
  intros Hnet Hlen H0. pose proof (net_ok_length _ _ Hnet) as Hn.
  destruct (weights s) as [|w ws] eqn:E; [simpl in Hn; lia|].
  exists w, ws. split; [reflexivity|].
  destruct (net_ok_weight sizes s 0 w Hnet) as (m0 & m1 & Hm0 & _ & _ & Hr & _).
  { now rewrite E. }
  congruence.
Qed.

Lemma predict_single_data_wrong_length sizes s x n0 :
  net_ok sizes s -> (2 <= length sizes)%nat -> sizes !! 0%nat = Some n0 ->
  length x <> n0 -> predict_single_data x s = (Raise ValueError, s).
Proof.
  intros Hnet Hlen H0 Hx.
  destruct (net_ok_first_weight _ _ _ Hnet Hlen H0) as (w & ws & Hw & Hr).
  unfold predict_single_data.
  rewrite (bind_Ok len_weights _ s (length (weights s)) s eq_refl).
  rewrite Hw. simpl length. unfold range. simpl seq. simpl foldM.
  apply bind_Raise. apply bind_Raise.
  rewrite (bind_Ok _ _ _ _ _ (run_weights_get 0 s w ltac:(now rewrite Hw))).
  apply bind_Raise. unfold lift. rewrite dot_fails; [reflexivity|].
  unfold concatenate. simpl. lia.
Qed.

(** On a well-shaped network with an output neuron and an input of the
    size of the first layer, [predict_single_data] returns a value of
    [tanh]. *)
Lemma predict_single_data_in_range sizes s x n0 lc :
  net_ok sizes s -> (2 <= length sizes)%nat ->
  sizes !! 0%nat = Some n0 -> last sizes = Some lc ->
  length x = n0 -> (0 < lc)%nat ->
  exists o, predict_single_data x s = (Ok o, s) /\ -1 <= o <= 1.
Proof.
  intros Hnet Hlen H0 Hlast Hx Hlc.
  set (y0 := concatenate (ones 1) x).
  assert (Hy0 : length y0 = S n0) by (unfold y0, concatenate; simpl; congruence).
  destruct (trace_ok_last sizes _ lc
              (activations_trace_ok _ _ _ _ Hnet Hlen H0 Hy0) Hlast) as (out & Hout & Hl).
  rewrite (predict_single_data_total sizes s x n0 out Hnet Hlen H0 Hx Hout).
  destruct out as [|o out]; [simpl in Hl; lia|].
  exists o. split; [reflexivity|].
  pose proof (net_ok_length _ _ Hnet) as Hn.
  rewrite last_lookup in Hout. simpl length in Hout.
  rewrite activations_length in Hout. simpl in Hout.
  destruct (length (weights s)) as [|m] eqn:Em; [lia|].
  simpl in Hout.
  pose proof (activations_range (weights s) y0) as Hr.
  rewrite Forall_lookup in Hr. specialize (Hr _ _ Hout).
  now inversion Hr.
Qed.

(** X4. What [predict_single_data] does on a well-shaped network, by the
    input: an input that has not the size of the first layer makes [np.dot]
    raise [ValueError]; on a network with an empty output layer [val[1]]
    raises [IndexError]; otherwise a number is returned, never outside [-1,
    1]. The state is left as it was in all three cases. *)
Theorem predict_single_data_outcome sizes s n0 lc :
  net_ok sizes s -> (2 <= length sizes)%nat ->
  sizes !! 0%nat = Some n0 -> last sizes = Some lc ->
  (forall x, length x <> n0 -> predict_single_data x s = (Raise ValueError, s)) /\
  (forall x, length x = n0 -> lc = 0%nat ->
     predict_single_data x s = (Raise IndexError, s)) /\
  (forall x, length x = n0 -> (0 < lc)%nat ->
     exists o, predict_single_data x s = (Ok o, s) /\ -1 <= o <= 1).
Proof.
  intros Hnet Hlen H0 Hlast. split; [|split].
  - intros x Hx. now apply (predict_single_data_wrong_length sizes s x n0).
  - intros x Hx ->.
    set (y0 := concatenate (ones 1) x).
    assert (Hy0 : length y0 = S n0) by (unfold y0, concatenate; simpl; congruence).
    destruct (trace_ok_last sizes _ 0%nat
                (activations_trace_ok _ _ _ _ Hnet Hlen H0 Hy0) Hlast) as (out & Hout & Hl).
    rewrite (predict_single_data_total sizes s x n0 out Hnet Hlen H0 Hx Hout).
    destruct out; [reflexivity|discriminate].
  - intros x Hx Hlc. now apply (predict_single_data_in_range sizes s x n0 lc).
Qed.

Lemma no_output_ok : net_ok [1; 0]%nat no_output.
Proof.
  apply (network_one_matrix_ok 1 0); [|reflexivity|reflexivity].
  split; [reflexivity|]. repeat constructor.
Qed.

Lemma predict_single_data_outcome_witness :
  predict_single_data [] two_outputs = (Raise ValueError, two_outputs) /\
  predict_single_data [1] no_output = (Raise IndexError, no_output) /\
  exists o, predict_single_data [1] two_outputs = (Ok o, two_outputs) /\ -1 <= o <= 1.
Proof.
  split; [|split].
  - destruct (predict_single_data_outcome [1; 2]%nat two_outputs 1 2 two_outputs_ok
                ltac:(simpl; lia) eq_refl eq_refl) as (H & _ & _).
    apply H. simpl. lia.
  - destruct (predict_single_data_outcome [1; 0]%nat no_output 1 0 no_output_ok
                ltac:(simpl; lia) eq_refl eq_refl) as (_ & H & _).
    apply H; reflexivity.
  - destruct (predict_single_data_outcome [1; 2]%nat two_outputs 1 2 two_outputs_ok
                ltac:(simpl; lia) eq_refl eq_refl) as (_ & _ & H).
    apply H; [reflexivity|lia].
Defined.

Lemma forward_prop_empty_list x s :
  lists s x = [] -> _forward_prop x s = (Raise IndexError, s).
Proof.
  intros Hx. unfold _forward_prop.
  rewrite (bind_Ok len_weights _ s (length (weights s)) s eq_refl).
  destruct (length (weights s) - 1)%nat as [|m] eqn:Em.
  - unfold range. simpl seq. unfold for_each. simpl foldM.
    rewrite (bind_Ok (ret tt) _ s tt s eq_refl).
    apply bind_Raise. unfold list_last, bind, get, raise. now rewrite Hx.
  - unfold range. simpl seq. unfold for_each. simpl foldM.
    apply bind_Raise. apply bind_Raise. apply bind_Raise.
    unfold list_get, bind, get, raise. now rewrite Hx.
Qed.

Lemma forward_prop_wrong_length sizes s x y0 n0 :
  net_ok sizes s -> (2 <= length sizes)%nat -> sizes !! 0%nat = Some n0 ->
  lists s x = [y0] -> length y0 <> S n0 ->
  _forward_prop x s = (Raise ValueError, s).
Proof.
  intros Hnet Hlen H0 Hx Hy0.
  destruct (net_ok_first_weight _ _ _ Hnet Hlen H0) as (w & ws & Hw & Hr).
  unfold _forward_prop.
  rewrite (bind_Ok len_weights _ s (length (weights s)) s eq_refl).
  rewrite Hw.
  destruct ws as [|w1 ws].
  - unfold range. simpl length. simpl seq. unfold for_each. simpl foldM.
    rewrite (bind_Ok (ret tt) _ s tt s eq_refl).
    rewrite (bind_Ok _ _ _ _ _ (run_list_last x s y0 ltac:(now rewrite Hx))).
    rewrite (bind_Ok _ _ _ _ _ (run_weights_last s w ltac:(now rewrite Hw))).
    apply bind_Raise. unfold lift. rewrite dot_fails; [reflexivity|congruence].
  - unfold range. simpl length. simpl Nat.sub. simpl seq. unfold for_each. simpl foldM.
    apply bind_Raise. apply bind_Raise.
    rewrite (bind_Ok _ _ _ _ _ (run_list_get x 0 s y0 ltac:(now rewrite Hx))).
    rewrite (bind_Ok _ _ _ _ _ (run_weights_get 0 s w ltac:(now rewrite Hw))).
    apply bind_Raise. unfold lift. rewrite dot_fails; [reflexivity|congruence].
Qed.

(** X5. What [_forward_prop] does on a well-shaped network, by the list it
    is given: an empty list raises [IndexError]; a list whose only array has
    not one entry more than the first layer makes [np.dot] raise
    [ValueError], with the state left as it was; on a list whose only array
    has that size it returns, the list then holds one array per layer, the
    given one first, no entry of the others is outside [-1, 1], and the
    arrays of the hidden layers start with the bias 1. *)
Theorem forward_prop_outcome sizes s x n0 :
  net_ok sizes s -> (2 <= length sizes)%nat -> sizes !! 0%nat = Some n0 ->
  (lists s x = [] -> _forward_prop x s = (Raise IndexError, s)) /\
  (forall y0, lists s x = [y0] -> length y0 <> S n0 ->
     _forward_prop x s = (Raise ValueError, s)) /\
  (forall y0, lists s x = [y0] -> length y0 = S n0 ->
     exists s', _forward_prop x s = (Ok x, s') /\
       length (lists s' x) = length sizes /\
       lists s' x !! 0%nat = Some y0 /\
       forall i u, lists s' x !! S i = Some u ->
         Forall (fun e => -1 <= e <= 1) u /\
         ((S (S i) < length sizes)%nat -> exists r, u = 1 :: r)).
Proof.
  intros Hnet Hlen H0. split; [|split].
  - apply forward_prop_empty_list.
  - intros y0 Hx Hy0. now apply (forward_prop_wrong_length sizes s x y0 n0).
  - intros y0 Hx Hy0.
    destruct (forward_prop_total sizes s x y0 n0 Hnet Hlen H0 Hy0 Hx)
      as (s' & Hrun & _ & Hl & Htr).
    exists s'. split; [assumption|]. split; [apply Htr|].
    rewrite Hl. split; [reflexivity|].
    intros i u Hu. simpl in Hu. split.
    + pose proof (activations_range (weights s) y0) as Hr.
      rewrite Forall_lookup in Hr. exact (Hr _ _ Hu).
    + intros Hi. apply (activations_bias _ _ _ _ Hu).
      rewrite (net_ok_length _ _ Hnet). lia.
Qed.

Lemma three_lists_ok : net_ok [1; 1]%nat three_lists.
Proof.
  apply (net_ok_frame [1; 1]%nat (network [1; 1]%Z [Mat 2 1 [[0]; [0]]]));
    try reflexivity.
  apply (network_one_matrix_ok 1 1); [|reflexivity|reflexivity].
  split; [reflexivity|]. repeat constructor.
Qed.

Lemma forward_prop_outcome_witness :
  _forward_prop 2%nat three_lists = (Raise IndexError, three_lists) /\
  _forward_prop 1%nat three_lists = (Raise ValueError, three_lists) /\
  exists s', _forward_prop 0%nat three_lists = (Ok 0%nat, s') /\
    length (lists s' 0%nat) = 2%nat /\ lists s' 0%nat !! 0%nat = Some [1; 0].
Proof.
  assert (Hlen : (2 <= length [1; 1]%nat)%nat) by (simpl; lia).
  split; [|split].
  - destruct (forward_prop_outcome [1; 1]%nat three_lists 2%nat 1 three_lists_ok Hlen eq_refl)
      as (H & _ & _).
    apply H. reflexivity.
  - destruct (forward_prop_outcome [1; 1]%nat three_lists 1%nat 1 three_lists_ok Hlen eq_refl)
      as (_ & H & _).
    apply (H [1]); [reflexivity|simpl; lia].
  - destruct (forward_prop_outcome [1; 1]%nat three_lists 0%nat 1 three_lists_ok Hlen eq_refl)
      as (_ & _ & H).
    destruct (H [1; 0] eq_refl eq_refl) as (s' & Hrun & Hl & H0 & _).
    exists s'. now repeat split.
Defined.

(** ** A hidden layer without neurons *)

(** Behind a matrix without columns the activations do not depend on what
    was fed in. *)
Lemma activations_cut ws j w v v' :
  ws !! j = Some w -> ncols w = 0%nat -> (S j < length ws)%nat ->
  last (activations ws v) = last (activations ws v').
Proof.
  revert j v v'. induction ws as [|w0 ws IH]; intros j v v' Hw Hc Hj; [discriminate|].
  destruct ws as [|w1 ws]; [simpl in Hj; lia|].
  change (activations (w0 :: w1 :: ws) v)
    with (concatenate (ones 1) (activity (vecmat v w0))
            :: activations (w1 :: ws) (concatenate (ones 1) (activity (vecmat v w0)))).
  change (activations (w0 :: w1 :: ws) v')
    with (concatenate (ones 1) (activity (vecmat v' w0))
            :: activations (w1 :: ws) (concatenate (ones 1) (activity (vecmat v' w0)))).
  destruct j as [|j].
  - injection Hw as ->. unfold vecmat. rewrite Hc. reflexivity.
  - assert (Hne : forall u a, last (a :: activations (w1 :: ws) u)
                             = last (activations (w1 :: ws) u)).
    { intros u a. rewrite last_cons.
      destruct (last (activations (w1 :: ws) u)) eqn:El; [reflexivity|].
      rewrite last_None in El. apply (f_equal length) in El.
      rewrite activations_length in El. discriminate. }
    rewrite !Hne. apply (IH j _ _ Hw Hc). simpl in *. lia.
Qed.

(** X6. A hidden layer without neurons, which the constructor accepts, cuts
    the input off: on a well-shaped network with such a layer
    [predict_single_data] returns the same for all inputs of the size of the
    first layer. *)
Theorem empty_hidden_layer_cuts_input sizes s n0 k x x' :
  net_ok sizes s -> sizes !! 0%nat = Some n0 ->
  sizes !! S k = Some 0%nat -> (S (S k) < length sizes)%nat ->
  length x = n0 -> length x' = n0 ->
  predict_single_data x s = predict_single_data x' s.
Proof.
  intros Hnet H0 Hk Hlen Hx Hx'.
  pose proof (net_ok_length _ _ Hnet) as Hn.
  destruct (lookup_lt_is_Some_2 (weights s) k) as [w Hw]; [lia|].
  destruct (net_ok_weight _ _ _ _ Hnet Hw) as (m0 & m1 & _ & Hm1 & _ & _ & Hc).
  assert (m1 = 0%nat) as -> by congruence.
  assert (Hlast : forall v, exists out,
            last (concatenate (ones 1) v
                    :: activations (weights s) (concatenate (ones 1) v)) = Some out).
  { intros v. rewrite last_lookup. apply lookup_lt_is_Some_2. simpl. lia. }
  destruct (Hlast x) as [out Hout]. destruct (Hlast x') as [out' Hout'].
  rewrite (predict_single_data_total sizes s x n0 out Hnet ltac:(lia) H0 Hx Hout).
  rewrite (predict_single_data_total sizes s x' n0 out' Hnet ltac:(lia) H0 Hx' Hout').
  assert (E : out = out'); [|now rewrite E].
  rewrite last_cons in Hout, Hout'.
  rewrite (activations_cut (weights s) k w _ (concatenate (ones 1) x') Hw Hc) in Hout by lia.
  destruct (last (activations (weights s) (concatenate (ones 1) x'))) eqn:El.
  - congruence.
  - rewrite last_None in El. apply (f_equal length) in El.
    rewrite activations_length in El. simpl in El. lia.
Qed.

Lemma cut_network_ok : net_ok [1; 0; 1]%nat cut_network.
Proof. apply (init_net_ok [1; 0; 1]%nat). reflexivity. Qed.

Lemma empty_hidden_layer_cuts_input_witness :
  predict_single_data [0] cut_network = predict_single_data [1] cut_network.
Proof.
  apply (empty_hidden_layer_cuts_input [1; 0; 1]%nat cut_network 1 0 [0] [1] cut_network_ok);
    try reflexivity.
  simpl. lia.
Defined.

(** ** Networks without weights *)

Lemma run_bias_column data :
  exists Z, concatenate1 (T (ones2 1 (nrows data))) data = Ok Z.
Proof. unfold concatenate1. simpl. rewrite Nat.eqb_refl. eauto. Qed.

Lemma forward_prop_no_weights x s :
  weights s = [] -> _forward_prop x s = (Raise IndexError, s).
Proof.
  intros Hw. unfold _forward_prop.
  rewrite (bind_Ok len_weights _ s (length (weights s)) s eq_refl).
  rewrite Hw. unfold range. simpl length. simpl seq. unfold for_each. simpl foldM.
  rewrite (bind_Ok (ret tt) _ s tt s eq_refl).
  unfold list_last, weights_last, bind, get, raise, ret. cbn beta iota.
  destruct (last (lists s x)); [|reflexivity]. now rewrite Hw.
Qed.

Lemma predict_single_data_no_weights x s :
  weights s = [] ->
  predict_single_data x s
    = (match x with o :: _ => Ok o | [] => Raise IndexError end, s).
Proof.
  intros Hw. unfold predict_single_data.
  rewrite (bind_Ok len_weights _ s (length (weights s)) s eq_refl).
  rewrite Hw. unfold range. simpl foldM.
  unfold bind, ret, lift. now destruct x.
Qed.

Lemma fit_iteration_no_weights Z labels lr s :
  weights s = [] ->
  exists s',
    (s0 <- get ;;
     sample <- random_randint (nrows (X s0)) ;;
     z <- lift (getrow Z sample) ;;
     x <- list_new [z] ;;
     y <- counted Forward (_forward_prop x) ;;
     target <- lift (label_at labels sample) ;;
     counted Backward (_back_prop y target lr)) s
    = (Raise (if (nrows (X s) =? 0)%nat then ValueError else IndexError), s') /\
    weights s' = [].
Proof.
  intros Hw. rewrite (bind_Ok get _ s s s eq_refl).
  destruct (Nat.eqb_spec (nrows (X s)) 0) as [E|E].
  - eexists. split;
      [apply bind_Raise; unfold random_randint, randint; rewrite E; reflexivity
      |exact Hw].
  - rewrite (bind_Ok _ _ _ _ _ (run_random_randint (nrows (X s)) s ltac:(lia))).
    set (s1 := set_rng _ s). set (sample := integer _ _ _).
    destruct (getrow Z sample) as [z|e0] eqn:Ez.
    + rewrite (bind_Ok (lift (Ok z)) _ s1 z s1 eq_refl).
      rewrite (bind_Ok (list_new [z]) _ s1 _ _ eq_refl).
      eexists. split.
      * apply bind_Raise. unfold counted. apply bind_Raise.
        apply forward_prop_no_weights. exact Hw.
      * exact Hw.
    + exists s1. split; [|exact Hw]. apply bind_Raise. unfold lift.
      unfold getrow in Ez. destruct (rows Z !! sample); [discriminate|].
      now injection Ez as <-.
Qed.

Lemma fit_no_weights data labels lr epochs s :
  weights s = [] -> (0 < epochs)%nat ->
  (fit data labels lr epochs s).1
    = Raise (if (nrows (X s) =? 0)%nat then ValueError else IndexError) /\
  weights (fit data labels lr epochs s).2 = [].
Proof.
  intros Hw He. destruct epochs as [|e]; [lia|].
  unfold fit. destruct (run_bias_column data) as [Z HZ].
  rewrite (bind_Ok _ _ _ _ _ (run_lift _ _ _ HZ)).
  unfold range. simpl seq. unfold for_each. simpl foldM.
  destruct (fit_iteration_no_weights Z labels lr s Hw) as (s' & Hrun & Hw').
  rewrite (bind_Raise _ _ _ _ _ Hrun). now split.
Qed.

Lemma init_short net_arch s0 :
  (length net_arch < 2)%nat ->
  __init__ net_arch s0
  = (Ok tt, State (length net_arch) net_arch [] (X s0) (lists s0) (next_loc s0)
              (rng s0) (calls s0)).
Proof.
  intros Hlen. destruct net_arch as [|a [|b l]]; [reflexivity|reflexivity|simpl in Hlen; lia].
Qed.

(** X7. The networks the constructor builds from fewer than two layer sizes:
    it returns, with no weight matrix; on such a network [_forward_prop]
    raises [IndexError] ([self.weights[-1]]) with the state left as it was,
    [predict_single_data] returns the first entry of its input (and raises
    [IndexError] on an empty one), and [fit] with at least one epoch raises:
    [ValueError] from [np.random.randint] when the global [X] has no row,
    [IndexError] otherwise. *)
Theorem network_without_weights net_arch s0 x data labels lr epochs :
  (length net_arch < 2)%nat ->
  let s := (__init__ net_arch s0).2 in
  (__init__ net_arch s0).1 = Ok tt /\ weights s = [] /\
  _forward_prop x s = (Raise IndexError, s) /\
  (forall v, predict_single_data v s
             = (match v with o :: _ => Ok o | [] => Raise IndexError end, s)) /\
  ((0 < epochs)%nat ->
   (fit data labels lr epochs s).1
     = Raise (if (nrows (X s0) =? 0)%nat then ValueError else IndexError) /\
   weights (fit data labels lr epochs s).2 = []).
Proof.
  intros Hlen s. subst s. rewrite (init_short net_arch s0 Hlen). simpl.
  split; [reflexivity|]. split; [reflexivity|]. split; [|split].
  - now apply forward_prop_no_weights.
  - intros v. now apply predict_single_data_no_weights.
  - intros He.
    exact (fit_no_weights data labels lr epochs
             (State (length net_arch) net_arch [] (X s0) (lists s0) (next_loc s0)
                (rng s0) (calls s0)) eq_refl He).
Qed.

Lemma network_without_weights_witness :
  let s := (__init__ [5]%Z (fresh (constant_generator (1 / 2)))).2 in
  (__init__ [5]%Z (fresh (constant_generator (1 / 2)))).1 = Ok tt /\ weights s = [] /\
  _forward_prop 0%nat s = (Raise IndexError, s) /\
  (forall v, predict_single_data v s
             = (match v with o :: _ => Ok o | [] => Raise IndexError end, s)) /\
  ((0 < 1)%nat ->
   (fit notebook_X notebook_y (1 / 10) 1 s).1
     = Raise (if (nrows (X (fresh (constant_generator (1 / 2)))) =? 0)%nat
              then ValueError else IndexError) /\
   weights (fit notebook_X notebook_y (1 / 10) 1 s).2 = []).
Proof.
  apply (network_without_weights [5]%Z (fresh (constant_generator (1 / 2))) 0%nat
           notebook_X notebook_y (1 / 10) 1).
  simpl. lia.
Defined.

(** ** Batches *)

Lemma arch_last_ok sizes s lc :
  net_ok sizes s -> last sizes = Some lc -> arch_last s = (Ok (Z.of_nat lc), s).
Proof.
  intros (_ & Ha & _) Hlast. unfold arch_last, bind, get. rewrite Ha.
  change (map Z.of_nat sizes) with (Z.of_nat <$> sizes).
  now rewrite fmap_last, Hlast.
Qed.

Lemma empty_reshape_ok lc : empty_reshape (Z.of_nat lc) = Ok (Mat 0 lc []).
Proof.
  unfold empty_reshape. destruct (Z.leb_spec 0 (Z.of_nat lc)); [|lia].
  now rewrite Nat2Z.id.
Qed.

Lemma predict_loop_one_output sizes s n0 Xs :
  net_ok sizes s -> (2 <= length sizes)%nat ->
  sizes !! 0%nat = Some n0 -> last sizes = Some 1%nat ->
  ~ Forall (fun x => length x = n0) Xs ->
  forall Y, ncols Y = 1%nat ->
    foldM (fun Y x => v <- predict_single_data x ;; lift (vstack Y (Mat 1 1 [[v]])))
      Xs Y s = (Raise ValueError, s).
Proof.
  intros Hnet Hlen H0 Hlast. induction Xs as [|x Xs IH]; intros Hex Y HY.
  - exfalso. apply Hex. constructor.
  - simpl foldM. destruct (decide (length x = n0)) as [Hx|Hx].
    + destruct (forward_and_predict sizes s x n0 1 Hnet Hlen H0 Hx Hlast)
        as (_ & out & _ & _ & Hlout & Hp).
      destruct out as [|o out]; [discriminate|].
      rewrite (bind_Ok (v <- predict_single_data x ;; lift (vstack Y (Mat 1 1 [[v]])))
                 _ s (Mat (nrows Y + 1) (ncols Y) (rows Y ++ [[o]])) s).
      * apply IH; [|exact HY]. intros HF. apply Hex. now constructor.
      * rewrite (bind_Ok _ _ _ _ _ Hp). unfold lift, vstack. now rewrite HY.
    + apply bind_Raise. apply bind_Raise.
      now apply (predict_single_data_wrong_length sizes s x n0).
Qed.

(** X8. When [__call__], that is [predict], returns on a well-shaped
    network: on an empty batch, with an array of shape (0, arch[-1]); on any
    other batch only if the output layer has exactly one neuron and every
    sample has the size of the first layer. With a non-empty output layer
    whatever it raises is [ValueError]. *)
Theorem call_returns_iff sizes s n0 lc Xs :
  net_ok sizes s -> (2 <= length sizes)%nat ->
  sizes !! 0%nat = Some n0 -> last sizes = Some lc ->
  ((exists Y, (__call__ Xs s).1 = Ok Y) <->
   Xs = [] \/ (lc = 1%nat /\ Forall (fun x => length x = n0) Xs)) /\
  (Xs = [] -> __call__ Xs s = (Ok (Mat 0 lc []), s)) /\
  ((0 < lc)%nat -> forall e, (__call__ Xs s).1 = Raise e -> e = ValueError).
Proof.
  intros Hnet Hlen H0 Hlast. unfold __call__.
  assert (Hempty : predict [] s = (Ok (Mat 0 lc []), s)).
  { unfold predict. rewrite (bind_Ok _ _ _ _ _ (arch_last_ok _ _ _ Hnet Hlast)).
    rewrite (bind_Ok _ _ _ _ _ (run_lift _ _ _ (empty_reshape_ok lc))). reflexivity. }
  assert (Hcons : forall x Xs', Xs = x :: Xs' ->
            (lc = 1%nat /\ Forall (fun x => length x = n0) Xs /\
             exists Y, (predict Xs s).1 = Ok Y) \/
            ((lc = 0%nat /\ length x = n0 /\ (predict Xs s).1 = Raise IndexError) \/
             (predict Xs s).1 = Raise ValueError) /\
            ~ (lc = 1%nat /\ Forall (fun x => length x = n0) Xs)).
  { intros x Xs' ->.
    destruct (decide (length x = n0)) as [Hx|Hx].
    - destruct (decide (lc = 0%nat)) as [->|Hlc0].
      + right. split; [|intros [? _]; lia]. left. split; [reflexivity|]. split; [assumption|].
        unfold predict. rewrite (bind_Ok _ _ _ _ _ (arch_last_ok _ _ _ Hnet Hlast)).
        rewrite (bind_Ok _ _ _ _ _ (run_lift _ _ _ (empty_reshape_ok 0))).
        simpl foldM.
        destruct (forward_and_predict sizes s x n0 0 Hnet Hlen H0 Hx Hlast)
          as (_ & out & _ & _ & Hlout & Hp).
        destruct out; [|discriminate].
        erewrite bind_Raise; [reflexivity|]. apply bind_Raise. exact Hp.
      + destruct (decide (lc = 1%nat)) as [->|Hlc1].
        * destruct (decide (Forall (fun x => length x = n0) (x :: Xs'))) as [HF|HF].
          -- left. split; [reflexivity|]. split; [assumption|].
             destruct (predict_total sizes s (x :: Xs') n0 Hnet Hlen H0 Hlast HF)
               as (Y & HY & _). exists Y. now rewrite HY.
          -- right. split; [|intros [_ ?]; contradiction]. right.
             unfold predict. rewrite (bind_Ok _ _ _ _ _ (arch_last_ok _ _ _ Hnet Hlast)).
             rewrite (bind_Ok _ _ _ _ _ (run_lift _ _ _ (empty_reshape_ok 1))).
             now rewrite (predict_loop_one_output sizes s n0 (x :: Xs') Hnet Hlen H0 Hlast HF).
        * right. split; [|intros [? _]; contradiction]. right.
          now rewrite (predict_raises_beyond_one_output sizes s x Xs' n0 lc Hnet Hlen H0 Hlast
                         ltac:(lia) Hx).
    - right. split.
      + right. unfold predict. rewrite (bind_Ok _ _ _ _ _ (arch_last_ok _ _ _ Hnet Hlast)).
        rewrite (bind_Ok _ _ _ _ _ (run_lift _ _ _ (empty_reshape_ok lc))).
        simpl foldM. erewrite bind_Raise; [reflexivity|]. apply bind_Raise.
        now apply (predict_single_data_wrong_length sizes s x n0).
      + intros [_ HF]. inversion HF. contradiction. }
  split; [|split].
  - destruct Xs as [|x Xs'].
    + split; [now left|]. intros _. rewrite Hempty. eauto.
    + destruct (Hcons x Xs' eq_refl) as [(-> & HF & HY)|[Hr Hn]].
      * split; [now right|now intros _].
      * split.
        -- intros [Y HY]. destruct Hr as [(_ & _ & Hr)|Hr]; rewrite Hr in HY; discriminate.
        -- intros [?|?]; [discriminate|contradiction].
  - intros ->. exact Hempty.
  - intros Hlc e He. destruct Xs as [|x Xs'].
    + rewrite Hempty in He. discriminate.
    + destruct (Hcons x Xs' eq_refl) as [(_ & _ & Y & HY)|[[(-> & _)|Hr] _]].
      * rewrite HY in He. discriminate.
      * lia.
      * rewrite Hr in He. now injection He as <-.
Qed.

Lemma call_returns_iff_witness :
  __call__ [] two_outputs = (Ok (Mat 0 2 []), two_outputs) /\
  (exists Y, (__call__ [[0]; [1]] biased_network).1 = Ok Y) /\
  (forall e, (__call__ [[1]] two_outputs).1 = Raise e -> e = ValueError).
Proof.
  split; [|split].
  - destruct (call_returns_iff [1; 2]%nat two_outputs 1 2 [] two_outputs_ok
                ltac:(simpl; lia) eq_refl eq_refl) as (_ & H & _).
    apply H. reflexivity.
  - destruct (call_returns_iff [1; 1]%nat biased_network 1 1 [[0]; [1]] biased_network_ok
                ltac:(simpl; lia) eq_refl eq_refl) as (H & _ & _).
    apply H. right. split; [reflexivity|]. repeat constructor.
  - destruct (call_returns_iff [1; 2]%nat two_outputs 1 2 [[1]] two_outputs_ok
                ltac:(simpl; lia) eq_refl eq_refl) as (_ & _ & H).
    apply H. lia.
Defined.

(** ** The backpropagation rule *)

(** What the first loop of [_back_prop] returns, when it returns: the
    delta it appends in iteration [j] is made of the delta before it, of
    the matrix [n - j] without its first row and of the activation [n - j]
    without its first entry, [n] being [self.layers - 2]. *)
Lemma back_prop_deltas_values s y d0 :
  match
    foldM (fun delta_vec i =>
        w <- weights_get i ;;
        error <- lift (match last delta_vec with
                       | Some d => dot d (T (slice1_rows w))
                       | None => Raise IndexError
                       end) ;;
        yi <- list_get y i ;;
        error <- lift (multiply error (activity_derivative (slice1 yi))) ;;
        ret (delta_vec ++ [error]))
      (range_down (layers s - 2)) [d0] s
  with
  | (Ok dv, s') =>
      forall j d d', dv !! j = Some d -> dv !! S j = Some d' ->
        exists w yi, weights s !! (layers s - 2 - j)%nat = Some w /\
          lists s y !! (layers s - 2 - j)%nat = Some yi /\
          multiply (vecmat d (T (slice1_rows w))) (activity_derivative (slice1 yi)) = Ok d'
  | (Raise _, _) => True
  end.
Proof.
  pose proof (foldM_rule
    (fun delta_vec i =>
        w <- weights_get i ;;
        error <- lift (match last delta_vec with
                       | Some d => dot d (T (slice1_rows w))
                       | None => Raise IndexError
                       end) ;;
        yi <- list_get y i ;;
        error <- lift (multiply error (activity_derivative (slice1 yi))) ;;
        ret (delta_vec ++ [error]))
    (range_down (layers s - 2))
    (fun k dv s' => s' = s /\ length dv = S k /\
       forall j d d', dv !! j = Some d -> dv !! S j = Some d' ->
         exists w yi, weights s !! (layers s - 2 - j)%nat = Some w /\
           lists s y !! (layers s - 2 - j)%nat = Some yi /\
           multiply (vecmat d (T (slice1_rows w))) (activity_derivative (slice1 yi)) = Ok d')
    (fun _ _ => True) [d0] s) as Hloop.
  match type of Hloop with ?P -> ?Q -> _ => assert (I0 : P); [|assert (Hstep : Q)] end.
  - split; [reflexivity|]. split; [reflexivity|]. intros j d d' _ Hj. discriminate Hj.
  - intros k i dv s1 Hk (-> & Hdv & Hall).
    apply range_down_lookup in Hk as [-> Hk].
    munfold.
    destruct (weights s !! (layers s - 2 - k)%nat) as [w|] eqn:Hw; [|exact I].
    destruct (last dv) as [d|] eqn:Hd; [|exact I].
    unfold dot.
    destruct (length d =? nrows (T (slice1_rows w)))%nat; [|exact I].
    destruct (lists s y !! (layers s - 2 - k)%nat) as [yi|] eqn:Hyi; [|exact I].
    destruct (multiply (vecmat d (T (slice1_rows w))) (activity_derivative (slice1 yi)))
      as [d1|] eqn:Hm; [|exact I].
    split; [reflexivity|]. split; [rewrite length_app; simpl; lia|].
    rewrite last_lookup, Hdv in Hd. simpl in Hd.
    intros j e e' Hj Hj'.
    destruct (decide (j = k)) as [->|Hne].
    + rewrite lookup_app_l in Hj by lia. rewrite lookup_app_r in Hj' by lia.
      rewrite Hdv, Nat.sub_diag in Hj'. injection Hj' as <-.
      assert (e = d) as -> by congruence.
      exists w, yi. now repeat split.
    + assert (Hlt : (S j < length dv)%nat).
      { apply lookup_lt_Some in Hj'. rewrite length_app in Hj'. simpl in Hj'. lia. }
      rewrite lookup_app_l in Hj by lia. rewrite lookup_app_l in Hj' by lia.
      now apply Hall.
  - specialize (Hloop I0 Hstep).
    destruct (foldM _ _ [d0] s) as [[dv|e] s1]; [|exact I].
    apply Hloop.
Qed.

Lemma column_T m j :
  wf m -> (j < nrows m)%nat -> column (T m) j = nth j (rows m) [].
Proof.
  intros [Hlen Hrows] Hj. unfold column, T. simpl.
  rewrite map_map.
  destruct (lookup_lt_is_Some_2 (rows m) j) as [r Hr]; [lia|].
  rewrite (nth_lookup_Some _ _ [] r Hr).
  rewrite Forall_lookup in Hrows. pose proof (Hrows _ _ Hr) as Hlr.
  apply list_eq_same_length with (length r).
  - reflexivity.
  - rewrite length_map, length_seq. congruence.
  - intros i u v Hi Hu Hv.
    rewrite lookup_map, lookup_seq_lt in Hu by lia. simpl in Hu. injection Hu as <-.
    erewrite (nth_lookup_Some _ j 0).
    2:{ unfold column. rewrite lookup_map, Hr. reflexivity. }
    now apply nth_lookup_Some.
Qed.

Lemma slice1_rows_wf w : wf w -> wf (slice1_rows w).
Proof.
  intros [Hlen Hrows]. split; simpl.
  - rewrite tail_length. now rewrite Hlen.
  - destruct (rows w); [constructor|]. now inversion Hrows.
Qed.

Lemma nth_tail {A} (l : list A) j d : nth j (tail l) d = nth (S j) l d.
Proof. destruct l; [now destruct j|reflexivity]. Qed.

(** Entry [j] of a hidden delta: the deltas of the next layer weighted by
    row [j + 1] of the matrix, times the derivative routine at entry
    [j + 1] of the activation. *)
Lemma hidden_delta_entry d1 w1 y1 d j :
  wf w1 -> multiply (vecmat d1 (T (slice1_rows w1))) (activity_derivative (slice1 y1)) = Ok d ->
  length y1 = nrows w1 -> (S j < nrows w1)%nat ->
  length d = Init.Nat.pred (nrows w1) /\
  nth j d 0 = inner d1 (nth (S j) (rows w1) []) * tanh_derivative (nth (S j) y1 0).
Proof.
  intros Hwf Hm Hy Hj.
  assert (Hlens : length (vecmat d1 (T (slice1_rows w1)))
                  = length (activity_derivative (slice1 y1))).
  { rewrite vecmat_length. unfold activity_derivative, slice1. simpl.
    rewrite length_map, tail_length. now rewrite Hy. }
  rewrite (run_multiply _ _ Hlens) in Hm. injection Hm as <-.
  split.
  { rewrite length_zip_with, <- Hlens, Nat.min_id, vecmat_length. reflexivity. }
  erewrite (nth_lookup_Some _ j 0).
  2:{ rewrite lookup_zip_with. unfold vecmat, activity_derivative, slice1.
      rewrite !lookup_map. simpl ncols. rewrite lookup_seq_lt by lia. simpl.
      destruct (lookup_lt_is_Some_2 (tail y1) j) as [v Hv].
      { rewrite tail_length. lia. }
      rewrite Hv. simpl.
      rewrite (column_T (slice1_rows w1) j (slice1_rows_wf w1 Hwf)) by (simpl; lia).
      simpl rows. rewrite nth_tail.
      rewrite <- (nth_lookup_Some _ _ 0 v Hv), nth_tail. reflexivity. }
  reflexivity.
Qed.

(** [_back_prop] on a well-shaped network and trace, with the list of
    deltas it builds: the run, the lengths and values of the deltas (one
    per layer boundary, in the order of the boundaries) and the update of
    every matrix. *)
Lemma back_prop_run sizes s y target lr lc out :
  net_ok sizes s -> (2 <= length sizes)%nat ->
  trace_ok sizes (lists s y) -> last sizes = Some lc ->
  last (lists s y) = Some out -> target_ok target lc ->
  exists s' err ds,
    _back_prop y target lr s = (Ok tt, s') /\
    only_weights s s' /\
    length (weights s') = length (weights s) /\
    subtract target out = Ok err /\ length err = length out /\
    length ds = length (weights s) /\
    last ds = Some (zip_with Rmult err (activity_derivative out)) /\
    (forall i d, ds !! i = Some d -> exists m, sizes !! S i = Some m /\ length d = m) /\
    (forall i d d1, ds !! i = Some d -> ds !! S i = Some d1 ->
       exists w1 y1, weights s !! S i = Some w1 /\ lists s y !! S i = Some y1 /\
         multiply (vecmat d1 (T (slice1_rows w1))) (activity_derivative (slice1 y1)) = Ok d) /\
    (forall i w, weights s !! i = Some w ->
       exists w' yi d, weights s' !! i = Some w' /\ lists s y !! i = Some yi /\
         ds !! i = Some d /\ updated lr yi d w w').
Proof.
  intros Hnet Hlen Htr Hlast Hout Htarget.
  pose proof (net_ok_length _ _ Hnet) as Hn.
  pose proof Hnet as (Hlay & _).
  destruct (trace_ok_last _ _ _ Htr Hlast) as (out' & Hout' & Hlout).
  assert (out' = out) as -> by congruence.
  rewrite <- Hlout in Htarget.
  destruct (subtract_target_ok _ _ Htarget) as (err & Herr & Hlerr).
  assert (Hlens : length err = length (activity_derivative out)).
  { unfold activity_derivative. now rewrite length_map. }
  pose proof (run_multiply _ _ Hlens) as Hd0.
  set (d0 := zip_with Rmult err (activity_derivative out)) in *.
  assert (Hld0 : length d0 = lc).
  { unfold d0. rewrite length_zip_with, <- Hlens, Nat.min_id. congruence. }
  destruct (back_prop_deltas sizes s y d0 lc Hnet Hlen Htr Hlast Hld0)
    as (dv & Hdv & Hdvlen & Hdv0 & Hdvall).
  pose proof (back_prop_deltas_values s y d0) as Hvals. rewrite Hdv in Hvals.
  destruct (back_prop_updates sizes s y dv lr Hnet Hlen Htr Hdvlen Hdvall)
    as (s' & Hrun & Hupd).
  assert (Hfinal : _back_prop y target lr s = (Ok tt, s')).
  { unfold _back_prop.
    rewrite (bind_Ok _ _ _ _ _ (run_list_last _ _ _ Hout)).
    rewrite (bind_Ok _ _ _ _ _ (run_lift _ _ _ Herr)).
    rewrite (bind_Ok _ _ _ _ _ (run_list_last _ _ _ Hout)).
    rewrite (bind_Ok _ _ _ _ _ (run_lift _ _ _ Hd0)).
    rewrite (bind_Ok get _ s s s eq_refl).
    rewrite (bind_Ok _ _ _ _ _ Hdv).
    rewrite (bind_Ok len_weights _ s (length (weights s)) s eq_refl).
    exact Hrun. }
  exists s', err, (reverse dv).
  split; [exact Hfinal|]. split.
  { pose proof (back_prop_only_weights y target lr s) as H. now rewrite Hfinal in H. }
  split.
  { pose proof (back_prop_shapes y target lr s) as (_ & _ & Hsh & _).
    rewrite Hfinal in Hsh. simpl in Hsh.
    rewrite <- (length_map shape (weights s')), Hsh. apply length_map. }
  split; [exact Herr|]. split; [exact Hlerr|].
  split; [rewrite length_reverse; lia|].
  split; [rewrite last_reverse, head_lookup; exact Hdv0|].
  split; [|split].
  - intros i d Hd. apply reverse_lookup_Some in Hd as [Hd Hi].
    destruct (Hdvall _ _ Hd) as (m & Hm & Hld). exists m. split; [|assumption].
    rewrite <- Hm. f_equal. lia.
  - intros i d d1 Hd Hd1.
    apply reverse_lookup_Some in Hd as [Hd Hi].
    apply reverse_lookup_Some in Hd1 as [Hd1 Hi1].
    replace (length dv - S i)%nat with (S (length dv - S (S i))) in Hd by lia.
    destruct (Hvals _ _ _ Hd1 Hd) as (w1 & y1 & Hw1 & Hy1 & Hm).
    replace (layers s - 2 - (length dv - S (S i)))%nat with (S i) in Hw1, Hy1 by lia.
    exists w1, y1. now repeat split.
  - exact Hupd.
Qed.

Lemma zip_with_map_map {A} (f : R -> R -> R) (g h : A -> R) (l : list A) :
  zip_with f (map g l) (map h l) = map (fun x => f (g x) (h x)) l.
Proof. induction l as [|x l IH]; simpl; [reflexivity|now rewrite IH]. Qed.

(** C3 (as amended).  There is no [ShapeMismatch] of the code's own; the
    shape errors are NumPy's [ValueError].  On a well-shaped network and
    trace, a target whose length differs from the output's makes
    [_back_prop] raise [ValueError], and nothing else, with no weight
    written, when that length is not 1.  A target of length 1 is broadcast
    over the output and no error is raised: the delta of output neuron [c]
    is [(target[0] - output[c]) * tanh_derivative(output[c])], the hidden
    deltas follow from it by the rule of the code, and every matrix [i]
    gets [learning_rate * activation[r] * delta[c]] added to its entry
    [(r, c)], nothing but the matrices being written. *)
Theorem back_prop_target_length sizes s y t lr lc :
  net_ok sizes s -> (2 <= length sizes)%nat ->
  trace_ok sizes (lists s y) -> last sizes = Some lc ->
  length t <> lc ->
  (length t <> 1%nat -> _back_prop y (Arr t) lr s = (Raise ValueError, s)) /\
  (length t = 1%nat ->
     exists s' t0 out ds,
       t = [t0] /\ last (lists s y) = Some out /\ length out = lc /\
       _back_prop y (Arr t) lr s = (Ok tt, s') /\
       net_ok sizes s' /\ only_weights s s' /\
       length ds = length (weights s) /\
       last ds = Some (map (fun o => (t0 - o) * tanh_derivative o) out) /\
       (forall i d d1 w1 y1,
          ds !! i = Some d -> ds !! S i = Some d1 ->
          weights s !! S i = Some w1 -> lists s y !! S i = Some y1 ->
          S (length d) = nrows w1 /\
          forall j, (j < length d)%nat ->
            nth j d 0
              = inner d1 (nth (S j) (rows w1) []) * tanh_derivative (nth (S j) y1 0)) /\
       (forall i w, weights s !! i = Some w ->
          exists w' yi d,
            weights s' !! i = Some w' /\ lists s y !! i = Some yi /\
            ds !! i = Some d /\ shape w' = shape w /\
            forall r c, (r < nrows w)%nat -> (c < ncols w)%nat ->
              entry w' r c = entry w r c + lr * (nth r yi 0 * nth c d 0))).
Proof.
  intros Hnet Hlen Htr Hlast Hne. split.
  - intros Hne1. now apply (back_prop_mismatch_raises sizes s y t lr lc).
  - intros H1. destruct t as [|t0 [|t1 t]]; try discriminate.
    destruct (trace_ok_last _ _ _ Htr Hlast) as (out & Hout & Hlout).
    destruct (back_prop_run sizes s y (Arr [t0]) lr lc out Hnet Hlen Htr Hlast Hout)
      as (s' & err & ds & Hrun & Hframe & _ & Herr & _ & Hlds & Hlastds
          & Hlens & Hvals & Hupd).
    { now right. }
    assert (Herr' : err = map (fun o => t0 - o) out).
    { simpl in Herr. unfold broadcast in Herr.
      destruct (Nat.eqb_spec (length [t0]) (length out)) as [E|E].
      - simpl in E, Hne. congruence.
      - injection Herr as <-. reflexivity. }
    subst err.
    exists s', t0, out, ds.
    split; [reflexivity|]. split; [exact Hout|]. split; [exact Hlout|].
    split; [exact Hrun|].
    split.
    { eapply net_ok_same_shapes; [exact Hnet|].
      pose proof (back_prop_shapes y (Arr [t0]) lr s) as H. now rewrite Hrun in H. }
    split; [exact Hframe|]. split; [exact Hlds|].
    split.
    { rewrite Hlastds. unfold activity_derivative. now rewrite zip_with_map_map. }
    split.
    + intros i d d1 w1 y1 Hd Hd1 Hw1 Hy1.
      destruct (Hvals _ _ _ Hd Hd1) as (w1' & y1' & Hw1' & Hy1' & Hm).
      assert (w1' = w1) as -> by congruence. assert (y1' = y1) as -> by congruence.
      destruct (net_ok_weight _ _ _ _ Hnet Hw1) as (m0 & m1 & Hm0 & Hm1 & Hwf & Hr & Hc).
      assert (Hi : (S (S i) < length sizes)%nat).
      { pose proof (net_ok_length _ _ Hnet). apply lookup_lt_Some in Hw1. lia. }
      destruct (trace_ok_hidden sizes (lists s y) (S i) Htr Hi)
        as (y1' & m & Hy1'' & Hm' & Hly).
      assert (y1' = y1) as -> by congruence. assert (m = m0) as -> by congruence.
      destruct (Hlens _ _ Hd) as (m & Hm'' & Hld). assert (m = m0) as -> by congruence.
      split; [congruence|].
      intros j Hj.
      apply (hidden_delta_entry d1 w1 y1 d j Hwf Hm); [congruence|lia].
    + intros i w Hw.
      destruct (Hupd _ _ Hw) as (w' & yi & d & Hw' & Hyi & Hd & Hu).
      destruct (net_ok_weight _ _ _ _ Hnet Hw) as (m0 & m1 & Hm0 & Hm1 & Hwf & Hr & Hc).
      assert (Hi : (S i < length sizes)%nat).
      { pose proof (net_ok_length _ _ Hnet). apply lookup_lt_Some in Hw. lia. }
      destruct (trace_ok_hidden sizes (lists s y) i Htr Hi) as (yi' & m & Hyi' & Hm' & Hly).
      assert (yi' = yi) as -> by congruence. assert (m = m0) as -> by congruence.
      destruct (Hlens _ _ Hd) as (m & Hm'' & Hld). assert (m = m1) as -> by congruence.
      exists w', yi, d. split; [exact Hw'|]. split; [exact Hyi|]. split; [exact Hd|].
      split.
      * destruct Hu as (upd & _ & Hadd). now destruct (iadd_shape _ _ _ Hadd).
      * intros r c Hr' Hc'.
        apply (updated_entry lr yi d w w' r c Hu Hwf); congruence || assumption.
Qed.

(** The example of the specification, architecture [[2, 2, 1]] with the
    target [[0, 1]], which raises; and the network [[1, 2]] with the
    target [[5]], which is broadcast over the two outputs. *)
Lemma back_prop_target_length_witness :
  _back_prop 0%nat (Arr [0; 1]) (1 / 10) (traced [0; 0] xor_network)
    = (Raise ValueError, traced [0; 0] xor_network) /\
  exists s' out ds,
    last (lists (traced [1] two_outputs) 0%nat) = Some out /\ length out = 2%nat /\
    _back_prop 0%nat (Arr [5]) 1 (traced [1] two_outputs) = (Ok tt, s') /\
    only_weights (traced [1] two_outputs) s' /\
    last ds = Some (map (fun o => (5 - o) * tanh_derivative o) out) /\
    forall i w, weights (traced [1] two_outputs) !! i = Some w ->
      exists w' yi d,
        weights s' !! i = Some w' /\
        lists (traced [1] two_outputs) 0%nat !! i = Some yi /\
        ds !! i = Some d /\ shape w' = shape w /\
        forall r c, (r < nrows w)%nat -> (c < ncols w)%nat ->
          entry w' r c = entry w r c + 1 * (nth r yi 0 * nth c d 0).
Proof.
  split.
  - destruct (traced_ok [2; 2; 1]%nat xor_network [0; 0] 2 xor_network_ok)
      as [Hnet Htr]; [simpl; lia | reflexivity | reflexivity |].
    apply (back_prop_target_length [2; 2; 1]%nat (traced [0; 0] xor_network) 0%nat
             [0; 1] (1 / 10) 1 Hnet).
    + simpl. lia.
    + exact Htr.
    + reflexivity.
    + simpl. lia.
    + simpl. lia.
  - destruct (traced_ok [1; 2]%nat two_outputs [1] 1 two_outputs_ok)
      as [Hnet Htr]; [simpl; lia | reflexivity | reflexivity |].
    destruct (back_prop_target_length [1; 2]%nat (traced [1] two_outputs) 0%nat
                [5] 1 2 Hnet ltac:(simpl; lia) Htr eq_refl ltac:(simpl; lia))
      as [_ Hb].
    destruct (Hb eq_refl)
      as (s' & t0 & out & ds & Ht & Hout & Hlout & Hrun & _ & Hframe & _ & Hlast & _ & Hupd).
    injection Ht as <-.
    exists s', out, ds.
    split; [exact Hout|]. split; [exact Hlout|]. split; [exact Hrun|].
    split; [exact Hframe|]. split; [exact Hlast|]. exact Hupd.
Defined.

(** C3, the claim as the specification words it, fails: on the network
    [[1, 2]] a target of length 1 disagrees with the output of length 2,
    and [_back_prop] returns without any error. *)
Lemma back_prop_broadcasts_short_target :
  exists out,
    last (lists (traced [1] two_outputs) 0%nat) = Some out /\
    length [5] <> length out /\
    (_back_prop 0%nat (Arr [5]) 1 (traced [1] two_outputs)).1 = Ok tt.
Proof.
  eexists. split; [reflexivity|]. split; [simpl; lia|]. reflexivity.
Qed.

(** X9. The backpropagation rule, layer by layer. On a well-shaped network
    and trace, with a target that broadcasts, [_back_prop] returns. The
    delta of the output layer is [(target - output) *
    tanh_derivative(output)]; entry [j] of the delta of a hidden layer is
    the sum of the next layer's deltas weighted by row [j + 1] of the next
    matrix (row 0, the bias weights, is left out) times [tanh_derivative] of
    entry [j + 1] of that layer's activation; the matrices read are the ones
    from before the call. Every matrix then gets [learning_rate *
    activation[r] * delta[c]] added to its entry [(r, c)]. *)
Theorem back_prop_all_layers sizes s y target lr lc out :
  net_ok sizes s -> (2 <= length sizes)%nat ->
  trace_ok sizes (lists s y) -> last sizes = Some lc ->
  last (lists s y) = Some out -> target_ok target lc ->
  exists s' err ds,
    _back_prop y target lr s = (Ok tt, s') /\
    subtract target out = Ok err /\
    length ds = length (weights s) /\
    last ds = Some (zip_with Rmult err (map tanh_derivative out)) /\
    (forall i d d1 w1 y1,
       ds !! i = Some d -> ds !! S i = Some d1 ->
       weights s !! S i = Some w1 -> lists s y !! S i = Some y1 ->
       S (length d) = nrows w1 /\
       forall j, (j < length d)%nat ->
         nth j d 0 = inner d1 (nth (S j) (rows w1) []) * tanh_derivative (nth (S j) y1 0)) /\
    (forall i w yi d,
       weights s !! i = Some w -> lists s y !! i = Some yi -> ds !! i = Some d ->
       exists w', weights s' !! i = Some w' /\ shape w' = shape w /\
         forall r c, (r < nrows w)%nat -> (c < ncols w)%nat ->
           entry w' r c = entry w r c + lr * (nth r yi 0 * nth c d 0)).
Proof.
  intros Hnet Hlen Htr Hlast Hout Htarget.
  pose proof (net_ok_length _ _ Hnet) as Hn.
  destruct (back_prop_run sizes s y target lr lc out Hnet Hlen Htr Hlast Hout Htarget)
    as (s' & err & ds & Hrun & _ & _ & Herr & _ & Hlds & Hlastds & Hlens & Hvals & Hupd).
  exists s', err, ds. split; [exact Hrun|]. split; [exact Herr|]. split; [exact Hlds|].
  split; [exact Hlastds|]. split.
  - intros i d d1 w1 y1 Hd Hd1 Hw1 Hy1.
    destruct (Hvals _ _ _ Hd Hd1) as (w1' & y1' & Hw1' & Hy1' & Hm).
    assert (w1' = w1) as -> by congruence. assert (y1' = y1) as -> by congruence.
    destruct (net_ok_weight _ _ _ _ Hnet Hw1) as (m0 & m1 & Hm0 & Hm1 & Hwf & Hr & Hc).
    assert (Hi : (S (S i) < length sizes)%nat).
    { apply lookup_lt_Some in Hw1. lia. }
    destruct (trace_ok_hidden sizes (lists s y) (S i) Htr Hi) as (y1' & m & Hy1'' & Hm' & Hly).
    assert (y1' = y1) as -> by congruence. assert (m = m0) as -> by congruence.
    destruct (Hlens _ _ Hd) as (m & Hm'' & Hld). assert (m = m0) as -> by congruence.
    split; [congruence|].
    intros j Hj.
    apply (hidden_delta_entry d1 w1 y1 d j Hwf Hm); [congruence|lia].
  - intros i w yi d Hw Hyi Hd.
    destruct (Hupd _ _ Hw) as (w' & yi' & d' & Hw' & Hyi' & Hd' & Hu).
    assert (yi' = yi) as -> by congruence. assert (d' = d) as -> by congruence.
    destruct (net_ok_weight _ _ _ _ Hnet Hw) as (m0 & m1 & Hm0 & Hm1 & Hwf & Hr & Hc).
    assert (Hi : (S i < length sizes)%nat).
    { apply lookup_lt_Some in Hw. lia. }
    destruct (trace_ok_hidden sizes (lists s y) i Htr Hi) as (yi' & m & Hyi'' & Hm' & Hly).
    assert (yi' = yi) as -> by congruence. assert (m = m0) as -> by congruence.
    destruct (Hlens _ _ Hd) as (m & Hm'' & Hld). assert (m = m1) as -> by congruence.
    exists w'. split; [exact Hw'|].
    split.
    + destruct Hu as (upd & _ & Hadd). now destruct (iadd_shape _ _ _ Hadd).
    + intros r c Hr' Hc'.
      apply (updated_entry lr yi d w w' r c Hu Hwf); congruence || assumption.
Qed.

Lemma back_prop_all_layers_witness :
  exists out s' err ds,
    last (lists (traced [0; 1] xor_network) 0%nat) = Some out /\
    _back_prop 0%nat (Scalar 1) (1 / 10) (traced [0; 1] xor_network) = (Ok tt, s') /\
    subtract (Scalar 1) out = Ok err /\
    length ds = 2%nat /\
    last ds = Some (zip_with Rmult err (map tanh_derivative out)).
Proof.
  destruct (traced_ok [2; 2; 1]%nat xor_network [0; 1] 2 xor_network_ok)
    as [Hnet Htr]; [simpl; lia | reflexivity | reflexivity |].
  destruct (trace_ok_last _ _ 1%nat Htr eq_refl) as (out & Hout & _).
  destruct (back_prop_all_layers [2; 2; 1]%nat (traced [0; 1] xor_network) 0%nat
              (Scalar 1) (1 / 10) 1 out Hnet ltac:(simpl; lia) Htr eq_refl Hout I)
    as (s' & err & ds & Hrun & Herr & Hl & Hlast & _).
  exists out, s', err, ds. now repeat split.
Defined.

(** ** Nothing to learn *)

#[local] Instance same_weights_preorder : PreOrder same_weights.
Proof.
  split; [intros s; reflexivity|].
  intros s1 s2 s3 H1 H2. unfold same_weights in *. congruence.
Qed.

Lemma imap_same {A} (f : nat -> A -> A) (l : list A) :
  (forall i x, l !! i = Some x -> f i x = x) -> imap f l = l.
Proof.
  intros H. apply list_eq. intros i. rewrite list_lookup_imap.
  destruct (l !! i) as [x|] eqn:E; [|reflexivity]. simpl. f_equal. now apply H.
Qed.

(** Adding an array of zeros in place leaves the array as it is. *)
Lemma iadd_zero w m w' :
  iadd w m = Ok w' -> (forall i j, entry m i j = 0) -> w' = w.
Proof.
  unfold iadd. intros H Hz.
  destruct (_ && _); [|discriminate]. injection H as <-.
  destruct w as [r c rs]. simpl. f_equal.
  apply imap_same. intros i x _. apply imap_same. intros j e _.
  rewrite Hz. lra.
Qed.

Lemma entry_scale_zero m i j : entry (scale 0 m) i j = 0.
Proof.
  unfold entry, scale. simpl.
  destruct (rows m !! i) as [r|] eqn:Er.
  - erewrite (nth_lookup_Some _ i []) by (rewrite lookup_map, Er; reflexivity).
    destruct (r !! j) as [e|] eqn:Ee.
    + erewrite (nth_lookup_Some _ j 0) by (rewrite lookup_map, Ee; reflexivity). lra.
    + apply nth_overflow. rewrite length_map. now apply lookup_ge_None.
  - rewrite (nth_overflow _ []); [now destruct j|].
    rewrite !length_map. now apply lookup_ge_None.
Qed.

Lemma weights_iadd_zero i m : preserves same_weights (weights_iadd i (scale 0 m)).
Proof.
  intros s. unfold weights_iadd, bind, get, lift, modify, raise.
  destruct (weights s !! i) as [w|] eqn:Hw; [|reflexivity].
  destruct (iadd w (scale 0 m)) as [w'|] eqn:Hadd; [|reflexivity].
  simpl. unfold same_weights. simpl.
  rewrite (iadd_zero _ _ _ Hadd (entry_scale_zero m)).
  now apply list_insert_id.
Qed.

Lemma back_prop_zero_rate y target : preserves same_weights (_back_prop y target 0).
Proof.
  unfold _back_prop. repeat first [apply weights_iadd_zero | preserves_step].
Qed.

Lemma forward_prop_weights x : preserves same_weights (_forward_prop x).
Proof. intros s. apply (forward_prop_only_list x s). Qed.

Lemma counted_weights {A} c (m : M A) :
  preserves same_weights m -> preserves same_weights (counted c m).
Proof.
  intros H. unfold counted. apply preserves_bind; [typeclasses eauto|exact H|].
  intros a. apply preserves_bind;
    [typeclasses eauto| |intros; apply preserves_ret; typeclasses eauto].
  apply preserves_modify. intros s. reflexivity.
Qed.

Lemma random_randint_weights n : preserves same_weights (random_randint n).
Proof. intros s. unfold random_randint. now destruct (randint n (rng s)). Qed.

Lemma list_new_weights v : preserves same_weights (list_new v).
Proof. intros s. reflexivity. Qed.

Lemma fit_zero_rate data labels epochs : preserves same_weights (fit data labels 0 epochs).
Proof.
  unfold fit.
  repeat first
    [ apply random_randint_weights | apply list_new_weights
    | apply counted_weights; [apply forward_prop_weights || apply back_prop_zero_rate]
    | preserves_step ].
Qed.

Lemma only_weights_unchanged s s' :
  only_weights s s' -> weights s' = weights s -> s' = s.
Proof.
  intros (H1 & H2 & H3 & H4 & H5 & H6 & H7) H8.
  destruct s, s'. simpl in *. now subst.
Qed.

(** X10. With learning rate 0 nothing is learnt: [_back_prop] leaves the
    whole state as it was, whatever it is given and whether it returns or
    raises, and [fit] leaves every weight as it was. *)
Theorem zero_learning_rate (s : pystate) :
  (forall y target, (_back_prop y target 0 s).2 = s) /\
  (forall data labels epochs, weights (fit data labels 0 epochs s).2 = weights s).
Proof.
  split.
  - intros y target. apply only_weights_unchanged.
    + apply (back_prop_only_weights y target 0 s).
    + apply (back_prop_zero_rate y target s).
  - intros data labels epochs. apply (fit_zero_rate data labels epochs s).
Qed.

Lemma inner_zeros d v : zeros d -> inner d v = 0.
Proof.
  unfold inner, zeros. intros H. revert v.
  induction H as [|e d He _ IH]; intros v; [reflexivity|].
  destruct v as [|u v]; [reflexivity|]. simpl. rewrite IH, He. lra.
Qed.

Lemma vecmat_zeros d m : zeros d -> zeros (vecmat d m).
Proof.
  intros H. unfold vecmat, zeros. apply List.Forall_map.
  apply Forall_forall. intros j _. now apply inner_zeros.
Qed.

Lemma zip_with_zeros a b : zeros a -> zeros (zip_with Rmult a b).
Proof.
  unfold zeros. intros H. revert b.
  induction H as [|e a He _ IH]; intros b; [constructor|].
  destruct b as [|u b]; [constructor|]. simpl. constructor; [subst; lra|apply IH].
Qed.

Lemma multiply_zeros a b d : multiply a b = Ok d -> zeros a -> zeros d.
Proof.
  unfold multiply, broadcast. intros H Ha.
  destruct (length a =? length b)%nat.
  { injection H as <-. now apply zip_with_zeros. }
  destruct a as [|x [|x' a]].
  - destruct b as [|y [|y' b]]; try discriminate. injection H as <-. constructor.
  - injection H as <-. inversion Ha as [|? ? Hx _]; subst.
    unfold zeros. apply List.Forall_map. apply Forall_forall. intros; lra.
  - destruct b as [|y [|y' b]]; try discriminate. injection H as <-.
    unfold zeros in *.
    change (Forall (fun e => e = 0) (map (fun x0 => x0 * y) (x :: x' :: a))).
    apply List.Forall_map.
    eapply Forall_impl; [exact Ha|]. simpl. intros e ->. lra.
Qed.

Lemma outer_zeros lr yi d upd i j :
  matmul (T (Mat 1 (length yi) [yi])) (Mat 1 (length d) [d]) = Ok upd ->
  zeros d -> entry (scale lr upd) i j = 0.
Proof.
  intros Hupd Hd.
  destruct (Nat.lt_ge_cases i (length yi)) as [Hi|Hi];
    [destruct (Nat.lt_ge_cases j (length d)) as [Hj|Hj]|].
  - rewrite (outer_entry lr yi d upd i j Hupd Hi Hj).
    unfold zeros in Hd. rewrite Forall_lookup in Hd.
    destruct (lookup_lt_is_Some_2 d j Hj) as [e He].
    rewrite (nth_lookup_Some _ _ 0 e He), (Hd _ _ He). lra.
  - injection Hupd as <-. unfold entry. simpl.
    erewrite (nth_lookup_Some _ i []).
    2:{ rewrite !lookup_map, lookup_seq_lt by assumption. reflexivity. }
    apply nth_overflow. rewrite length_map, vecmat_length. simpl. lia.
  - injection Hupd as <-. unfold entry. simpl.
    rewrite (nth_overflow _ []); [now destruct j|].
    rewrite !length_map, length_seq. lia.
Qed.

Lemma updated_zeros lr yi d w w' : updated lr yi d w w' -> zeros d -> w' = w.
Proof.
  intros (upd & Hupd & Hadd) Hd.
  apply (iadd_zero _ _ _ Hadd). intros i j. now apply (outer_zeros lr yi d upd).
Qed.

Lemma zip_with_minus_diag out : zeros (zip_with Rminus out out).
Proof. unfold zeros. induction out; simpl; constructor; [lra|assumption]. Qed.

(** X11. A fixed point of training: when the target is the output the
    network already gives, every delta is zero and [_back_prop] returns with
    the state exactly as it was. *)
Theorem back_prop_at_target sizes s y lr out :
  net_ok sizes s -> (2 <= length sizes)%nat ->
  trace_ok sizes (lists s y) -> last (lists s y) = Some out ->
  _back_prop y (Arr out) lr s = (Ok tt, s).
Proof.
  intros Hnet Hlen Htr Hout.
  destruct (last sizes) as [lc|] eqn:Hlast.
  2:{ rewrite last_None in Hlast. subst sizes. simpl in Hlen. lia. }
  destruct (trace_ok_last _ _ _ Htr Hlast) as (out' & Hout' & Hlout).
  assert (out' = out) as -> by congruence.
  destruct (back_prop_run sizes s y (Arr out) lr lc out Hnet Hlen Htr Hlast Hout)
    as (s' & err & ds & Hrun & Hframe & Hlw & Herr & _ & Hlds & Hlastds & _ & Hvals & Hupd).
  { now left. }
  assert (Herr0 : zeros err).
  { simpl in Herr. unfold broadcast in Herr. rewrite Nat.eqb_refl in Herr.
    injection Herr as <-. apply zip_with_minus_diag. }
  assert (Hds : forall n i d, (i + n = length ds - 1)%nat -> ds !! i = Some d -> zeros d).
  { induction n as [|n IH]; intros i d Hi Hd.
    - rewrite last_lookup in Hlastds.
      replace (Init.Nat.pred (length ds)) with i in Hlastds by lia.
      assert (d = zip_with Rmult err (activity_derivative out)) as -> by congruence.
      now apply zip_with_zeros.
    - destruct (lookup_lt_is_Some_2 ds (S i)) as [d1 Hd1]; [lia|].
      destruct (Hvals _ _ _ Hd Hd1) as (w1 & y1 & _ & _ & Hm).
      apply (multiply_zeros _ _ _ Hm). apply vecmat_zeros.
      apply (IH (S i) d1); [lia|assumption]. }
  assert (Hw : weights s' = weights s).
  { apply list_eq. intros i.
    destruct (weights s !! i) as [w|] eqn:Ew.
    - destruct (Hupd _ _ Ew) as (w' & yi & d & Hw' & _ & Hd & Hu).
      rewrite Hw'. f_equal. apply (updated_zeros _ _ _ _ _ Hu).
      apply (Hds (length ds - 1 - i)%nat i d); [|assumption].
      apply lookup_lt_Some in Hd. lia.
    - apply lookup_ge_None. rewrite Hlw. now apply lookup_ge_None. }
  rewrite Hrun. f_equal. now apply only_weights_unchanged.
Qed.

Lemma back_prop_at_target_witness :
  exists out,
    last (lists (traced [0; 1] xor_network) 0%nat) = Some out /\
    _back_prop 0%nat (Arr out) (1 / 10) (traced [0; 1] xor_network)
      = (Ok tt, traced [0; 1] xor_network).
Proof.
  destruct (traced_ok [2; 2; 1]%nat xor_network [0; 1] 2 xor_network_ok)
    as [Hnet Htr]; [simpl; lia | reflexivity | reflexivity |].
  destruct (trace_ok_last _ _ 1%nat Htr eq_refl) as (out & Hout & _).
  exists out. split; [exact Hout|].
  apply (back_prop_at_target [2; 2; 1]%nat (traced [0; 1] xor_network) 0%nat (1 / 10) out
           Hnet ltac:(simpl; lia) Htr Hout).
Defined.

(** ** One training step *)

Lemma inner_self_nonneg v : 0 <= inner v v.
Proof.
  unfold inner. induction v as [|a v IH]; simpl; [lra|]. nra.
Qed.

(** The sum product with a column whose every entry got the entry of [a]
    times [c] added. *)
Lemma inner_update (a b b' : vec) c :
  length b = length a -> length b' = length a ->
  (forall i, (i < length a)%nat -> nth i b' 0 = nth i b 0 + c * nth i a 0) ->
  inner a b' = inner a b + c * inner a a.
Proof.
  unfold inner. revert b b'. induction a as [|x a IH]; intros b b' Hb Hb' H.
  - simpl. lra.
  - destruct b as [|u b]; [discriminate|]. destruct b' as [|u' b']; [discriminate|].
    simpl in *. rewrite (IH b b'); [| lia | lia |].
    + pose proof (H 0%nat ltac:(lia)) as H0. simpl in H0. rewrite H0. lra.
    + intros i Hi. apply (H (S i)). lia.
Qed.

Lemma nth_column m i j : nth i (column m j) 0 = entry m i j.
Proof.
  unfold column, entry.
  destruct (rows m !! i) as [r|] eqn:Er.
  - erewrite (nth_lookup_Some _ i 0) by (rewrite lookup_map, Er; reflexivity).
    now rewrite (nth_lookup_Some _ i [] r Er).
  - apply lookup_ge_None in Er.
    rewrite (nth_overflow (map _ _) 0) by (now rewrite length_map).
    rewrite (nth_overflow (rows m) []) by assumption. now destruct j.
Qed.

Lemma column_length m j : length (column m j) = length (rows m).
Proof. unfold column. apply length_map. Qed.

(** The list that [traced] leaves at the reference that was fresh. *)
Lemma traced_list sizes s x n0 :
  net_ok sizes s -> (2 <= length sizes)%nat ->
  sizes !! 0%nat = Some n0 -> length x = n0 ->
  lists (traced x s) (next_loc s)
    = concatenate (ones 1) x :: activations (weights s) (concatenate (ones 1) x) /\
  weights (traced x s) = weights s.
Proof.
  intros Hnet Hlen H0 Hx.
  set (y0 := concatenate (ones 1) x).
  set (s1 := set_next_loc (S (next_loc s)) (set_list (next_loc s) [y0] s)).
  assert (Hnet1 : net_ok sizes s1) by (now apply (net_ok_frame sizes s)).
  assert (Hy0 : length y0 = S n0) by (unfold y0, concatenate; simpl; congruence).
  destruct (forward_prop_total sizes s1 (next_loc s) y0 n0 Hnet1 Hlen H0 Hy0)
    as (s2 & Hrun & Hframe & Hl & _).
  { unfold s1. simpl. now rewrite Nat.eqb_refl. }
  assert (E : traced x s = s2).
  { unfold traced. change ((_forward_prop (next_loc s) s1).2 = s2). now rewrite Hrun. }
  rewrite E. split; [exact Hl|].
  destruct Hframe as (_ & _ & Hw & _). exact Hw.
Qed.

(** X12. One training step on a network without hidden layer, in exact
    arithmetic: [_forward_prop] on a sample, [_back_prop] with a positive
    learning rate, then [_forward_prop] on the same sample again. Every
    output has moved towards its target: up when the target was above it,
    down when it was below, not at all when they were equal. *)
Theorem training_step_moves_towards_target n0 n1 s x t lr :
  net_ok [n0; n1] s -> length x = n0 -> length t = n1 -> 0 < lr ->
  exists out s' out',
    last (lists (traced x s) (next_loc s)) = Some out /\
    _back_prop (next_loc s) (Arr t) lr (traced x s) = (Ok tt, s') /\
    last (lists (traced x s') (next_loc s')) = Some out' /\
    length out = n1 /\ length out' = n1 /\
    forall j, (j < n1)%nat ->
      (nth j out 0 < nth j t 0 -> nth j out 0 < nth j out' 0) /\
      (nth j t 0 < nth j out 0 -> nth j out' 0 < nth j out 0) /\
      (nth j t 0 = nth j out 0 -> nth j out' 0 = nth j out 0).
Proof.
  intros Hnet Hx Ht Hlr.
  set (y0 := concatenate (ones 1) x).
  assert (Hlen : (2 <= length [n0; n1])%nat) by (simpl; lia).
  destruct (traced_ok [n0; n1] s x n0 Hnet Hlen eq_refl Hx) as [Hnet1 Htr1].
  destruct (traced_list [n0; n1] s x n0 Hnet Hlen eq_refl Hx) as [Hl1 Hw1].
  pose proof (net_ok_length _ _ Hnet) as Hn. simpl in Hn.
  destruct (weights s) as [|w [|w2 ws]] eqn:Ews; try discriminate. clear Hn.
  destruct (net_ok_weight [n0; n1] s 0 w Hnet) as (m0 & m1 & Hm0 & Hm1 & Hwf & Hr & Hc).
  { now rewrite Ews. }
  injection Hm0 as <-. injection Hm1 as <-.
  simpl in Hl1. fold y0 in Hl1.
  set (out := activity (vecmat y0 w)) in *.
  assert (Hout : last (lists (traced x s) (next_loc s)) = Some out) by now rewrite Hl1.
  destruct (back_prop_run [n0; n1] (traced x s) (next_loc s) (Arr t) lr n1 out
              Hnet1 Hlen Htr1 eq_refl Hout)
    as (s' & err & ds & Hrun & Hframe & Hlw & Herr & Hlerr & Hlds & Hlastds & _ & _ & Hupd).
  { left. exact Ht. }
  assert (Hlout : length out = n1).
  { unfold out. now rewrite activity_length, vecmat_length. }
  assert (Herr' : err = zip_with Rminus t out).
  { simpl in Herr. unfold broadcast in Herr.
    rewrite Ht, Hlout, Nat.eqb_refl in Herr. now injection Herr as <-. }
  rewrite Hw1 in Hlds, Hupd, Hlw. simpl in Hlds, Hlw.
  destruct (Hupd 0%nat w eq_refl) as (w' & yi & d & Hw' & Hyi & Hd & Hu).
  rewrite Hl1 in Hyi. injection Hyi as <-.
  destruct ds as [|d' [|d2 ds]]; try discriminate.
  injection Hd as ->. injection Hlastds as Hdval.
  assert (Hws' : weights s' = [w']).
  { destruct (weights s') as [|v [|v2 vs]]; try discriminate. now injection Hw' as ->. }
  assert (Hnet' : net_ok [n0; n1] s').
  { eapply net_ok_same_shapes; [exact Hnet1|].
    pose proof (back_prop_shapes (next_loc s) (Arr t) lr (traced x s)) as H.
    now rewrite Hrun in H. }
  destruct (traced_list [n0; n1] s' x n0 Hnet' Hlen eq_refl Hx) as [Hl2 _].
  rewrite Hws' in Hl2. simpl in Hl2. fold y0 in Hl2.
  set (out' := activity (vecmat y0 w')) in *.
  exists out, s', out'.
  split; [exact Hout|]. split; [exact Hrun|]. split; [now rewrite Hl2|].
  split; [exact Hlout|].
  assert (Hsh : shape w' = shape w).
  { destruct Hu as (upd & _ & Hadd). now destruct (iadd_shape _ _ _ Hadd). }
  injection Hsh as Hr' Hc'.
  split; [unfold out'; rewrite activity_length, vecmat_length; congruence|].
  intros j Hj.
  assert (Hy0 : length y0 = S n0) by (unfold y0, concatenate; simpl; congruence).
  assert (Hld : length d = n1).
  { rewrite Hdval, length_zip_with, Hlerr. unfold activity_derivative.
    rewrite length_map, Nat.min_id. exact Hlout. }
  assert (Hwf' : wf w').
  { destruct Hu as (upd & _ & Hadd). destruct (iadd_shape _ _ _ Hadd) as [_ H]. now apply H. }
  (* the outputs, entry by entry *)
  assert (Ho : nth j out 0 = Rtrigo_def.tanh (inner y0 (column w j))).
  { unfold out, activity, np.tanh, vecmat.
    erewrite nth_lookup_Some; [reflexivity|].
    rewrite !lookup_map, lookup_seq_lt by lia. reflexivity. }
  assert (Ho' : nth j out' 0 = Rtrigo_def.tanh (inner y0 (column w' j))).
  { unfold out', activity, np.tanh, vecmat.
    erewrite nth_lookup_Some; [reflexivity|].
    rewrite !lookup_map, lookup_seq_lt by lia. reflexivity. }
  (* the weighted sums before and after *)
  assert (Hnetj : inner y0 (column w' j)
                  = inner y0 (column w j) + lr * nth j d 0 * inner y0 y0).
  { apply inner_update.
    - rewrite column_length. destruct Hwf as [-> _]. congruence.
    - rewrite column_length. destruct Hwf' as [-> _]. congruence.
    - intros i Hi. rewrite !nth_column.
      destruct (updated_entry lr y0 d w w' i j Hu Hwf) as [_ He]; try congruence; try lia.
      rewrite He. ring. }
  assert (Hdj : nth j d 0 = (nth j t 0 - nth j out 0) * tanh_derivative (nth j out 0)).
  { rewrite Hdval, Herr'.
    destruct (lookup_lt_is_Some_2 t j) as [tj Htj]; [lia|].
    destruct (lookup_lt_is_Some_2 out j) as [oj Hoj]; [lia|].
    rewrite (nth_lookup_Some _ _ 0 tj Htj), (nth_lookup_Some _ _ 0 oj Hoj).
    apply nth_lookup_Some.
    unfold activity_derivative.
    rewrite !lookup_zip_with, lookup_map, Htj, Hoj. reflexivity. }
  assert (Hnorm : 1 <= inner y0 y0).
  { unfold y0, concatenate, ones. simpl.
    change (1 <= inner (1 :: x) (1 :: x)). unfold inner. simpl.
    pose proof (inner_self_nonneg x) as H. unfold inner in H. lra. }
  pose proof (tanh_derivative_pos (nth j out 0)) as Htd.
  set (e := nth j t 0 - nth j out 0) in *.
  set (g := tanh_derivative (nth j out 0)) in *.
  set (nrm := inner y0 y0) in *.
  assert (Hfac : 0 < lr * g * nrm) by (apply Rmult_lt_0_compat; [apply Rmult_lt_0_compat|]; lra).
  assert (Hstep : inner y0 (column w' j) = inner y0 (column w j) + e * (lr * g * nrm)).
  { rewrite Hnetj, Hdj. ring. }
  split; [|split].
  - intros Hlt. assert (0 < e) by (unfold e; lra).
    rewrite Ho', Hstep, Ho. apply tanh_increasing.
    assert (0 < e * (lr * g * nrm)) by (now apply Rmult_lt_0_compat). lra.
  - intros Hlt. assert (0 < - e) by (unfold e; lra).
    rewrite Ho', Hstep, Ho. apply tanh_increasing.
    assert (0 < - e * (lr * g * nrm)) by (now apply Rmult_lt_0_compat). lra.
  - intros Heq. assert (He0 : e = 0) by (unfold e; lra).
    rewrite Ho', Hstep, Ho, He0. f_equal. ring.
Qed.

Lemma training_step_moves_towards_target_witness :
  exists out s' out',
    last (lists (traced [0] biased_network) (next_loc biased_network)) = Some out /\
    _back_prop (next_loc biased_network) (Arr [0]) 1 (traced [0] biased_network)
      = (Ok tt, s') /\
    last (lists (traced [0] s') (next_loc s')) = Some out' /\
    length out = 1%nat /\ length out' = 1%nat /\
    forall j, (j < 1)%nat ->
      (nth j out 0 < nth j [0] 0 -> nth j out 0 < nth j out' 0) /\
      (nth j [0] 0 < nth j out 0 -> nth j out' 0 < nth j out 0) /\
      (nth j [0] 0 = nth j out 0 -> nth j out' 0 = nth j out 0).
Proof.
  apply (training_step_moves_towards_target 1 1 biased_network [0] [0] 1
           biased_network_ok eq_refl eq_refl).
  lra.
Defined.

(** ** Training, call after call *)

Lemma for_each_app {A} (l1 l2 : list A) (body : A -> M unit) s :
  for_each (l1 ++ l2) body s = (for_each l1 body ;;; for_each l2 body) s.
Proof.
  unfold for_each. revert s. induction l1 as [|x l1 IH]; intros s.
  - reflexivity.
  - simpl. unfold bind in *. destruct (body x s) as [[[]|e] s1]; [|reflexivity].
    apply IH.
Qed.

Lemma for_each_const {A B} (l1 : list A) (l2 : list B) (m : M unit) s :
  length l1 = length l2 ->
  for_each l1 (fun _ => m) s = for_each l2 (fun _ => m) s.
Proof.
  unfold for_each. revert l2 s. induction l1 as [|x l1 IH]; intros [|y l2] s Hlen;
    try discriminate; [reflexivity|].
  simpl. unfold bind. destruct (m s) as [[[]|e] s1]; [|reflexivity].
  apply IH. simpl in Hlen. lia.
Qed.

(** X13. Training can be resumed: one call of [fit] with [a + b] epochs
    leaves what a call with [a] epochs followed by a call with [b] epochs
    leaves (the progress lines apart, which count from 1 in every call). *)
Theorem fit_resumes data labels lr a b s :
  fit data labels lr (a + b) s = (fit data labels lr a ;;; fit data labels lr b) s.
Proof.
  unfold fit. destruct (run_bias_column data) as [Z HZ].
  rewrite (bind_Ok _ _ _ _ _ (run_lift _ _ _ HZ)).
  unfold bind at 7. rewrite (bind_Ok _ _ _ _ _ (run_lift _ _ _ HZ)).
  unfold range. rewrite seq_app, for_each_app. unfold bind at 1.
  destruct (for_each (seq 0 a) _ s) as [[[]|e] s1]; [|reflexivity].
  rewrite (bind_Ok _ _ _ _ _ (run_lift _ _ _ HZ)).
  apply for_each_const. now rewrite !length_seq.
Qed.

Lemma advance_0 g : advance 0 g = g.
Proof. destruct g. unfold advance. simpl. f_equal. lia. Qed.

Lemma advance_advance j k g : advance k (advance j g) = advance (j + k) g.
Proof. unfold advance. simpl. f_equal. lia. Qed.

Lemma weight_count_take net_arch k a0 a1 :
  net_arch !! k = Some a0 -> net_arch !! S k = Some a1 ->
  weight_count (take (S (S k)) net_arch)
  = (weight_count (take (S k) net_arch) + Z.to_nat (a0 + 1) * Z.to_nat a1)%nat.
Proof.
  revert k. induction net_arch as [|a l IH]; intros k H0 H1; [discriminate|].
  destruct k as [|k].
  - injection H0 as ->. destruct l as [|b l]; [discriminate|]. injection H1 as ->.
    cbn [firstn weight_count]. rewrite take_0. lia.
  - simpl in H0, H1. destruct l as [|b l]; [discriminate|].
    specialize (IH k H0 H1). cbn [firstn weight_count] in *. lia.
Qed.

(** What the constructor takes from [np.random] when it returns: one
    sample per weight. *)
Lemma init_draws net_arch s0 :
  match __init__ net_arch s0 with
  | (Ok _, s) =>
      parameters s = weight_count net_arch /\
      rng s = advance (weight_count net_arch) (rng s0)
  | (Raise _, _) => True
  end.
Proof.
  unfold __init__, bind, modify, get. simpl.
  set (s1 := set_weights [] (set_arch net_arch (set_layers (length net_arch) s0))).
  unfold for_each.
  pose proof (foldM_rule
    (fun (_ : unit) layer =>
       a0 <- lift (match net_arch !! layer with Some a => Ok a | None => Raise IndexError end) ;;
       a1 <- lift (match net_arch !! (layer + 1)%nat with Some a => Ok a | None => Raise IndexError end) ;;
       u <- random_rand (a0 + 1) a1 ;;
       weights_append (affine u))
    (range (length net_arch - 1))
    (fun k _ s => parameters s = weight_count (take (S k) net_arch) /\
                  rng s = advance (parameters s) (rng s0))
    (fun _ _ => True) tt s1) as Hrule.
  match type of Hrule with ?P -> ?Q -> _ => assert (H0 : P); [|assert (Hstep : Q)] end.
  - split.
    + destruct net_arch as [|a l]; [reflexivity|]. cbn [firstn weight_count].
      rewrite ?take_0. reflexivity.
    + unfold parameters. simpl. now rewrite advance_0.
  - intros k layer [] s Hk (Hp & Hg).
    apply range_lookup in Hk as [-> Hk].
    destruct (lookup_lt_is_Some_2 net_arch k) as [a0 Ha0]; [lia|].
    destruct (lookup_lt_is_Some_2 net_arch (k + 1)) as [a1 Ha1]; [lia|].
    unfold bind, lift. rewrite Ha0, Ha1. unfold random_rand, rand.
    destruct (_ || _)%Z; [exact I|].
    unfold weights_append, modify. simpl.
    match goal with |- parameters ?s' = _ /\ _ =>
      assert (Hp' : parameters s'
                    = (parameters s + Z.to_nat (a0 + 1) * Z.to_nat a1)%nat)
    end.
    { unfold parameters. simpl. rewrite map_app, list_sum_app. simpl. lia. }
    rewrite Hp'. split.
    + rewrite Nat.add_1_r in Ha1. rewrite (weight_count_take net_arch k a0 a1 Ha0 Ha1). lia.
    + rewrite Hg. apply advance_advance.
  - specialize (Hrule H0 Hstep).
    destruct (foldM _ _ tt s1) as [[[]|e] s]; [|exact I].
    destruct Hrule as [Hp Hg]. rewrite range_length in Hp.
    assert (E : weight_count (take (S (length net_arch - 1)) net_arch)
                = weight_count net_arch).
    { f_equal. apply take_ge. lia. }
    rewrite E in Hp. split; [exact Hp|]. now rewrite Hg, Hp.
Qed.

(** X14. The constructor draws exactly one sample of [np.random.rand] per
    weight and nothing else, and a network has one weight per neuron of a
    layer and one for its bias, for every neuron of the next layer. *)
Theorem init_draws_one_sample_per_weight net_arch s0 s :
  __init__ net_arch s0 = (Ok tt, s) ->
  parameters s = weight_count net_arch /\
  rng s = advance (parameters s) (rng s0) /\
  uniform (rng s) = uniform (rng s0) /\ integer (rng s) = integer (rng s0) /\
  cursor (rng s) = (cursor (rng s0) + weight_count net_arch)%nat.
Proof.
  intros Hrun. pose proof (init_draws net_arch s0) as H. rewrite Hrun in H.
  destruct H as [Hp Hg]. split; [exact Hp|]. rewrite Hp, Hg. now repeat split.
Qed.

Lemma init_draws_one_sample_per_weight_witness :
  parameters xor_network = 9%nat /\
  rng xor_network = advance (parameters xor_network) (constant_generator (1 / 2)) /\
  cursor (rng xor_network) = 9%nat.
Proof.
  destruct (init_draws_one_sample_per_weight [2; 2; 1]%Z
              (fresh (constant_generator (1 / 2))) xor_network)
    as (Hp & Hg & _ & _ & Hc).
  - reflexivity.
  - split; [exact Hp|]. split; [exact Hg|exact Hc].
Defined.

(** Run the first computation of a sequence, in both outcomes. *)
Tactic Notation "bind_step" ident(H) :=
  match goal with
  | |- context [bind ?m ?k ?s] =>
      let r := fresh "r" in
      let s' := fresh "s" in
      destruct (m s) as [[r|r] s'] eqn:H;
      [rewrite (bind_Ok m k s _ _ H) | rewrite (bind_Raise m k s _ _ H)]
  end.

(** One iteration of [fit] that returns: it has drawn one integer, made
    one new list that starts with the drawn row of [Z], and left the other
    lists alone. *)
Lemma fit_iteration_sample Z labels lr s :
  match (s0 <- get ;;
         sample <- random_randint (nrows (X s0)) ;;
         z <- lift (getrow Z sample) ;;
         x <- list_new [z] ;;
         y <- counted Forward (_forward_prop x) ;;
         target <- lift (label_at labels sample) ;;
         counted Backward (_back_prop y target lr)) s with
  | (Ok _, s') =>
      rng s' = advance 1 (rng s) /\ next_loc s' = S (next_loc s) /\ X s' = X s /\
      length (weights s') = length (weights s) /\
      (forall l, l <> next_loc s -> lists s' l = lists s l) /\
      exists z rest,
        rows Z !! integer (rng s) (cursor (rng s)) (nrows (X s)) = Some z /\
        lists s' (next_loc s) = z :: rest /\ length rest = length (weights s)
  | (Raise _, _) => True
  end.
Proof.
  rewrite (bind_Ok get _ s s s eq_refl).
  bind_step E1; [|exact I].
  unfold random_randint, randint in E1.
  destruct (nrows (X s) =? 0)%nat; [discriminate|]. injection E1 as <- <-.
  set (sample := integer (rng s) (cursor (rng s)) (nrows (X s))).
  set (s1 := set_rng (advance 1 (rng s)) s).
  bind_step E2; [|exact I].
  unfold lift, getrow in E2.
  destruct (rows Z !! sample) as [z|] eqn:Ez; [|discriminate]. injection E2 as <- <-.
  rewrite (bind_Ok (list_new [z]) _ s1 (next_loc s)
             (set_next_loc (S (next_loc s)) (set_list (next_loc s) [z] s1)) eq_refl).
  set (s2 := set_next_loc (S (next_loc s)) (set_list (next_loc s) [z] s1)).
  bind_step E3; [|exact I].
  unfold counted in E3.
  pose proof (forward_prop_only_list (next_loc s) s2) as Hframe.
  pose proof (forward_prop_appends (next_loc s) s2) as Happ.
  destruct (_forward_prop (next_loc s) s2) as [[y|e] s3] eqn:Ef.
  2:{ rewrite (bind_Raise _ _ _ _ _ Ef) in E3. discriminate. }
  rewrite (bind_Ok _ _ _ _ _ Ef) in E3. unfold bind, modify, ret in E3.
  injection E3 as <- <-.
  destruct Happ as (-> & _ & new & Hnew & Hlnew).
  destruct Hframe as (_ & _ & Hw3 & HX3 & Hn3 & Hg3 & _ & Hl3).
  set (s4 := set_calls (calls s3 ++ [Forward]) s3).
  bind_step E4; [|exact I].
  unfold lift in E4. injection E4 as _ <-.
  unfold counted.
  pose proof (back_prop_only_weights (next_loc s) r lr s4) as Hframe.
  pose proof (back_prop_shapes (next_loc s) r lr s4) as (_ & _ & Hsh & _).
  destruct (_back_prop (next_loc s) r lr s4) as [[[]|e] s5] eqn:Eb.
  2:{ now rewrite (bind_Raise _ _ _ _ _ Eb). }
  rewrite (bind_Ok _ _ _ _ _ Eb).
  destruct Hframe as (_ & _ & HX5 & Hl5 & Hn5 & Hg5 & _).
  unfold bind, modify, ret. simpl in *.
  rewrite Nat.eqb_refl in Hnew. simpl in Hnew.
  split; [congruence|]. split; [congruence|]. split; [congruence|].
  split.
  { rewrite <- (length_map shape (weights s5)), Hsh, length_map. now rewrite Hw3. }
  split.
  { intros l Hl. rewrite Hl5. simpl. rewrite (Hl3 l Hl).
    destruct (Nat.eqb_spec l (next_loc s)); [contradiction|reflexivity]. }
  exists z, new. split; [reflexivity|]. split; [now rewrite Hl5; simpl; rewrite Hnew|].
  rewrite Hlnew. reflexivity.
Qed.

Lemma bias_rows_lookup data i r :
  wf data -> rows data !! i = Some r ->
  forall Z, concatenate1 (T (ones2 1 (nrows data))) data = Ok Z ->
  rows Z !! i = Some (concatenate (ones 1) r).
Proof.
  intros Hwf Hr Z HZ.
  destruct (fit_bias_rows data Hwf) as (Z' & HZ' & Hrows).
  assert (Z' = Z) as -> by congruence.
  destruct (Hrows i) as (r' & Hr' & HZi).
  { destruct Hwf as [<- _]. eapply lookup_lt_Some; eauto. }
  congruence.
Qed.

Lemma bias_rows_length data Z :
  wf data -> concatenate1 (T (ones2 1 (nrows data))) data = Ok Z ->
  length (rows Z) = nrows data.
Proof.
  intros [Hlen _]. unfold concatenate1. simpl. rewrite Nat.eqb_refl. intros [= <-].
  simpl. rewrite length_zip_with, length_map, length_seq. lia.
Qed.

(** X15. Which samples [fit] trains on. A call that returns has drawn one
    integer below [X.shape[0]] per iteration and nothing else from
    [np.random]; iteration [k] has made one new list, which starts with the
    row of [data] at the integer drawn in that iteration, the bias in front,
    and holds one more array per weight matrix; the lists that existed are
    left as they were. *)
Theorem fit_trains_on_the_drawn_rows data labels lr epochs s s' :
  wf data -> fit data labels lr epochs s = (Ok tt, s') ->
  rng s' = advance epochs (rng s) /\
  next_loc s' = (next_loc s + epochs)%nat /\
  (forall l, (l < next_loc s)%nat -> lists s' l = lists s l) /\
  forall k, (k < epochs)%nat ->
    exists r rest,
      rows data !! integer (rng s) (cursor (rng s) + k) (nrows (X s)) = Some r /\
      lists s' (next_loc s + k)%nat = concatenate (ones 1) r :: rest /\
      length rest = length (weights s).
Proof.
  intros Hwf Hrun. unfold fit in Hrun.
  destruct (run_bias_column data) as [Z HZ].
  rewrite (bind_Ok _ _ _ _ _ (run_lift _ _ _ HZ)) in Hrun.
  pose proof (foldM_rule
    (fun (_ : unit) (k : nat) =>
       s0 <- get ;;
       sample <- random_randint (nrows (X s0)) ;;
       z <- lift (getrow Z sample) ;;
       x <- list_new [z] ;;
       y <- counted Forward (_forward_prop x) ;;
       target <- lift (label_at labels sample) ;;
       counted Backward (_back_prop y target lr))
    (range epochs)
    (fun n _ s1 =>
       rng s1 = advance n (rng s) /\ next_loc s1 = (next_loc s + n)%nat /\
       X s1 = X s /\ length (weights s1) = length (weights s) /\
       (forall l, (l < next_loc s)%nat -> lists s1 l = lists s l) /\
       forall k, (k < n)%nat ->
         exists r rest,
           rows data !! integer (rng s) (cursor (rng s) + k) (nrows (X s)) = Some r /\
           lists s1 (next_loc s + k)%nat = concatenate (ones 1) r :: rest /\
           length rest = length (weights s))
    (fun _ _ => True) tt s) as Hloop.
  match type of Hloop with ?P -> ?Q -> _ => assert (I0 : P); [|assert (Hstep : Q)] end.
  - split; [now rewrite advance_0|]. split; [lia|]. split; [reflexivity|].
    split; [reflexivity|]. split; [reflexivity|]. intros; lia.
  - intros n i [] s1 _ (Hg & Hn & HX & Hw & Hold & Hdone).
    pose proof (fit_iteration_sample Z labels lr s1) as Hit.
    match goal with |- match ?c with _ => _ end => destruct c as [[[]|e] s2] end;
      [|exact I].
    destruct Hit as (Hg2 & Hn2 & HX2 & Hw2 & Hl2 & z & rest & Hz & Hlz & Hrest).
    split; [rewrite Hg2, Hg, advance_advance; f_equal; lia|].
    split; [lia|]. split; [congruence|]. split; [congruence|]. split.
    { intros l Hl. rewrite Hl2 by lia. now apply Hold. }
    intros k Hk. destruct (decide (k = n)) as [->|Hne].
    + rewrite Hg, HX in Hz. simpl in Hz.
      assert (Hi : (integer (rng s) (cursor (rng s) + n) (nrows (X s)) < nrows data)%nat).
      { rewrite <- (bias_rows_length data Z Hwf HZ). eapply lookup_lt_Some; eauto. }
      destruct (lookup_lt_is_Some_2 (rows data) _
                  ltac:(destruct Hwf as [-> _]; exact Hi)) as [r Hr].
      exists r, rest. split; [exact Hr|].
      rewrite (bias_rows_lookup data _ r Hwf Hr Z HZ) in Hz. injection Hz as <-.
      rewrite <- Hn. split; [exact Hlz|congruence].
    + destruct (Hdone k ltac:(lia)) as (r & rest' & Hr & Hlr & Hlen).
      exists r, rest'. split; [exact Hr|]. split; [|exact Hlen].
      rewrite Hl2 by lia. exact Hlr.
  - specialize (Hloop I0 Hstep). unfold for_each in Hrun. rewrite Hrun in Hloop.
    rewrite range_length in Hloop.
    destruct Hloop as (Hg & Hn & _ & _ & Hold & Hdone). now repeat split.
Qed.

Lemma fit_trains_on_the_drawn_rows_witness :
  exists s',
    fit notebook_X notebook_y (1 / 10) 3 xor_network = (Ok tt, s') /\
    rng s' = advance 3 (rng xor_network) /\
    next_loc s' = 3%nat /\
    forall k, (k < 3)%nat ->
      exists r rest,
        rows notebook_X
          !! integer (rng xor_network) (cursor (rng xor_network) + k) 4 = Some r /\
        lists s' k = concatenate (ones 1) r :: rest /\ length rest = 2%nat.
Proof.
  assert (Hwf : wf notebook_X) by (split; [reflexivity|repeat constructor]).
  destruct (fit_total [2; 2; 1]%nat xor_network notebook_X notebook_y (1 / 10) 3 2 1
              xor_network_ok ltac:(simpl; lia) eq_refl eq_refl Hwf eq_refl
              ltac:(simpl; lia) notebook_labels_ok xor_network_generator)
    as (s' & Hfit & _).
  destruct (fit_trains_on_the_drawn_rows notebook_X notebook_y (1 / 10) 3 xor_network s'
              Hwf Hfit) as (Hg & Hn & _ & Hk).
  exists s'. split; [exact Hfit|]. split; [exact Hg|]. split; [exact Hn|]. exact Hk.
Defined.

(** The first iteration of [fit] on a well-shaped network, case by case
    of what stops it before [_back_prop]. *)
Lemma fit_iteration_errors sizes s Z data labels lr n0 :
  net_ok sizes s -> (2 <= length sizes)%nat -> sizes !! 0%nat = Some n0 ->
  wf data -> concatenate1 (T (ones2 1 (nrows data))) data = Ok Z ->
  let sample := integer (rng s) (cursor (rng s)) (nrows (X s)) in
  let iteration :=
    (s0 <- get ;;
     sample <- random_randint (nrows (X s0)) ;;
     z <- lift (getrow Z sample) ;;
     x <- list_new [z] ;;
     y <- counted Forward (_forward_prop x) ;;
     target <- lift (label_at labels sample) ;;
     counted Backward (_back_prop y target lr)) in
  (nrows (X s) = 0%nat ->
   exists s', iteration s = (Raise ValueError, s') /\ weights s' = weights s) /\
  ((0 < nrows (X s))%nat -> (nrows data <= sample)%nat ->
   exists s', iteration s = (Raise IndexError, s') /\ weights s' = weights s) /\
  ((0 < nrows (X s))%nat -> (sample < nrows data)%nat -> ncols data <> n0 ->
   exists s', iteration s = (Raise ValueError, s') /\ weights s' = weights s) /\
  ((0 < nrows (X s))%nat -> (sample < nrows data)%nat -> ncols data = n0 ->
   forall e, label_at labels sample = Raise e ->
   exists s', iteration s = (Raise e, s') /\ weights s' = weights s).
Proof.
  intros Hnet Hlen H0 Hwf HZ sample iteration. unfold iteration.
  rewrite (bind_Ok get _ s s s eq_refl).
  split.
  { intros HX. exists (set_rng (rng s) s). split; [|reflexivity]. apply bind_Raise.
    unfold random_randint, randint. rewrite HX. reflexivity. }
  assert (Hdraw : (0 < nrows (X s))%nat ->
            random_randint (nrows (X s)) s = (Ok sample, set_rng (advance 1 (rng s)) s)).
  { intros HX. now apply run_random_randint. }
  set (s1 := set_rng (advance 1 (rng s)) s) in *.
  split.
  { intros HX Hge. rewrite (bind_Ok _ _ _ _ _ (Hdraw HX)).
    exists s1. split; [|reflexivity]. apply bind_Raise. unfold lift, getrow.
    rewrite lookup_ge_None_2; [reflexivity|].
    now rewrite (bias_rows_length data Z Hwf HZ). }
  assert (Hrow : (sample < nrows data)%nat ->
            exists r, getrow Z sample = Ok (concatenate (ones 1) r) /\ length r = ncols data).
  { intros Hlt. destruct (lookup_lt_is_Some_2 (rows data) sample) as [r Hr].
    { destruct Hwf as [-> _]. exact Hlt. }
    exists r. split.
    - unfold getrow. now rewrite (bias_rows_lookup data sample r Hwf Hr Z HZ).
    - destruct Hwf as [_ Hrows]. rewrite Forall_lookup in Hrows. exact (Hrows _ _ Hr). }
  split.
  - intros HX Hlt Hcols. rewrite (bind_Ok _ _ _ _ _ (Hdraw HX)).
    destruct (Hrow Hlt) as (r & Hr & Hlr).
    rewrite (bind_Ok _ _ _ _ _ (run_lift _ _ _ Hr)).
    set (z := concatenate (ones 1) r).
    rewrite (bind_Ok (list_new [z]) _ s1 (next_loc s)
               (set_next_loc (S (next_loc s)) (set_list (next_loc s) [z] s1)) eq_refl).
    set (s2 := set_next_loc (S (next_loc s)) (set_list (next_loc s) [z] s1)).
    assert (Hnet2 : net_ok sizes s2) by (now apply (net_ok_frame sizes s)).
    exists s2. split; [|reflexivity]. apply bind_Raise. unfold counted. apply bind_Raise.
    apply (forward_prop_wrong_length sizes s2 (next_loc s) z n0 Hnet2 Hlen H0).
    + unfold s2. simpl. now rewrite Nat.eqb_refl.
    + unfold z, concatenate. simpl. lia.
  - intros HX Hlt Hcols e He. rewrite (bind_Ok _ _ _ _ _ (Hdraw HX)).
    destruct (Hrow Hlt) as (r & Hr & Hlr).
    rewrite (bind_Ok _ _ _ _ _ (run_lift _ _ _ Hr)).
    set (z := concatenate (ones 1) r).
    rewrite (bind_Ok (list_new [z]) _ s1 (next_loc s)
               (set_next_loc (S (next_loc s)) (set_list (next_loc s) [z] s1)) eq_refl).
    set (s2 := set_next_loc (S (next_loc s)) (set_list (next_loc s) [z] s1)).
    assert (Hnet2 : net_ok sizes s2) by (now apply (net_ok_frame sizes s)).
    destruct (forward_prop_total sizes s2 (next_loc s) z n0 Hnet2 Hlen H0)
      as (s3 & Hrun & Hframe & _ & _).
    { unfold z, concatenate. simpl. lia. }
    { unfold s2. simpl. now rewrite Nat.eqb_refl. }
    rewrite (bind_Ok _ _ _ _ _ (run_counted Forward _ _ _ _ Hrun)).
    eexists. split; [apply bind_Raise; unfold lift; now rewrite He|].
    simpl. destruct Hframe as (_ & _ & -> & _). reflexivity.
Qed.

(** X16. What stops [fit] in its first iteration, on a well-shaped network:
    a global [X] without rows ([np.random.randint(0)] raises [ValueError]),
    a drawn index with no row of [data] ([IndexError]), rows of [data] of
    another length than the first layer ([ValueError] from [np.dot]), a
    drawn index with no label (the error of [labels[sample]]). No weight has
    been written then. *)
Theorem fit_first_iteration_errors sizes s data labels lr epochs n0 :
  net_ok sizes s -> (2 <= length sizes)%nat -> sizes !! 0%nat = Some n0 ->
  wf data -> (0 < epochs)%nat ->
  let sample := integer (rng s) (cursor (rng s)) (nrows (X s)) in
  (nrows (X s) = 0%nat ->
   exists s', fit data labels lr epochs s = (Raise ValueError, s') /\
     weights s' = weights s) /\
  ((0 < nrows (X s))%nat -> (nrows data <= sample)%nat ->
   exists s', fit data labels lr epochs s = (Raise IndexError, s') /\
     weights s' = weights s) /\
  ((0 < nrows (X s))%nat -> (sample < nrows data)%nat -> ncols data <> n0 ->
   exists s', fit data labels lr epochs s = (Raise ValueError, s') /\
     weights s' = weights s) /\
  ((0 < nrows (X s))%nat -> (sample < nrows data)%nat -> ncols data = n0 ->
   forall e, label_at labels sample = Raise e ->
   exists s', fit data labels lr epochs s = (Raise e, s') /\ weights s' = weights s).
Proof.
  intros Hnet Hlen H0 Hwf He sample.
  destruct epochs as [|n]; [lia|].
  destruct (run_bias_column data) as [Z HZ].
  destruct (fit_iteration_errors sizes s Z data labels lr n0 Hnet Hlen H0 Hwf HZ)
    as (H1 & H2 & H3 & H4).
  assert (Hfit : forall e s',
            (s0 <- get ;;
             sample <- random_randint (nrows (X s0)) ;;
             z <- lift (getrow Z sample) ;;
             x <- list_new [z] ;;
             y <- counted Forward (_forward_prop x) ;;
             target <- lift (label_at labels sample) ;;
             counted Backward (_back_prop y target lr)) s = (Raise e, s') ->
            fit data labels lr (S n) s = (Raise e, s')).
  { intros e s' Hit. unfold fit.
    rewrite (bind_Ok _ _ _ _ _ (run_lift _ _ _ HZ)).
    unfold range. simpl seq. unfold for_each. simpl foldM.
    now apply bind_Raise. }
  split; [|split; [|split]].
  - intros HX. destruct (H1 HX) as (s' & Hit & Hw). eauto.
  - intros HX Hge. destruct (H2 HX Hge) as (s' & Hit & Hw). eauto.
  - intros HX Hlt Hc. destruct (H3 HX Hlt Hc) as (s' & Hit & Hw). eauto.
  - intros HX Hlt Hc e Hl. destruct (H4 HX Hlt Hc e Hl) as (s' & Hit & Hw). eauto.
Qed.

Lemma without_rows_ok : net_ok [2; 2; 1]%nat without_rows.
Proof. now apply (net_ok_frame [2; 2; 1]%nat xor_network); [| | |exact xor_network_ok]. Qed.

Lemma fit_first_iteration_errors_witness :
  (exists s', fit notebook_X notebook_y (1 / 10) 1 without_rows = (Raise ValueError, s') /\
     weights s' = weights without_rows) /\
  (exists s', fit short_data short_labels (1 / 10) 1 xor_network = (Raise IndexError, s') /\
     weights s' = weights xor_network) /\
  (exists s', fit narrow_data notebook_y (1 / 10) 1 xor_network = (Raise ValueError, s') /\
     weights s' = weights xor_network) /\
  (exists s', fit notebook_X short_labels (1 / 10) 1 xor_network = (Raise IndexError, s') /\
     weights s' = weights xor_network).
Proof.
  assert (Hlen : (2 <= length [2; 2; 1]%nat)%nat) by (simpl; lia).
  split; [|split; [|split]].
  - destruct (fit_first_iteration_errors [2; 2; 1]%nat without_rows notebook_X notebook_y
                (1 / 10) 1 2 without_rows_ok Hlen eq_refl) as (H & _).
    + split; [reflexivity|repeat constructor].
    + lia.
    + apply H. reflexivity.
  - destruct (fit_first_iteration_errors [2; 2; 1]%nat xor_network short_data short_labels
                (1 / 10) 1 2 xor_network_ok Hlen eq_refl) as (_ & H & _).
    + split; [reflexivity|repeat constructor].
    + lia.
    + apply H; simpl; lia.
  - destruct (fit_first_iteration_errors [2; 2; 1]%nat xor_network narrow_data notebook_y
                (1 / 10) 1 2 xor_network_ok Hlen eq_refl) as (_ & _ & H & _).
    + split; [reflexivity|repeat constructor].
    + lia.
    + apply H; simpl; lia.
  - destruct (fit_first_iteration_errors [2; 2; 1]%nat xor_network notebook_X short_labels
                (1 / 10) 1 2 xor_network_ok Hlen eq_refl) as (_ & _ & _ & H).
    + split; [reflexivity|repeat constructor].
    + lia.
    + apply H; try (simpl; lia); reflexivity.
Defined.

(** ** Labels as a column *)

Lemma bind_ext {A B} (m : M A) (k1 k2 : A -> M B) s :
  (forall a s', k1 a s' = k2 a s') -> bind m k1 s = bind m k2 s.
Proof. intros H. unfold bind. destruct (m s) as [[a|e] s']; [apply H|reflexivity]. Qed.

Lemma foldM_ext {A B} (f g : B -> A -> M B) l b s :
  (forall b x s', f b x s' = g b x s') -> foldM f l b s = foldM g l b s.
Proof.
  intros H. revert b s. induction l as [|x l IH]; intros b s; [reflexivity|].
  simpl. rewrite (bind_ext _ _ (fun b' => foldM g l b') s); [|intros; apply IH].
  unfold bind. now rewrite H.
Qed.

(** A number and a one-entry array are subtracted from in the same way. *)
Lemma subtract_one_entry x out : subtract (Arr [x]) out = subtract (Scalar x) out.
Proof.
  simpl. unfold broadcast. destruct out as [|o [|o' out]]; reflexivity.
Qed.

Lemma back_prop_one_entry y x lr s :
  _back_prop y (Arr [x]) lr s = _back_prop y (Scalar x) lr s.
Proof.
  unfold _back_prop. apply bind_ext. intros out s1.
  now rewrite subtract_one_entry.
Qed.

Lemma label_at_column v i :
  label_at (Labels2 (as_column v)) i
  = match v !! i with Some x => Ok (Arr [x]) | None => Raise IndexError end.
Proof.
  unfold label_at, as_column. simpl. rewrite lookup_map. now destruct (v !! i).
Qed.

(** X17. The shape of the labels does not matter: [fit] on labels given as
    an array of shape (n, 1) does what it does on the same labels given as
    an array of shape (n,), whatever the network. *)
Theorem fit_labels_as_column data v lr epochs s :
  fit data (Labels2 (as_column v)) lr epochs s = fit data (Labels1 v) lr epochs s.
Proof.
  unfold fit. apply bind_ext. intros Z s1.
  unfold for_each. apply foldM_ext. intros [] k s2.
  apply bind_ext. intros s3 s4. apply bind_ext. intros sample s5.
  apply bind_ext. intros z s6. apply bind_ext. intros x s7.
  apply bind_ext. intros y s8.
  rewrite label_at_column. unfold label_at.
  destruct (v !! sample) as [t|]; [|reflexivity].
  rewrite (bind_Ok (lift (Ok (Arr [t]))) _ s8 (Arr [t]) s8 eq_refl).
  rewrite (bind_Ok (lift (Ok (Scalar t))) _ s8 (Scalar t) s8 eq_refl).
  unfold counted, bind. now rewrite back_prop_one_entry.
Qed.

(** ** The cell that trains and prints *)

#[local] Instance same_X_preorder : PreOrder same_X.
Proof.
  split; [intros s; reflexivity|].
  intros s1 s2 s3 H1 H2. unfold same_X in *. congruence.
Qed.

Lemma random_rand_same_X d0 d1 : preserves same_X (random_rand d0 d1).
Proof. intros s. unfold random_rand. now destruct (rand d0 d1 (rng s)). Qed.

Lemma init_same_X net_arch : preserves same_X (__init__ net_arch).
Proof.
  unfold __init__, weights_append.
  repeat first
    [ apply preserves_modify; intros s; reflexivity
    | apply random_rand_same_X
    | preserves_step ].
Qed.

Lemma forward_prop_same_X x : preserves same_X (_forward_prop x).
Proof. intros s. apply (forward_prop_only_list x s). Qed.

Lemma back_prop_same_X y target lr : preserves same_X (_back_prop y target lr).
Proof. intros s. apply (back_prop_only_weights y target lr s). Qed.

Lemma counted_same_X {A} c (m : M A) :
  preserves same_X m -> preserves same_X (counted c m).
Proof.
  intros H. unfold counted. apply preserves_bind; [typeclasses eauto|exact H|].
  intros a. apply preserves_bind;
    [typeclasses eauto| |intros; apply preserves_ret; typeclasses eauto].
  apply preserves_modify. intros s. reflexivity.
Qed.

Lemma random_randint_same_X n : preserves same_X (random_randint n).
Proof. intros s. unfold random_randint. now destruct (randint n (rng s)). Qed.

Lemma list_new_same_X v : preserves same_X (list_new v).
Proof. intros s. reflexivity. Qed.

Lemma fit_same_X data labels lr epochs : preserves same_X (fit data labels lr epochs).
Proof.
  unfold fit.
  repeat first
    [ apply random_randint_same_X | apply list_new_same_X
    | apply counted_same_X; [apply forward_prop_same_X || apply back_prop_same_X]
    | preserves_step ].
Qed.

Lemma valid_generator_advance n g : valid_generator g -> valid_generator (advance n g).
Proof. intros [Hu Hi]. split; [exact Hu|exact Hi]. Qed.

(** X18. The cell runs to its end whatever the state of [np.random]
    (whatever the seed): the 4000 iterations of [fit] are made and four
    numbers are printed, none of them outside [-1, 1]. *)
Theorem train_and_print_runs s0 :
  X s0 = notebook_X -> valid_generator (rng s0) ->
  exists printed s',
    train_and_print s0 = (Ok printed, s') /\
    length printed = 4%nat /\ Forall (fun v => -1 <= v <= 1) printed /\
    net_ok [2; 2; 1]%nat s' /\
    updates (calls s') = (updates (calls s0) + 4000)%nat.
Proof.
  intros HX Hg. unfold train_and_print.
  pose proof (init_spec [2; 2; 1]%Z s0) as Hinit.
  pose proof (init_draws [2; 2; 1]%Z s0) as Hdraws.
  pose proof (init_same_X [2; 2; 1]%Z s0) as HX1.
  pose proof (init_net_ok [2; 2; 1]%nat s0) as Hnet1.
  assert (Hcalls1 : calls (__init__ [2; 2; 1]%Z s0).2 = calls s0) by reflexivity.
  change (map Z.of_nat [2; 2; 1]%nat) with [2; 2; 1]%Z in Hnet1.
  destruct (__init__ [2; 2; 1]%Z s0) as [[[]|e] s1] eqn:Einit.
  2:{ destruct Hinit as (_ & i & a0 & a1 & Hi0 & Hi1 & Hneg). exfalso.
      destruct i as [|[|[|i]]]; simpl in Hi0, Hi1; try discriminate;
        injection Hi0 as <-; injection Hi1 as <-; lia. }
  destruct Hdraws as [_ Hg1]. specialize (Hnet1 eq_refl). simpl in Hnet1, HX1, Hcalls1.
  unfold same_X in HX1.
  rewrite (bind_Ok _ _ _ _ _ Einit).
  rewrite (bind_Ok get _ s1 s1 s1 eq_refl).
  assert (Hlen : (2 <= length [2; 2; 1]%nat)%nat) by (simpl; lia).
  destruct (fit_total [2; 2; 1]%nat s1 (X s1) notebook_y (1 / 10) 4000 2 1 Hnet1 Hlen
              eq_refl eq_refl) as (s2 & Hfit & Hnet2).
  { rewrite HX1, HX. split; [reflexivity|]. repeat constructor. }
  { now rewrite HX1, HX. }
  { rewrite HX1, HX. simpl. lia. }
  { rewrite HX1, HX. exact notebook_labels_ok. }
  { rewrite Hg1. now apply valid_generator_advance. }
  pose proof (fit_calls (X s1) notebook_y (1 / 10) 4000 s1) as Hcalls.
  pose proof (fit_same_X (X s1) notebook_y (1 / 10) 4000 s1) as HX2.
  rewrite Hfit in Hcalls, HX2. simpl in HX2. unfold same_X in HX2.
  rewrite (bind_Ok _ _ _ _ _ Hfit).
  rewrite (bind_Ok get _ s2 s2 s2 eq_refl).
  rewrite HX2, HX1, HX. simpl rows.
  pose proof (fun x => predict_single_data_in_range [2; 2; 1]%nat s2 x 2 1 Hnet2 Hlen
                         eq_refl eq_refl) as Hp.
  destruct (Hp [0; 0] eq_refl ltac:(lia)) as (o0 & Hp0 & Hr0).
  destruct (Hp [0; 1] eq_refl ltac:(lia)) as (o1 & Hp1 & Hr1).
  destruct (Hp [1; 0] eq_refl ltac:(lia)) as (o2 & Hp2 & Hr2).
  destruct (Hp [1; 1] eq_refl ltac:(lia)) as (o3 & Hp3 & Hr3).
  exists [o0; o1; o2; o3], s2. split.
  { simpl foldM.
    rewrite (bind_Ok _ _ s2 [o0] s2)
      by (now rewrite (bind_Ok _ _ _ _ _ Hp0)).
    rewrite (bind_Ok _ _ s2 [o0; o1] s2)
      by (now rewrite (bind_Ok _ _ _ _ _ Hp1)).
    rewrite (bind_Ok _ _ s2 [o0; o1; o2] s2)
      by (now rewrite (bind_Ok _ _ _ _ _ Hp2)).
    rewrite (bind_Ok _ _ s2 [o0; o1; o2; o3] s2)
      by (now rewrite (bind_Ok _ _ _ _ _ Hp3)).
    reflexivity. }
  split; [reflexivity|].
  split; [repeat (apply Forall_cons_2; [assumption|]); apply Forall_nil_2|].
  split; [exact Hnet2|].
  rewrite Hcalls, updates_app, updates_call_pairs. now rewrite Hcalls1.
Qed.

Lemma constant_generator_valid : valid_generator (constant_generator (1 / 2)).
Proof.
  split.
  - intros k. simpl. lra.
  - intros k n Hn. simpl. lia.
Qed.

Lemma train_and_print_runs_witness :
  exists printed s',
    train_and_print (fresh (constant_generator (1 / 2))) = (Ok printed, s') /\
    length printed = 4%nat /\ Forall (fun v => -1 <= v <= 1) printed /\
    net_ok [2; 2; 1]%nat s' /\
    updates (calls s') = (updates (calls (fresh (constant_generator (1 / 2)))) + 4000)%nat.
Proof.
  apply (train_and_print_runs (fresh (constant_generator (1 / 2))) eq_refl
           constant_generator_valid).
Defined.

(** ** Rows beyond the global X *)

#[local] Instance still_valid_preorder : PreOrder still_valid.
Proof.
  split; [intros s H; exact H|].
  intros s1 s2 s3 H1 H2 H. apply H2, H1, H.
Qed.

Lemma random_randint_still_valid n : preserves still_valid (random_randint n).
Proof.
  intros s. unfold random_randint, randint.
  destruct (n =? 0)%nat; intros H; [exact H|]. now apply valid_generator_advance.
Qed.

Lemma forward_prop_still_valid x : preserves still_valid (_forward_prop x).
Proof.
  intros s H. destruct (forward_prop_only_list x s) as (_ & _ & _ & _ & _ & -> & _).
  exact H.
Qed.

Lemma back_prop_still_valid y target lr : preserves still_valid (_back_prop y target lr).
Proof.
  intros s H. destruct (back_prop_only_weights y target lr s) as (_ & _ & _ & _ & _ & -> & _).
  exact H.
Qed.

Lemma counted_still_valid {A} c (m : M A) :
  preserves still_valid m -> preserves still_valid (counted c m).
Proof.
  intros H. unfold counted. apply preserves_bind; [typeclasses eauto|exact H|].
  intros a. apply preserves_bind;
    [typeclasses eauto| |intros; apply preserves_ret; typeclasses eauto].
  apply preserves_modify. intros s Hs. exact Hs.
Qed.

(** One iteration of [fit] keeps the global [X] and the contract of the
    generator. *)
Lemma fit_iteration_keeps Z labels lr :
  preserves (fun s s' => same_X s s' /\ still_valid s s')
    (s0 <- get ;;
     sample <- random_randint (nrows (X s0)) ;;
     z <- lift (getrow Z sample) ;;
     x <- list_new [z] ;;
     y <- counted Forward (_forward_prop x) ;;
     target <- lift (label_at labels sample) ;;
     counted Backward (_back_prop y target lr)).
Proof.
  match goal with |- preserves _ ?m =>
    assert (HX : preserves same_X m); [|assert (Hg : preserves still_valid m)]
  end.
  - repeat first
      [ apply random_randint_same_X | apply list_new_same_X
      | apply counted_same_X; [apply forward_prop_same_X || apply back_prop_same_X]
      | preserves_step ].
  - repeat first
      [ apply random_randint_still_valid
      | apply counted_still_valid;
          [apply forward_prop_still_valid || apply back_prop_still_valid]
      | intros s H; exact H
      | preserves_step ].
  - intros s. split; [apply HX|apply Hg].
Qed.

(** The rows of [Z], the data with the bias column in front. *)
Lemma bias_rows Z data i :
  wf data -> concatenate1 (T (ones2 1 (nrows data))) data = Ok Z ->
  rows Z !! i = concatenate (ones 1) <$> rows data !! i.
Proof.
  intros Hwf HZ. destruct (rows data !! i) as [r|] eqn:Er.
  - now apply (bias_rows_lookup data i r).
  - apply lookup_ge_None. rewrite (bias_rows_length data Z Hwf HZ).
    destruct Hwf as [<- _]. now apply lookup_ge_None.
Qed.

(** Two iterations of [fit] on training sets that hold the same rows and
    labels below [X.shape[0]] do the same. *)
Lemma fit_iteration_first_rows data data' Z Z' labels labels' lr s :
  wf data -> wf data' ->
  concatenate1 (T (ones2 1 (nrows data))) data = Ok Z ->
  concatenate1 (T (ones2 1 (nrows data'))) data' = Ok Z' ->
  valid_generator (rng s) ->
  (forall i, (i < nrows (X s))%nat ->
     rows data !! i = rows data' !! i /\ label_at labels i = label_at labels' i) ->
  (s0 <- get ;;
   sample <- random_randint (nrows (X s0)) ;;
   z <- lift (getrow Z sample) ;;
   x <- list_new [z] ;;
   y <- counted Forward (_forward_prop x) ;;
   target <- lift (label_at labels sample) ;;
   counted Backward (_back_prop y target lr)) s =
  (s0 <- get ;;
   sample <- random_randint (nrows (X s0)) ;;
   z <- lift (getrow Z' sample) ;;
   x <- list_new [z] ;;
   y <- counted Forward (_forward_prop x) ;;
   target <- lift (label_at labels' sample) ;;
   counted Backward (_back_prop y target lr)) s.
Proof.
  intros Hwf Hwf' HZ HZ' [_ Hint] Hsame.
  rewrite !(bind_Ok get _ s s s eq_refl).
  unfold bind at 1 8. unfold random_randint, randint.
  destruct (Nat.eqb_spec (nrows (X s)) 0) as [E|E]; [reflexivity|].
  set (sample := integer (rng s) (cursor (rng s)) (nrows (X s))).
  assert (Hs : (sample < nrows (X s))%nat) by (apply Hint; lia).
  destruct (Hsame sample Hs) as [Hrow Hlab].
  assert (Hget : getrow Z sample = getrow Z' sample).
  { unfold getrow. now rewrite (bias_rows Z data sample Hwf HZ),
      (bias_rows Z' data' sample Hwf' HZ'), Hrow. }
  rewrite Hget, Hlab. reflexivity.
Qed.

(** Two loops whose bodies agree on the states of an invariant that the
    first keeps do the same. *)
Lemma foldM_ext_inv {A B} (P : pystate -> Prop) (f g : B -> A -> M B) l b s :
  P s ->
  (forall b x s', P s' -> f b x s' = g b x s') ->
  (forall b x s', P s' -> P (f b x s').2) ->
  foldM f l b s = foldM g l b s.
Proof.
  intros HP Heq Hkeep. revert b s HP.
  induction l as [|x l IH]; intros b s HP; [reflexivity|].
  simpl. unfold bind. rewrite <- (Heq b x s HP).
  pose proof (Hkeep b x s HP) as HP'.
  destruct (f b x s) as [[b'|e] s']; [|reflexivity].
  now apply IH.
Qed.

(** X19. [fit] reads the rows of [data] and the labels below [X.shape[0]]
    only, [X] the global and not its argument: on two training sets that
    hold the same rows and labels there it has the same outcome and leaves
    the same state, whatever they hold beyond and however many rows they
    have. *)
Theorem fit_reads_the_first_rows_only data data' labels labels' lr epochs s :
  wf data -> wf data' -> valid_generator (rng s) ->
  (forall i, (i < nrows (X s))%nat ->
     rows data !! i = rows data' !! i /\ label_at labels i = label_at labels' i) ->
  fit data labels lr epochs s = fit data' labels' lr epochs s.
Proof.
  intros Hwf Hwf' Hg Hsame. unfold fit.
  destruct (run_bias_column data) as [Z HZ]. destruct (run_bias_column data') as [Z' HZ'].
  rewrite (bind_Ok _ _ _ _ _ (run_lift _ _ _ HZ)).
  rewrite (bind_Ok _ _ _ _ _ (run_lift _ _ _ HZ')).
  unfold for_each.
  apply (foldM_ext_inv (fun s' => X s' = X s /\ valid_generator (rng s'))).
  - now split.
  - intros [] k s' [HX Hg'].
    apply (fit_iteration_first_rows data data' Z Z' labels labels' lr s'
             Hwf Hwf' HZ HZ' Hg').
    now rewrite HX.
  - intros [] k s' [HX Hg'].
    destruct (fit_iteration_keeps Z labels lr s') as [HX' Hg''].
    split; [now rewrite HX', HX|now apply Hg''].
Qed.

Lemma fit_reads_the_first_rows_only_witness :
  fit notebook_X notebook_y (1 / 10) 3 xor_network =
  fit (Mat 6 2 (rows notebook_X ++ [[5; 5]; [7; 7]]))
      (Labels1 [0; 1; 1; 0; 8; 9]) (1 / 10) 3 xor_network.
Proof.
  apply (fit_reads_the_first_rows_only notebook_X
           (Mat 6 2 (rows notebook_X ++ [[5; 5]; [7; 7]]))
           notebook_y (Labels1 [0; 1; 1; 0; 8; 9]) (1 / 10) 3 xor_network).
  - split; [reflexivity|repeat constructor].
  - split; [reflexivity|repeat constructor].
  - exact xor_network_generator.
  - change (nrows (X xor_network)) with 4%nat. intros i Hi.
    destruct i as [|[|[|[|i]]]]; [split; reflexivity..|lia].
Defined.

(** ** The PyTorch network *)

Section TorchProofs.
Context {nn_Module : Type} (accepts : Z -> Z -> bool)
  (Linear : nat -> Z -> Z -> nn_Module) (Tanh Sigmoid : nn_Module).

Local Abbreviation hidden := (torch.hidden nn_Module accepts Linear Tanh).

Lemma getitem_nat {A} (l : list A) i a :
  l !! i = Some a -> torch.getitem l (Z.of_nat i) = torch.Ok a.
Proof.
  intros H. unfold torch.getitem.
  destruct (Z.ltb_spec (Z.of_nat i) 0); [lia|].
  destruct (Z.ltb_spec (Z.of_nat i) 0); [lia|].
  now rewrite Nat2Z.id, H.
Qed.

Lemma getitem_from_end {A} (l : list A) k a :
  (0 < k)%nat -> (k <= length l)%nat -> l !! (length l - k)%nat = Some a ->
  torch.getitem l (- Z.of_nat k) = torch.Ok a.
Proof.
  intros Hk Hle H. unfold torch.getitem.
  destruct (Z.ltb_spec (- Z.of_nat k) 0); [|lia].
  destruct (Z.ltb_spec (- Z.of_nat k + Z.of_nat (length l)) 0); [lia|].
  replace (Z.to_nat (- Z.of_nat k + Z.of_nat (length l))) with (length l - k)%nat by lia.
  now rewrite H.
Qed.

Lemma getitem_short {A} (l : list A) :
  (length l < 2)%nat -> torch.getitem l (-2) = torch.Raise torch.IndexError.
Proof.
  intros H. unfold torch.getitem. simpl.
  destruct (Z.ltb_spec (-2 + Z.of_nat (length l)) 0); [reflexivity|lia].
Qed.

(** The modules the loop appends for the boundaries [a], ..., [a + n - 1]. *)
Lemma hidden_run net_arch n a layers :
  (a + n + 1 < length net_arch)%nat ->
  (forall i a0 a1, net_arch !! i = Some a0 -> net_arch !! S i = Some a1 ->
     accepts a0 a1 = true) ->
  exists new,
    hidden net_arch (seq a n) layers = torch.Ok (layers ++ new) /\
    length new = (2 * n)%nat /\
    forall i a0 a1, (i < n)%nat ->
      net_arch !! (a + i)%nat = Some a0 -> net_arch !! S (a + i) = Some a1 ->
      new !! (2 * i)%nat = Some (Linear (a + i) a0 a1) /\
      new !! S (2 * i) = Some Tanh.
Proof.
  intros Hlen Hacc. revert a layers Hlen.
  induction n as [|n IH]; intros a layers Hlen.
  - exists []. simpl. rewrite app_nil_r. split; [reflexivity|]. split; [reflexivity|].
    intros; lia.
  - destruct (lookup_lt_is_Some_2 net_arch a) as [a0 Ha0]; [lia|].
    destruct (lookup_lt_is_Some_2 net_arch (S a)) as [a1 Ha1]; [lia|].
    destruct (IH (S a) (layers ++ [Linear a a0 a1; Tanh])) as (new & Hrun & Hl & Hnew); [lia|].
    exists ([Linear a a0 a1; Tanh] ++ new). split; [|split].
    + simpl torch.hidden. rewrite (getitem_nat _ _ _ Ha0). simpl torch.bind.
      replace (Z.of_nat a + 1)%Z with (Z.of_nat (S a)) by lia.
      rewrite (getitem_nat _ _ _ Ha1). simpl torch.bind.
      unfold torch.nn_Linear. rewrite (Hacc a a0 a1 Ha0 Ha1). simpl torch.bind.
      simpl app. rewrite Hrun. f_equal. now rewrite <- !app_assoc.
    + rewrite length_app, Hl. simpl. lia.
    + intros i b0 b1 Hi Hb0 Hb1. destruct i as [|i].
      * rewrite Nat.add_0_r in *.
        assert (b0 = a0) as -> by congruence. assert (b1 = a1) as -> by congruence.
        now split.
      * replace (a + S i)%nat with (S a + i)%nat in Hb0, Hb1 by lia.
        destruct (Hnew i b0 b1 ltac:(lia) Hb0 Hb1) as [H1 H2].
        replace (2 * S i)%nat with (S (S (2 * i))) by lia.
        replace (a + S i)%nat with (S a + i)%nat by lia.
        now split.
Qed.

(** X20. [FullyConnectedNN_pt] raises [IndexError] when it is given fewer
    than two layer sizes: [net_arch[-2]] does not exist. When it is given at
    least two and [nn.Linear] takes all the sizes, it returns two modules
    per layer boundary: the linear module from layer [i] to layer [i + 1],
    then [nn.Tanh()], and [nn.Sigmoid()] in its place after the last. *)
Theorem FullyConnectedNN_pt_layers (net_arch : list Z) :
  ((length net_arch < 2)%nat ->
   torch.FullyConnectedNN_pt nn_Module accepts Linear Tanh Sigmoid net_arch
   = torch.Raise torch.IndexError) /\
  ((2 <= length net_arch)%nat ->
   (forall i a0 a1, net_arch !! i = Some a0 -> net_arch !! S i = Some a1 ->
      accepts a0 a1 = true) ->
   exists layers,
     torch.FullyConnectedNN_pt nn_Module accepts Linear Tanh Sigmoid net_arch
     = torch.Ok layers /\
     length layers = (2 * (length net_arch - 1))%nat /\
     forall i a0 a1, net_arch !! i = Some a0 -> net_arch !! S i = Some a1 ->
       layers !! (2 * i)%nat = Some (Linear i a0 a1) /\
       layers !! S (2 * i)
         = Some (if (S (S i) =? length net_arch)%nat then Sigmoid else Tanh)).
Proof.
  split.
  - intros Hlen. unfold torch.FullyConnectedNN_pt.
    replace (length net_arch - 2)%nat with 0%nat by lia. simpl torch.hidden.
    simpl torch.bind. now rewrite getitem_short.
  - intros Hlen Hacc.
    set (n := (length net_arch - 2)%nat).
    destruct (hidden_run net_arch n 0 []) as (new & Hrun & Hl & Hnew); [lia|exact Hacc|].
    destruct (lookup_lt_is_Some_2 net_arch n) as [a0 Ha0]; [lia|].
    destruct (lookup_lt_is_Some_2 net_arch (S n)) as [a1 Ha1]; [lia|].
    exists (new ++ [Linear n a0 a1; Sigmoid]). split; [|split].
    + unfold torch.FullyConnectedNN_pt. fold n. rewrite Hrun. simpl torch.bind.
      assert (G2 : torch.getitem net_arch (-2) = torch.Ok a0).
      { apply (getitem_from_end net_arch 2 a0); [lia|lia|exact Ha0]. }
      assert (G1 : torch.getitem net_arch (-1) = torch.Ok a1).
      { apply (getitem_from_end net_arch 1 a1); [lia|lia|].
        now replace (length net_arch - 1)%nat with (S n) by lia. }
      rewrite G2. simpl torch.bind. rewrite G1. simpl torch.bind.
      unfold torch.nn_Linear. rewrite (Hacc n a0 a1 Ha0 Ha1).
      reflexivity.
    + rewrite length_app, Hl. simpl. lia.
    + intros i b0 b1 Hb0 Hb1.
      assert (Hi : (i <= n)%nat) by (apply lookup_lt_Some in Hb1; lia).
      destruct (decide (i = n)) as [->|Hne].
      * assert (b0 = a0) as -> by congruence. assert (b1 = a1) as -> by congruence.
        destruct (Nat.eqb_spec (S (S n)) (length net_arch)); [|lia].
        rewrite !lookup_app_r by lia.
        replace (2 * n - length new)%nat with 0%nat by lia.
        replace (S (2 * n) - length new)%nat with 1%nat by lia. now split.
      * destruct (Nat.eqb_spec (S (S i)) (length net_arch)); [lia|].
        destruct (Hnew i b0 b1 ltac:(lia) Hb0 Hb1) as [H1 H2].
        rewrite !lookup_app_l by lia. now split.
Qed.

End TorchProofs.

Lemma FullyConnectedNN_pt_layers_witness :
  torch.FullyConnectedNN_pt module_repr positive_sizes (fun _ => ReprLinear)
    ReprTanh ReprSigmoid [5]%Z = torch.Raise torch.IndexError /\
  exists layers,
    torch.FullyConnectedNN_pt module_repr positive_sizes (fun _ => ReprLinear)
      ReprTanh ReprSigmoid [2; 2; 1]%Z = torch.Ok layers /\
    length layers = 4%nat /\
    layers !! 0%nat = Some (ReprLinear 2 2) /\ layers !! 1%nat = Some ReprTanh /\
    layers !! 2%nat = Some (ReprLinear 2 1) /\ layers !! 3%nat = Some ReprSigmoid.
Proof.
  split.
  - apply (FullyConnectedNN_pt_layers positive_sizes (fun _ => ReprLinear)
             ReprTanh ReprSigmoid [5]%Z).
    simpl. lia.
  - destruct (FullyConnectedNN_pt_layers positive_sizes (fun _ => ReprLinear)
                ReprTanh ReprSigmoid [2; 2; 1]%Z) as (_ & H).
    destruct H as (layers & Hrun & Hl & Hat).
    + simpl. lia.
    + intros [|[|[|i]]] a0 a1 H0 H1; simpl in H0, H1; try discriminate;
        injection H0 as <-; injection H1 as <-; reflexivity.
    + destruct (Hat 0%nat 2%Z 2%Z eq_refl eq_refl) as [L0 A0].
      destruct (Hat 1%nat 2%Z 1%Z eq_refl eq_refl) as [L1 A1].
      exists layers. now repeat split.
Defined.
